(** * Shallow embedding of the vegetation_loss scripts

    - [scripts/qa/ccd_break_filter_to_raster.py]: break selection per pixel,
      the reading of the parquet files, raster parameters, raster filling,
      the QGIS palette and the files written;
    - [scripts/data_acquisition/gee_download_S2_tile_36_parts.py]: the NDVI
      clipping, the nodata handling of the clipped mosaic, the files the
      mosaicking leaves and the process-pool ordering;
    - [scripts/data_exploration/Extration_S2_2N_observations.py]: the dates
      file, the per-pixel observation window, the rows per polygon, the
      list-to-column expansion and the columns written.

    Numeric conventions.  A [tBreak] cell is [Some ms] (milliseconds since
    the Unix epoch) or [None] for a pandas NaN.  Coordinates are whole
    metres (the pixel centres of a 10 m grid), for which every float
    operation of the source is exact, so they are modelled in [Z]. *)

From Stdlib Require Import ZArith List Bool Lia.
From Stdlib Require Import Sorting.Mergesort Sorting.Sorted Sorting.Permutation.
From Stdlib Require Import Structures.Orders.
From Stdlib Require Strings.String DecimalString.
Import ListNotations.
Import (notations) Stdlib.Strings.String.
Import (notations) Stdlib.Strings.Ascii.
Open Scope Z_scope.

(* ------------------------------------------------------------------ *)
(** ** ccd_break_filter_to_raster.py : rows and [filter_pixel_group] *)

(** One row of a parquet table; [label] is its pandas index label. *)
Record row := mkRow {
  label : nat;
  x_coord : Z;
  y_coord : Z;
  tBreak : option Z
}.

(** Order of [Series.sort_values(ascending=False)] / [nlargest]: larger
    values first, NaN after every number. [tb_ge a b] means that [a] may
    come before [b]. *)
Definition tb_ge (a b : option Z) : bool :=
  match a, b with
  | Some x, Some y => y <=? x
  | Some _, None => true
  | None, None => true
  | None, Some _ => false
  end.

(** One insertion step of the descending sort: [x] goes before the first
    element it ranks at or above, so it stays ahead of later rows with an
    equal [tBreak]. *)
Fixpoint insert_desc (x : row) (l : list row) : list row :=
  match l with
  | [] => [x]
  | y :: l' => if tb_ge (tBreak x) (tBreak y) then x :: l else y :: insert_desc x l'
  end.

(** The order [nlargest] (and [sort_values(ascending=False)] on at most
    two rows) gives: descending on [tBreak], NaN last, rows with equal
    values in their original order (a stable sort). *)
Fixpoint sort_desc (g : list row) : list row :=
  match g with
  | [] => []
  | x :: g' => insert_desc x (sort_desc g')
  end.

(** [Series.nlargest(n)] with [keep='first']: the stable descending order,
    NaN last, cut to its first [n] entries. *)
Definition nlargest (n : nat) (g : list row) : list row :=
  firstn n (sort_desc g).

Fixpoint last_opt {A} (l : list A) : option A :=
  match l with
  | [] => None
  | [a] => Some a
  | _ :: l' => last_opt l'
  end.

(** [group.loc[lbl]]: the row carrying index label [lbl]. *)
Definition loc (g : list row) (lbl : nat) : option row :=
  find (fun r => Nat.eqb (label r) lbl) g.

(** What [filter_pixel_group] can do: return a row, return [None], or
    raise (an [IndexError] from [index[-1]] on an empty selection). *)
Inductive fpg_result :=
| FRow (r : row)
| FNone
| FError.

(** [filtered_group['tBreak'] >= search_start_ms]; NaN compares false. *)
Definition ge_start (s : Z) (r : row) : bool :=
  match tBreak r with Some t => s <=? t | None => false end.

(** [filtered_group['tBreak'] <= search_end_ms]. *)
Definition le_end (e : Z) (r : row) : bool :=
  match tBreak r with Some t => t <=? e | None => false end.

Definition filter_start (s : option Z) (g : list row) : list row :=
  match s with Some s' => filter (ge_start s') g | None => g end.

Definition filter_end (e : option Z) (g : list row) : list row :=
  match e with Some e' => filter (le_end e') g | None => g end.

(** The selection on the (possibly filtered) group: [iloc[0]] for one row,
    otherwise the last label of [nlargest(2)] looked up with [loc]. *)
Definition select_break (g : list row) : fpg_result :=
  match g with
  | [r] => FRow r
  | _ =>
      match last_opt (nlargest 2 g) with
      | None => FError
      | Some r2 =>
          match loc g (label r2) with
          | Some r => FRow r
          | None => FError
          end
      end
  end.

(** [filter_pixel_group(group, search_start, search_end)]; the bounds are
    given already converted to milliseconds ([search_start_ms],
    [search_end_ms]). *)
Definition filter_pixel_group (g : list row) (search_start search_end : option Z)
  : fpg_result :=
  match search_start, search_end with
  | None, None => select_break g
  | _, _ =>
      let filtered_group := filter_end search_end (filter_start search_start g) in
      match filtered_group with
      | [] => FNone
      | _ => select_break filtered_group
      end
  end.

(** Reading of "the second element of the descending ordering of the
    group's tBreak values" on rows: [r] is a row of [g], some other row [a]
    ranks at or above it, and every row other than [r] and [a] ranks at or
    below it. *)
Definition second_highest_in (g : list row) (r : row) : Prop :=
  In r g /\
  exists a, In a g /\ label a <> label r /\
    tb_ge (tBreak a) (tBreak r) = true /\
    forall k, In k g -> label k <> label r -> label k <> label a ->
      tb_ge (tBreak r) (tBreak k) = true.

(** A row's tBreak lies within the given bounds (in milliseconds). *)
Definition within_bounds (s e : option Z) (r : row) : Prop :=
  exists t, tBreak r = Some t /\
    (forall s', s = Some s' -> s' <= t) /\
    (forall e', e = Some e' -> t <= e').

(* ------------------------------------------------------------------ *)
(** ** Break dates: [pd.to_datetime(ms, unit='ms', utc=True)] and
    [int(date.strftime('%Y%m%d'))] *)

Definition ms_per_day : Z := 86400000.

(** Proleptic Gregorian civil date (year, month, day) of a day count since
    1970-01-01, as pandas computes it for a Timestamp. *)
Definition civil_from_days (days : Z) : Z * Z * Z :=
  let z := days + 719468 in
  let era := z / 146097 in
  let doe := z - era * 146097 in
  let yoe := (doe - doe / 1460 + doe / 36524 - doe / 146096) / 365 in
  let doy := doe - (365 * yoe + yoe / 4 - yoe / 100) in
  let mp := (5 * doy + 2) / 153 in
  let d := doy - (153 * mp + 2) / 5 + 1 in
  let m := if mp <? 10 then mp + 3 else mp - 9 in
  let y := yoe + era * 400 + (if m <=? 2 then 1 else 0) in
  (y, m, d).

(** [pd.to_datetime(ms, unit='ms', utc=True).tz_localize(None)] with the
    nanosecond Timestamps of pandas 2.x: the nanosecond value must lie in
    the int64 range (the minimum is NaT), otherwise [OutOfBoundsDatetime]
    is raised ([None]). The range is that of pandas 2.x; later versions
    may keep the millisecond unit and convert dates beyond it. *)
Definition to_datetime_ms (ms : Z) : option (Z * Z * Z) :=
  let ns := ms * 1000000 in
  if (- 2 ^ 63 <? ns) && (ns <? 2 ^ 63)
  then Some (civil_from_days (ms / ms_per_day))
  else None.

(** [int(date.strftime('%Y%m%d'))] for a four-digit year. *)
Definition yyyymmdd (ymd : Z * Z * Z) : Z :=
  let '(y, m, d) := ymd in y * 10000 + m * 100 + d.

Definition break_date_int (ms : Z) : option Z :=
  option_map yyyymmdd (to_datetime_ms ms).

(* ------------------------------------------------------------------ *)
(** ** [calculate_raster_parameters_utm] and [create_raster_array_utm] *)

Record raster_params := mkParams {
  width : Z;
  height : Z;
  min_x_corner : Z;
  min_y_corner : Z;
  max_x_corner : Z;
  max_y_corner : Z;
  res_x : Z;
  res_y : Z
}.

(** [Series.min()] / [Series.max()]; on an empty frame they give NaN and
    [int(np.ceil(NaN))] raises, hence [None]. *)
Definition list_min (l : list Z) : option Z :=
  match l with [] => None | a :: l' => Some (fold_left Z.min l' a) end.

Definition list_max (l : list Z) : option Z :=
  match l with [] => None | a :: l' => Some (fold_left Z.max l' a) end.

(** [int(np.ceil(n / d))] for [d > 0]. *)
Definition ceil_div (n d : Z) : Z := - ((- n) / d).

(** [int(np.round(n / d))] for [d > 0]: round half to even. *)
Definition np_round_div (n d : Z) : Z :=
  let q := n / d in
  let r := n mod d in
  if 2 * r <? d then q
  else if d <? 2 * r then q + 1
  else if Z.even q then q else q + 1.

Definition calculate_raster_parameters_utm (gdf : list row) : option raster_params :=
  match list_min (map x_coord gdf), list_min (map y_coord gdf),
        list_max (map x_coord gdf), list_max (map y_coord gdf) with
  | Some min_x, Some min_y, Some max_x, Some max_y =>
      let rx := 10 in
      let ry := 10 in
      let min_x_c := min_x - rx / 2 in
      let min_y_c := min_y - ry / 2 in
      let max_x_c := max_x + rx / 2 in
      let max_y_c := max_y + ry / 2 in
      Some {| width := ceil_div (max_x_c - min_x_c) rx;
              height := ceil_div (max_y_c - min_y_c) ry;
              min_x_corner := min_x_c; min_y_corner := min_y_c;
              max_x_corner := max_x_c; max_y_corner := max_y_c;
              res_x := rx; res_y := ry |}
  | _, _, _, _ => None
  end.

(** [x_idx = int(np.round((x - min_x) / res_x - 0.5))], the fraction
    written over the common denominator [2 * res_x]. *)
Definition x_idx (prm : raster_params) (r : row) : Z :=
  np_round_div (2 * (x_coord r - min_x_corner prm) - res_x prm) (2 * res_x prm).

(** [y_idx = int(np.round((max_y - y) / res_y - 0.5))]. *)
Definition y_idx (prm : raster_params) (r : row) : Z :=
  np_round_div (2 * (max_y_corner prm - y_coord r) - res_y prm) (2 * res_y prm).

(** The cell (row index, column index) a point is written to. *)
Definition cell_of (prm : raster_params) (r : row) : Z * Z := (y_idx prm r, x_idx prm r).

(** [l[n] = v] for an index known to be in range. *)
Fixpoint set_nth {A} (n : nat) (v : A) (l : list A) : list A :=
  match l, n with
  | [], _ => []
  | _ :: l', O => v :: l'
  | a :: l', S n' => a :: set_nth n' v l'
  end.

Definition grid := list (list Z).

(** [tbreak_array[y_idx, x_idx]]. *)
Definition cell (arr : grid) (c : Z * Z) : Z :=
  nth (Z.to_nat (snd c)) (nth (Z.to_nat (fst c)) arr []) 0.

Definition set_cell (arr : grid) (c : Z * Z) (v : Z) : grid :=
  set_nth (Z.to_nat (fst c)) (set_nth (Z.to_nat (snd c)) v (nth (Z.to_nat (fst c)) arr [])) arr.

Definition in_raster (prm : raster_params) (c : Z * Z) : bool :=
  (0 <=? snd c) && (snd c <? width prm) && (0 <=? fst c) && (fst c <? height prm).

(** One iteration of the [gdf.iterrows()] loop; [None] once a date
    conversion has raised. *)
Definition raster_step (prm : raster_params) (acc : option grid) (r : row) : option grid :=
  match acc with
  | None => None
  | Some arr =>
      if in_raster prm (cell_of prm r) then
        match tBreak r with
        | None => Some arr
        | Some t =>
            match break_date_int t with
            | None => None
            | Some v => Some (set_cell arr (cell_of prm r) v)
            end
        end
      else Some arr
  end.

(** [np.full((height, width), -9999)] then the loop over the rows. *)
Definition create_raster_array_utm (gdf : list row) (prm : raster_params) : option grid :=
  fold_left (raster_step prm) gdf
    (Some (repeat (repeat (-9999) (Z.to_nat (width prm))) (Z.to_nat (height prm)))).

(* ------------------------------------------------------------------ *)
(** ** [create_qgis_style_file]: the values of the palette entries

    The colours and labels of the entries do not depend on which entries
    are written and are not modelled; the file is represented by the list
    of its [paletteEntry value=...] attributes, in order. *)

Lemma zasc_leb_total (a b : Z) :
  is_true (a <=? b) \/ is_true (b <=? a).
Proof. unfold is_true; rewrite !Z.leb_le; lia. Qed.

Module ZAsc <: TotalLeBool'.
Definition t := Z.
Definition leb (a b : Z) : bool := a <=? b.
Definition leb_total : forall a b, is_true (leb a b) \/ is_true (leb b a) := zasc_leb_total.
End ZAsc.

Module ZSort := Sort ZAsc.

(** [Series.apply(f)]: the first exception aborts the whole call. *)
Fixpoint apply_opt {A B} (f : A -> option B) (l : list A) : option (list B) :=
  match l with
  | [] => Some []
  | a :: l' =>
      match f a, apply_opt f l' with
      | Some b, Some bs => Some (b :: bs)
      | _, _ => None
      end
  end.

(** A Python dict from years to lists of date integers, in insertion
    order: [if year not in d: d[year] = []] then [d[year].append(v)]. *)
Definition year_dict := list (Z * list Z).

Fixpoint dict_append (k v : Z) (d : year_dict) : year_dict :=
  match d with
  | [] => [(k, [v])]
  | (k', vs) :: d' => if k =? k' then (k', vs ++ [v]) :: d' else (k', vs) :: dict_append k v d'
  end.

Definition dict_get (k : Z) (d : year_dict) : list Z :=
  match find (fun kv => k =? fst kv) d with Some (_, vs) => vs | None => [] end.

(** [valid_dates = gdf[~pd.isna(gdf['tBreak'])]['tBreak'].apply(...)]. *)
Definition valid_dates (gdf : list row) : option (list (Z * Z * Z)) :=
  apply_opt to_datetime_ms
    (flat_map (fun r => match tBreak r with Some t => [t] | None => [] end) gdf).

(** One iteration of [for date in valid_dates]: [year = date.year],
    [date_int = int(date.strftime('%Y%m%d'))], appended under [year]. *)
Definition add_date (d : year_dict) (date : Z * Z * Z) : year_dict :=
  let '(year, _, _) := date in dict_append year (yyyymmdd date) d.

Definition group_dates_by_year (dates : list (Z * Z * Z)) : year_dict :=
  fold_left add_date dates [].

(** Palette values written by [create_qgis_style_file]: for each year of
    [sorted(dates_by_year.keys())], the values of
    [sorted(set(dates_by_year[year]))], then the nodata entry [-9999]. *)
Definition create_qgis_style_entries (gdf : list row) : option (list Z) :=
  match valid_dates gdf with
  | None => None
  | Some dates =>
      let dates_by_year := group_dates_by_year dates in
      let years := ZSort.sort (map fst dates_by_year) in
      Some (flat_map (fun year => ZSort.sort (nodup Z.eq_dec (dict_get year dates_by_year)))
                     years ++ [-9999])
  end.

(* ------------------------------------------------------------------ *)
(** ** gee_download_S2_tile_36_parts.py : nodata handling in
    [combine_tiffs_to_mosaic]

    [mask(src, geometries, crop=True, nodata=NODATA, filled=False)] returns
    a numpy masked array: every element has its data and a mask bit (set
    outside the geometries). The (bands, height, width) array is stored
    here pixel-major: a list of rows, each a list of pixels, each pixel the
    list of its band elements. *)

Definition NODATA : Z := 65535.

Record melem := mkElem { data : Z; masked : bool }.

Definition image := list (list (list melem)).

(** [out_image == c] followed by [np.all]: a masked element counts as
    [True] in [MaskedArray.all]. *)
Definition all_true_eq (c : Z) (pv : list melem) : bool :=
  forallb (fun e => if masked e then true else data e =? c) pv.

(** [mask_nodata = np.all(out_image == 0, axis=0)]. *)
Definition mask_nodata_of (out_image : image) : list (list bool) :=
  map (map (all_true_eq 0)) out_image.

(** [out_image[:, mask_nodata] = NODATA]: the index is a tuple, so
    [MaskedArray.__setitem__] writes the data at the selected pixels (the
    data of [mask_nodata], [True] also for a pixel masked in every band)
    and sets their mask bits to the mask of the plain value [NODATA], that
    is, clears them. *)
Definition assign_nodata (out_image : image) (mask_nodata : list (list bool)) : image :=
  map (fun '((rw, mrow) : list (list melem) * list bool) =>
         map (fun '((pv, m) : list melem * bool) => if m then map (fun _ => mkElem NODATA false) pv else pv)
             (combine rw mrow))
      (combine out_image mask_nodata).

(** Every element of the masked array is masked. *)
Definition all_masked (out_image : image) : bool :=
  forallb (forallb (forallb masked)) out_image.

(** [if np.all(out_image == NODATA):]. [MaskedArray.all] gives [True] when
    every unmasked element is [NODATA] and some element is unmasked; when
    every element is masked it gives [np.ma.masked], which is falsy. *)
Definition all_nodata_truthy (out_image : image) : bool :=
  negb (all_masked out_image) && forallb (forallb (all_true_eq NODATA)) out_image.

(** The part of [combine_tiffs_to_mosaic] after the clip: [clipped] is the
    result of [mask(...)] ([None] when it raises [ValueError]). The result
    is the array passed to the final [dest.write], or [None] when the
    function returns without writing the clipped mosaic. *)
Definition write_clipped (clipped : option image) : option image :=
  match clipped with
  | None => None
  | Some out_image =>
      if all_nodata_truthy out_image then None
      else
        let mask_nodata := mask_nodata_of out_image in
        Some (assign_nodata out_image mask_nodata)
  end.

Definition pixel (img : image) (i j : nat) : option (list melem) :=
  match nth_error img i with Some rw => nth_error rw j | None => None end.

(* ------------------------------------------------------------------ *)
(** ** Extration_S2_2N_observations.py : [processar_pixel]

    A [datetime] parsed with [strptime(d, '%Y%m%d')] is midnight of a day;
    it is represented by its day ordinal, so that [timedelta(days=k)] is
    [+ k] and [(d1 - d0).days] is [d1 - d0]. For years of four digits the
    lexicographic order of the ['%Y%m%d'] strings is the order of the days,
    so the lists of date strings are represented by the lists of the days.
    One row of a pandas frame [{'data': ..., 'valor': ...}] is the pair
    [(data, valor)]. *)

Definition obs := (Z * Z)%type.

Lemma obsasc_leb_total (a b : obs) :
  is_true (fst a <=? fst b) \/ is_true (fst b <=? fst a).
Proof. unfold is_true; rewrite !Z.leb_le; lia. Qed.

(** [sort_values('data')] *)
Module ObsAsc <: TotalLeBool'.
Definition t := obs.
Definition leb (a b : obs) : bool := fst a <=? fst b.
Definition leb_total : forall a b, is_true (leb a b) \/ is_true (leb b a) := obsasc_leb_total.
End ObsAsc.

Module ObsSortAsc := Sort ObsAsc.

Lemma obsdesc_leb_total (a b : obs) :
  is_true (fst b <=? fst a) \/ is_true (fst a <=? fst b).
Proof. unfold is_true; rewrite !Z.leb_le; lia. Qed.

(** [sort_values('data', ascending=False)] *)
Module ObsDesc <: TotalLeBool'.
Definition t := obs.
Definition leb (a b : obs) : bool := fst b <=? fst a.
Definition leb_total : forall a b, is_true (leb a b) \/ is_true (leb b a) := obsdesc_leb_total.
End ObsDesc.

Module ObsSortDesc := Sort ObsDesc.

(** [data_target_dt]: [usar_data_1 = data_1_dt and data_1_dt != data_0_dt]
    (a [datetime] is always truthy), then
    [data_0_dt + timedelta(days=((data_1_dt - data_0_dt).days // 2))]. *)
Definition data_target (data_0 : Z) (data_1 : option Z) : Z :=
  match data_1 with
  | Some data_1 => if negb (data_1 =? data_0) then data_0 + (data_1 - data_0) / 2 else data_0
  | None => data_0
  end.

(** [pixel_vals[:, b]] for a list of rows ([IndexError] as [None]). *)
Definition column (pixel_vals : list (list Z)) (b : nat) : option (list Z) :=
  apply_opt (fun rw => nth_error rw b) pixel_vals.

(** [pd.DataFrame({'data': datas, 'valor': vals})]: columns of different
    lengths raise [ValueError]. *)
Definition make_frame (datas : list Z) (vals : option (list Z)) : option (list obs) :=
  match vals with
  | Some vs => if Nat.eqb (length datas) (length vs) then Some (combine datas vs) else None
  | None => None
  end.

(** [.query("valor != 65535")] *)
Definition query_valid (df : list obs) : list obs :=
  filter (fun o => negb (snd o =? 65535)) df.

(** [.head(N_OBS)] *)
Definition head {A} (n : nat) (l : list A) : list A := firstn n l.

(** The keys of [row] computed by [processar_pixel] that depend on the
    observations; the lists of the bands are indexed by the position of the
    band in [band_names]. *)
Record pixel_row := mkPixelRow {
  data_mid : Z;
  dts_a : list Z;
  dts_d : list Z;
  band_a : list (list Z);
  band_d : list (list Z)
}.

(** One iteration of [for b, band_name in enumerate(band_names)]. *)
Definition band_lists (datas_pixel : list Z) (pixel_vals : list (list Z))
    (data_target_dt : Z) (N_OBS : nat) (b : nat) : option (list Z * list Z) :=
  match make_frame datas_pixel (column pixel_vals b) with
  | None => None
  | Some df =>
      let df_band := ObsSortAsc.sort (query_valid df) in
      let antes_band :=
        head N_OBS (ObsSortDesc.sort (filter (fun o => fst o <=? data_target_dt) df_band)) in
      let depois_band :=
        head N_OBS (ObsSortAsc.sort (filter (fun o => data_target_dt <? fst o) df_band)) in
      Some (map snd (ObsSortAsc.sort antes_band), map snd depois_band)
  end.

Definition processar_pixel {A} (pixel_vals : list (list Z)) (datas_pixel : list Z)
    (data_0_dt : Z) (band_names : list A) (data_1_dt : option Z) (N_OBS : nat)
    : option pixel_row :=
  let data_target_dt := data_target data_0_dt data_1_dt in
  match make_frame datas_pixel (column pixel_vals 0) with
  | None => None
  | Some df =>
      match ObsSortAsc.sort (query_valid df) with
      | [] =>
          Some (mkPixelRow data_target_dt [] []
                  (map (fun _ => []) band_names) (map (fun _ => []) band_names))
      | df_base =>
          let antes :=
            head N_OBS (ObsSortDesc.sort (filter (fun o => fst o <=? data_target_dt) df_base)) in
          let depois :=
            head N_OBS (ObsSortAsc.sort (filter (fun o => data_target_dt <? fst o) df_base)) in
          match apply_opt (band_lists datas_pixel pixel_vals data_target_dt N_OBS)
                          (seq 0 (length band_names)) with
          | None => None
          | Some bl =>
              Some (mkPixelRow data_target_dt (ZSort.sort (map fst antes)) (map fst depois)
                      (map fst bl) (map snd bl))
          end
      end
  end.

(* ------------------------------------------------------------------ *)
(** ** gee_download_S2_tile_36_parts.py : [process_and_mosaic_images]

    The main process and the workers of the [ProcessPoolExecutor] are
    interleaved by a scheduler: an execution is a list of [choice]s, each
    one a step of the main process or the completion of one submitted task
    by a worker. The [bool] of a main step is the outcome of the
    operation it performs: [true] when it raises. Future [i] is the task
    [exportImageForSingleImage(image, i, ...)]. *)

Inductive task_status := Pending | Finished_ok | Finished_raised.

Inductive event :=
  | Submitted (i : nat)
  | Completed (i : nat)
  | MosaicBegin (i : nat).

Inductive phase :=
  | Submitting (i : nat)      (** the [executor.submit] loop, at [i] *)
  | Waiting (k : nat)         (** [for future in futures: future.result()], at [k] *)
  | ShuttingDown (exc : bool) (** leaving the [with] block: [shutdown(wait=True)] *)
  | Mosaicking (i : nat)      (** the [combine_tiffs_to_mosaic] loop, at [i] *)
  | Done
  | Crashed.

Record state := mkState {
  ph : phase;
  futures : list task_status;
  trace : list event
}.

Definition init_state : state := mkState (Submitting 0) [] [].

Definition not_pending (st : task_status) : bool :=
  match st with Pending => false | _ => true end.

(** One step of the main process; [None] when it is blocked. [num_images]
    is [imageList.size().getInfo()]. *)
Definition main_step (num_images : nat) (raises : bool) (s : state) : option state :=
  match ph s with
  | Submitting i =>
      if Nat.ltb i num_images then
        if raises then Some (mkState (ShuttingDown true) (futures s) (trace s))
        else Some (mkState (Submitting (S i)) (futures s ++ [Pending]) (trace s ++ [Submitted i]))
      else Some (mkState (Waiting 0) (futures s) (trace s))
  | Waiting k =>
      match nth_error (futures s) k with
      | Some Pending => None
      | Some Finished_ok => Some (mkState (Waiting (S k)) (futures s) (trace s))
      | Some Finished_raised => Some (mkState (ShuttingDown true) (futures s) (trace s))
      | None => Some (mkState (ShuttingDown false) (futures s) (trace s))
      end
  | ShuttingDown exc =>
      if forallb not_pending (futures s)
      then Some (mkState (if exc then Crashed else Mosaicking 0) (futures s) (trace s))
      else None
  | Mosaicking i =>
      if Nat.ltb i num_images then
        Some (mkState (if raises then Crashed else Mosaicking (S i)) (futures s)
                (trace s ++ [MosaicBegin i]))
      else Some (mkState Done (futures s) (trace s))
  | Done | Crashed => None
  end.

(** A worker finishes the pending task [k], normally or with an
    exception. *)
Definition worker_step (k : nat) (raises : bool) (s : state) : option state :=
  match nth_error (futures s) k with
  | Some Pending =>
      Some (mkState (ph s)
              (set_nth k (if raises then Finished_raised else Finished_ok) (futures s))
              (trace s ++ [Completed k]))
  | _ => None
  end.

Inductive choice :=
  | MainStep (raises : bool)
  | WorkerStep (k : nat) (raises : bool).

Definition step (num_images : nat) (c : choice) (s : state) : option state :=
  match c with
  | MainStep raises => main_step num_images raises s
  | WorkerStep k raises => worker_step k raises s
  end.

Fixpoint exec (num_images : nat) (sched : list choice) (s : state) : option state :=
  match sched with
  | [] => Some s
  | c :: sched' =>
      match step num_images c s with
      | Some s' => exec num_images sched' s'
      | None => None
      end
  end.

(** Every mosaic of the trace begins after the completion of every task
    submitted in it. *)
Definition mosaics_after_tasks (tr : list event) : Prop :=
  forall pre i post, tr = pre ++ MosaicBegin i :: post ->
    forall k, In (Submitted k) tr -> In (Completed k) pre.

Definition no_mosaic (tr : list event) : Prop := forall i, ~ In (MosaicBegin i) tr.

(** Invariant of the reachable states. *)
Definition pool_inv (s : state) : Prop :=
  (forall k, In (Submitted k) (trace s) -> (k < length (futures s))%nat) /\
  (forall k st, nth_error (futures s) k = Some st -> st <> Pending ->
     In (Completed k) (trace s)) /\
  match ph s with
  | Submitting i => length (futures s) = i /\ no_mosaic (trace s)
  | Waiting _ | ShuttingDown _ => no_mosaic (trace s)
  | Mosaicking _ | Done | Crashed => Forall (fun st => st <> Pending) (futures s)
  end /\
  mosaics_after_tasks (trace s).

(* ------------------------------------------------------------------ *)
(** ** Extration_S2_2N_observations.py : [expandir_listas_em_colunas]

    A DataFrame is the list of its columns, in order, each one its name and
    the list of its cells; a pyobj is a Python object: [None], a number, a
    string or a list. *)

#[warnings="-register-all"]
Inductive pyobj :=
  | CNone
  | CInt (z : Z)
  | CStr (s : String.string)
  | CList (xs : list pyobj).

Definition frame := list (String.string * list pyobj).

(** [df[col]] *)
Definition df_col (df : frame) (col : String.string) : option (list pyobj) :=
  match find (fun c => String.eqb (fst c) col) df with
  | Some (_, v) => Some v
  | None => None
  end.

(** [isinstance(x, list)] *)
Definition is_list (x : pyobj) : bool :=
  match x with CList _ => true | _ => false end.

(** [x[i] if isinstance(x, list) and len(x) > i else None] *)
Definition item_or_none (i : nat) (x : pyobj) : pyobj :=
  match x with
  | CList xs => match nth_error xs i with Some v => v | None => CNone end
  | _ => CNone
  end.

(** [str(n)] *)
Definition str_of_nat (n : nat) : String.string :=
  DecimalString.NilZero.string_of_uint (Nat.to_uint n).

(** [df[name] = values]: an existing column is overwritten in place, a new
    one is appended. *)
Fixpoint assign_col (name : String.string) (v : list pyobj) (df : frame) : frame :=
  match df with
  | [] => [(name, v)]
  | (n, w) :: df' =>
      if String.eqb n name then (n, v) :: df' else (n, w) :: assign_col name v df'
  end.

(** [df.drop(columns=[name], inplace=True)]: [KeyError] when absent. *)
Definition drop_col (name : String.string) (df : frame) : option frame :=
  if existsb (fun c => String.eqb (fst c) name) df
  then Some (filter (fun c => negb (String.eqb (fst c) name)) df)
  else None.

(** The body of [for prefix in prefixos]. *)
Definition expand_step (df : frame) (max_itens : nat) (col : String.string)
    (acc : option frame) (prefix : String.string) : option frame :=
  match acc with
  | None => None
  | Some df_expandido =>
      match df_col df col with
      | None => None
      | Some series =>
          if String.prefix prefix col && existsb is_list series then
            drop_col col
              (fold_left (fun d i =>
                            assign_col (String.append col (str_of_nat (i + 1)))
                                       (map (item_or_none i) series) d)
                         (seq 0 max_itens) df_expandido)
          else Some df_expandido
      end
  end.

Definition expandir_listas_em_colunas (df : frame) (prefixos : list String.string)
    (max_itens : nat) : option frame :=
  fold_left (fun acc col => fold_left (expand_step df max_itens col) prefixos acc)
            (map fst df) (Some df).

(** The result the specification describes: each column whose name starts
    with a prefix and holding a list is replaced by the columns
    [<name>1 ... <name>max_itens]; the new columns come after the kept
    ones. *)
Definition replaced (prefixos : list String.string) (c : String.string * list pyobj) : bool :=
  existsb (fun p => String.prefix p (fst c)) prefixos && existsb is_list (snd c).

Definition new_columns (max_itens : nat) (c : String.string * list pyobj) : frame :=
  map (fun i => (String.append (fst c) (str_of_nat (i + 1)), map (item_or_none i) (snd c)))
      (seq 0 max_itens).

Definition expanded_as_specified (df : frame) (prefixos : list String.string)
    (max_itens : nat) : frame :=
  filter (fun c => negb (replaced prefixos c)) df ++
  flat_map (fun c => if replaced prefixos c then new_columns max_itens c else []) df.

(** A [height] x [width] array. *)
Definition grid_dims (arr : grid) (h w : nat) : Prop :=
  length arr = h /\ Forall (fun rw => length rw = w) arr.

(* ------------------------------------------------------------------ *)
(** ** [process_parquet_file], [collect_data_from_directory] and
    [process_directory_to_geotiff] *)

(** The key [(x, y)] of [df.groupby(['x_coord', 'y_coord'])]. *)
Definition xy (r : row) : Z * Z := (x_coord r, y_coord r).

Definition xy_eq_dec (a b : Z * Z) : {a = b} + {a <> b}.
Proof. decide equality; apply Z.eq_dec. Defined.

(** [groupby] sorts its keys ([sort=True]): lexicographic order on
    [(x, y)]. *)
Definition xy_leb (a b : Z * Z) : bool :=
  (fst a <? fst b) || ((fst a =? fst b) && (snd a <=? snd b)).

Definition xy_lt (a b : Z * Z) : Prop :=
  fst a < fst b \/ (fst a = fst b /\ snd a < snd b).

Lemma xy_leb_total (a b : Z * Z) : is_true (xy_leb a b) \/ is_true (xy_leb b a).
Proof.
  unfold xy_leb, is_true; rewrite !orb_true_iff, !andb_true_iff, !Z.ltb_lt, !Z.eqb_eq, !Z.leb_le.
  lia.
Qed.

Module XYAsc <: TotalLeBool'.
Definition t := (Z * Z)%type.
Definition leb := xy_leb.
Definition leb_total : forall a b, is_true (leb a b) \/ is_true (leb b a) := xy_leb_total.
End XYAsc.

Module XYSort := Sort XYAsc.

(** The keys of [grouped], each once, in ascending order. *)
Definition groupby_keys (df : list row) : list (Z * Z) :=
  XYSort.sort (nodup xy_eq_dec (map xy df)).

(** The group of a key: its rows in frame order, with their index labels. *)
Definition group_of (df : list row) (k : Z * Z) : list row :=
  filter (fun r => if xy_eq_dec (xy r) k then true else false) df.

(** The loop [for (x, y), group in grouped]: a row is appended unless
    [filter_pixel_group] returns [None]; [None] here when it raises. *)
Fixpoint filter_groups (gs : list (list row)) (search_start search_end : option Z)
  : option (list row) :=
  match gs with
  | [] => Some []
  | g :: gs' =>
      match filter_pixel_group g search_start search_end with
      | FError => None
      | FNone => filter_groups gs' search_start search_end
      | FRow r => option_map (cons r) (filter_groups gs' search_start search_end)
      end
  end.

(** [reset_index(drop=True)]: the rows relabelled [n], [n + 1], ... *)
Fixpoint reset_index (n : nat) (df : list row) : list row :=
  match df with
  | [] => []
  | r :: df' => mkRow n (x_coord r) (y_coord r) (tBreak r) :: reset_index (S n) df'
  end.

(** [filter_points_by_boundary]: the spatial join with predicate
    ['within'] against the dissolved boundary keeps, in order, the points
    lying within it; [within x y] is that test. *)
Definition filter_points_by_boundary (df : list row) (within : Z -> Z -> bool) : list row :=
  reset_index 0 (filter (fun r => within (x_coord r) (y_coord r)) df).

(** [process_parquet_file]: [file] is the frame [pd.read_parquet] returns
    ([None] when it raises); [boundary_gdf] is the boundary test, if any.
    Every exception is caught and gives [[]]. *)
Definition process_parquet_file (file : option (list row))
  (search_start search_end : option Z) (boundary_gdf : option (Z -> Z -> bool)) : list row :=
  match file with
  | None => []
  | Some df0 =>
      let df := match boundary_gdf with
                | Some b => filter_points_by_boundary df0 b
                | None => df0
                end in
      if match boundary_gdf with Some _ => (length df =? 0)%nat | None => false end
      then []
      else
        match filter_groups (map (group_of df) (groupby_keys df)) search_start search_end with
        | Some filtered_rows => filtered_rows
        | None => []
        end
  end.

(** [collect_data_from_directory]: [parquet_files] are the files found by
    [glob], in order; [None] for the early returns. *)
Definition collect_data_from_directory (parquet_files : list (option (list row)))
  (search_start search_end : option Z) (boundary_gdf : option (Z -> Z -> bool))
  : option (list row) :=
  match parquet_files with
  | [] => None
  | _ =>
      let all_filtered_rows :=
        flat_map (fun f => process_parquet_file f search_start search_end boundary_gdf)
                 parquet_files in
      match all_filtered_rows with
      | [] => None
      | _ => Some all_filtered_rows
      end
  end.

(** [s.replace('.tif', new)]: every occurrence of [".tif"], scanning from
    the left, replaced by [new]. *)
Fixpoint replace_tif (new s : String.string) : String.string :=
  match s with
  | String.String c0 ((String.String c1 (String.String c2 (String.String c3 rest))) as s1) =>
      if Ascii.eqb c0 "."%char && Ascii.eqb c1 "t"%char && Ascii.eqb c2 "i"%char && Ascii.eqb c3 "f"%char
      then String.append new (replace_tif new rest)
      else String.String c0 (replace_tif new s1)
  | String.String c0 s1 => String.String c0 (replace_tif new s1)
  | String.EmptyString => String.EmptyString
  end.

(** What [process_directory_to_geotiff] writes: the style file (the values
    of its palette entries) and the GeoTIFF (same CRS, no reprojection). *)
Inductive output_file :=
| QmlFile (entries : list Z)
| TiffFile (prm : raster_params) (arr : grid).

(** [process_directory_to_geotiff] with [output_vector_file = None] and
    [target_crs] the source CRS: the writes it makes, in order, or [None]
    when it raises. *)
Definition process_directory_to_geotiff (parquet_files : list (option (list row)))
  (output_raster_file : String.string) (search_start search_end : option Z)
  (boundary_gdf : option (Z -> Z -> bool)) : option (list (String.string * output_file)) :=
  match collect_data_from_directory parquet_files search_start search_end boundary_gdf with
  | None => Some []
  | Some gdf =>
      let style_file := replace_tif "_year_colors.qml"%string output_raster_file in
      match create_qgis_style_entries gdf with
      | None => None
      | Some qml =>
          match calculate_raster_parameters_utm gdf with
          | None => None
          | Some prm =>
              match create_raster_array_utm gdf prm with
              | None => None
              | Some arr => Some [(style_file, QmlFile qml); (output_raster_file, TiffFile prm arr)]
              end
          end
      end
  end.

(** The content of [path] after a sequence of writes: the last one wins. *)
Definition file_at (writes : list (String.string * output_file)) (path : String.string)
  : option output_file :=
  fold_left (fun acc w => if String.eqb (fst w) path then Some (snd w) else acc) writes None.

(* ------------------------------------------------------------------ *)
(** ** Extration_S2_2N_observations.py : [carregar_datas],
    [processar_geometrias_otimizado], [reorganizar_colunas] and
    [salvar_parquet] *)

(** [carregar_datas] on the array [np.load(path)]: the entries other than
    [65535], in order, each one through [datetime.fromordinal(int(d))],
    which raises [ValueError] outside [1 .. 3652059] (the ordinals of
    0001-01-01 and 9999-12-31), then [strftime('%Y%m%d')]; a date string is
    represented by its day, as in [processar_pixel]. *)
Definition carregar_datas (datas_ndvi : list Z) : option (list Z) :=
  apply_opt (fun d => if (1 <=? d) && (d <=? 3652059) then Some d else None)
            (filter (fun d => negb (d =? 65535)) datas_ndvi).

(** A row of [gdf_poligonos]: its ['id'], its ['id_gleba'] ([None] when
    the column is absent: then [feature['id_gleba']] in the progress
    [print] raises [KeyError]), the result of [datetime.strptime(feature['data_0'], '%Y%m%d')]
    ([None] when it raises) and [data_1_dt] as set by the [if 'data_1' in
    feature and feature['data_1']] block ([None] when it stays [None]). *)
Record feature := mkFeature {
  fid : Z;
  id_gleba : option Z;
  data_0_dt : option Z;
  data_1_dt : option Z
}.

(** The keys of [linha] set by [processar_geometrias_otimizado] and
    [processar_pixel]: ['x'], ['y'], ['idx_h5'], the keys depending on the
    observations, ['ID'] and ['buffer_ID']. *)
Record linha := mkLinha {
  linha_x : Z;
  linha_y : Z;
  idx_h5 : nat;
  linha_row : pixel_row;
  ID : Z;
  buffer_ID : Z
}.

(** [gdf_poligonos.loc[gdf_poligonos['id'] == label].iloc[0]]: the first
    polygon with that id ([None]: [IndexError]). *)
Definition first_feature (gdf_poligonos : list feature) (label : Z) : option feature :=
  find (fun f => fid f =? label) gdf_poligonos.

(** [valores[:, :, pixel_idx]] for the (time, band, pixel) array
    [valores] ([None]: [IndexError]). *)
Definition pixel_values (valores : list (list (list Z))) (pixel_idx : nat)
  : option (list (list Z)) :=
  apply_opt (fun vt => apply_opt (fun vb => nth_error vb pixel_idx) vt) valores.

(** The ids of [join.groupby('id')], each once, ascending; [join] is the
    result of the spatial join, one [(idx_h5, id)] per pixel lying within
    a polygon, in its order. *)
Definition join_ids (join : list (nat * Z)) : list Z :=
  ZSort.sort (nodup Z.eq_dec (map snd join)).

(** [group['idx_h5']] for the group of [label]. *)
Definition join_group (join : list (nat * Z)) (label : Z) : list nat :=
  map fst (filter (fun j => snd j =? label) join).

(** One iteration of [for label, group in join.groupby('id')]: the rows it
    appends to [resultados], or [None] when it raises. A [linha] returned
    by [processar_pixel] is a non-empty dict, so [if linha:] holds. *)
Definition process_group {A} (gdf_poligonos : list feature) (datas_pixel : list Z)
    (x_coords y_coords : list Z) (valores : list (list (list Z))) (band_names : list A)
    (N_OBS : nat) (join : list (nat * Z)) (label : Z) : option (list linha) :=
  match first_feature gdf_poligonos label with
  | None => None
  | Some feature =>
      match id_gleba feature with
      | None => None
      | Some g =>
          match data_0_dt feature with
          | None => Some []
          | Some d0 =>
              apply_opt
                (fun pixel_idx =>
                   match nth_error x_coords pixel_idx, nth_error y_coords pixel_idx,
                         pixel_values valores pixel_idx with
                   | Some x, Some y, Some pv =>
                       option_map
                         (fun rw => mkLinha x y pixel_idx rw label g)
                         (processar_pixel pv datas_pixel d0 band_names (data_1_dt feature) N_OBS)
                   | _, _, _ => None
                   end)
                (join_group join label)
          end
      end
  end.

Definition processar_geometrias_otimizado {A} (gdf_poligonos : list feature)
    (datas_pixel : list Z) (x_coords y_coords : list Z) (valores : list (list (list Z)))
    (band_names : list A) (N_OBS : nat) (join : list (nat * Z)) : option (list linha) :=
  option_map (@concat linha)
    (apply_opt (process_group gdf_poligonos datas_pixel x_coords y_coords valores band_names N_OBS join)
               (join_ids join)).

Definition colunas_principais : list String.string := ["x"; "y"; "buffer_ID"; "ID"]%string.

(** [c in df.columns] *)
Definition has_col (df : frame) (c : String.string) : bool :=
  existsb (fun col => String.eqb (fst col) c) df.

(** [df[cols]] for a list of names: [KeyError] when one is absent. *)
Definition select_cols (df : frame) (cols : list String.string) : option frame :=
  apply_opt (fun c => option_map (fun v => (c, v)) (df_col df c)) cols.

Definition reorganizar_colunas (df : frame) : option frame :=
  let colunas_presentes := filter (has_col df) colunas_principais in
  let outras_colunas :=
    filter (fun c => negb (existsb (String.eqb c) colunas_presentes)) (map fst df) in
  select_cols df (colunas_presentes ++ outras_colunas).

(** [df.drop(columns=["buffer_ID", "ID"], errors="ignore")]: the frame
    [salvar_parquet] writes. *)
Definition salvar_parquet (df : frame) : frame :=
  filter (fun c => negb (String.eqb (fst c) "buffer_ID" || String.eqb (fst c) "ID")) df.

(* ------------------------------------------------------------------ *)
(** ** gee_download_S2_tile_36_parts.py : [combine_tiffs_to_mosaic] *)

(** What [combine_tiffs_to_mosaic] leaves on disk: the array last written
    to [output_file] ([None]: never written) and whether [input_folder] is
    removed. *)
Record mosaic_outcome := mkOutcome {
  output_content : option image;
  input_removed : bool
}.

(** [combine_tiffs_to_mosaic]: [tiff_files] are the files [glob] finds,
    [mosaic] the array [merge] returns and [clipped] the result of [mask]
    ([None] when it raises [ValueError]). The mosaic is written to
    [output_file] before the clip; each of the three paths after it
    removes [input_folder]. *)
Definition combine_tiffs_to_mosaic {F} (tiff_files : list F) (mosaic : image)
    (clipped : option image) : mosaic_outcome :=
  match tiff_files with
  | [] => mkOutcome None false
  | _ :: _ =>
      match write_clipped clipped with
      | Some out_image => mkOutcome (Some out_image) true
      | None => mkOutcome (Some mosaic) true
      end
  end.

(* ================================================================== *)
(** * Proofs *)

(** ** Break selection *)

Lemma tb_ge_trans : forall a b c,
  tb_ge a b = true -> tb_ge b c = true -> tb_ge a c = true.
Proof.
  intros [x|] [y|] [z|]; simpl; rewrite ?Z.leb_le; try discriminate; auto; lia.
Qed.

Lemma Permuted_insert_desc x l : Permutation (x :: l) (insert_desc x l).
Proof.
  induction l as [|y l IH]; simpl; [reflexivity|].
  destruct (tb_ge (tBreak x) (tBreak y)); [reflexivity|].
  rewrite perm_swap; constructor; exact IH.
Qed.

Lemma Permuted_sort_desc g : Permutation g (sort_desc g).
Proof.
  induction g as [|x g IH]; simpl; [reflexivity|].
  rewrite <- Permuted_insert_desc; constructor; exact IH.
Qed.

Lemma tb_ge_flip a b : tb_ge a b = false -> tb_ge b a = true.
Proof.
  destruct a as [x|], b as [y|]; simpl; rewrite ?Z.leb_le, ?Z.leb_gt; try discriminate; auto; lia.
Qed.

Lemma StronglySorted_insert_desc x l :
  StronglySorted (fun a b => tb_ge (tBreak a) (tBreak b) = true) l ->
  StronglySorted (fun a b => tb_ge (tBreak a) (tBreak b) = true) (insert_desc x l).
Proof.
  induction l as [|y l IH]; simpl; intros Hs.
  - repeat constructor.
  - inversion Hs as [|? ? Hs' Hall]; subst.
    destruct (tb_ge (tBreak x) (tBreak y)) eqn:Hxy.
    + constructor; [exact Hs|].
      constructor; [exact Hxy|].
      eapply Forall_impl; [|exact Hall]; intros c Hc; eapply tb_ge_trans; eauto.
    + constructor; [apply IH, Hs'|].
      apply (Permutation_Forall (Permuted_insert_desc x l)).
      constructor; [apply tb_ge_flip, Hxy|exact Hall].
Qed.

Lemma StronglySorted_sort_desc g :
  StronglySorted (fun a b => tb_ge (tBreak a) (tBreak b) = true) (sort_desc g).
Proof.
  induction g as [|x g IH]; simpl; [constructor|].
  apply StronglySorted_insert_desc, IH.
Qed.

Lemma NoDup_map_inj {A B} (f : A -> B) (l : list A) x y :
  NoDup (map f l) -> In x l -> In y l -> f x = f y -> x = y.
Proof.
  induction l as [|a l IH]; simpl; intros Hnd Hx Hy Hf; [contradiction|].
  inversion Hnd as [|? ? Hnin Hnd']; subst.
  destruct Hx as [<-|Hx], Hy as [<-|Hy]; auto.
  - exfalso; apply Hnin; rewrite Hf; now apply in_map.
  - exfalso; apply Hnin; rewrite <- Hf; now apply in_map.
Qed.

Lemma loc_some g l r : loc g l = Some r -> In r g /\ label r = l.
Proof.
  unfold loc; intros H; apply find_some in H as [Hin Heq].
  split; [exact Hin | now apply Nat.eqb_eq].
Qed.

Lemma loc_label g r : NoDup (map label g) -> In r g -> loc g (label r) = Some r.
Proof.
  intros Hnd Hin; unfold loc.
  destruct (find (fun r' => Nat.eqb (label r') (label r)) g) as [r'|] eqn:Hf.
  - apply find_some in Hf as [Hin' Heq]; apply Nat.eqb_eq in Heq.
    f_equal; exact (NoDup_map_inj label g r' r Hnd Hin' Hin Heq).
  - exfalso; eapply find_none in Hf; [|exact Hin].
    rewrite Nat.eqb_refl in Hf; discriminate.
Qed.

Lemma select_break_in g r : select_break g = FRow r -> In r g.
Proof.
  unfold select_break; intros H.
  destruct g as [|r0 [|r1 g']].
  - discriminate.
  - injection H as <-; now left.
  - destruct (last_opt (nlargest 2 (r0 :: r1 :: g'))) as [r2|]; [|discriminate].
    destruct (loc (r0 :: r1 :: g') (label r2)) as [r3|] eqn:Hl; [|discriminate].
    injection H as <-; now apply loc_some in Hl.
Qed.

Lemma select_break_not_none g : select_break g <> FNone.
Proof.
  unfold select_break; destruct g as [|r0 [|r1 g']].
  - vm_compute; discriminate.
  - discriminate.
  - destruct (last_opt _) as [r2|]; [|discriminate].
    destruct (loc _ _); discriminate.
Qed.

Lemma in_filtered s e g r :
  (s <> None \/ e <> None) ->
  (In r (filter_end e (filter_start s g)) <-> In r g /\ within_bounds s e r).
Proof.
  intros Hse; unfold within_bounds, filter_end, filter_start, ge_start, le_end.
  destruct s as [s'|], e as [e'|]; rewrite ?filter_In.
  - destruct (tBreak r) as [t|]; split.
    + intros [[Hg Hs] He]; split; [exact Hg|]; exists t; split; [reflexivity|].
      apply Z.leb_le in Hs, He; split; intros ? [= <-]; assumption.
    + intros [Hg [t' [[= <-] [Hs He]]]]; rewrite !Z.leb_le; auto.
    + intros [[_ Hs] _]; discriminate.
    + intros [_ [t' [Ht _]]]; discriminate.
  - destruct (tBreak r) as [t|]; split.
    + intros [Hg Hs]; split; [exact Hg|]; exists t; split; [reflexivity|].
      apply Z.leb_le in Hs; split; intros ? H; [now injection H as <-|discriminate].
    + intros [Hg [t' [[= <-] [Hs _]]]]; rewrite Z.leb_le; auto.
    + intros [_ Hs]; discriminate.
    + intros [_ [t' [Ht _]]]; discriminate.
  - destruct (tBreak r) as [t|]; split.
    + intros [Hg He]; split; [exact Hg|]; exists t; split; [reflexivity|].
      apply Z.leb_le in He; split; intros ? H; [discriminate|now injection H as <-].
    + intros [Hg [t' [[= <-] [_ He]]]]; rewrite Z.leb_le; auto.
    + intros [_ He]; discriminate.
    + intros [_ [t' [Ht _]]]; discriminate.
  - destruct Hse as [H|H]; now contradiction H.
Qed.

(** C1: with no date bounds, a one-row group yields that row; a group of
    two or more rows yields the row whose tBreak is second in the
    descending ordering of the group's tBreak values (NaN last, as in
    pandas). The index labels of a group are distinct, as they are for the
    rows of one parquet file. *)
Theorem filter_pixel_group_second_highest (g : list row)
  (Hlab : NoDup (map label g)) :
  (forall r, g = [r] -> filter_pixel_group g None None = FRow r) /\
  ((2 <= length g)%nat -> exists r,
     filter_pixel_group g None None = FRow r /\ second_highest_in g r).
Proof.
  split.
  - intros r ->; reflexivity.
  - intros Hlen; simpl.
    pose proof (Permuted_sort_desc g) as Hperm.
    pose proof (StronglySorted_sort_desc g) as Hss.
    assert (Hlen' : (2 <= length (sort_desc g))%nat)
      by (rewrite <- (Permutation_length Hperm); exact Hlen).
    assert (Hnd' : NoDup (map label (sort_desc g)))
      by (eapply Permutation_NoDup; [apply Permutation_map, Hperm | exact Hlab]).
    unfold select_break, nlargest.
    destruct (sort_desc g) as [|a [|b rest]] eqn:Hs;
      simpl in Hlen'; try lia.
    simpl.
    assert (Hb : In b g) by (apply (Permutation_in _ (Permutation_sym Hperm)); right; left; reflexivity).
    assert (Ha : In a g) by (apply (Permutation_in _ (Permutation_sym Hperm)); left; reflexivity).
    assert (Hres : match g with
                   | [r] => FRow r
                   | _ => match loc g (label b) with Some r => FRow r | None => FError end
                   end = FRow b).
    { rewrite (loc_label g b Hlab Hb).
      destruct g as [|r0 [|r1 g']]; simpl in Hlen; try lia; reflexivity. }
    exists b; split; [exact Hres|].
    inversion Hss as [|? ? Hss1 Hfa]; subst.
    inversion Hss1 as [|? ? Hss2 Hfb]; subst.
    inversion Hnd' as [|? ? Hna Hnd2]; subst.
    inversion Hnd2 as [|? ? Hnb _]; subst.
    split; [exact Hb|].
    exists a; split; [exact Ha|]; split.
    + intros Heq; apply Hna; rewrite Heq; now left.
    + split.
      * rewrite Forall_forall in Hfa; apply (Hfa b); now left.
      * intros k Hk Hkr Hka.
        apply (Permutation_in _ Hperm) in Hk.
        destruct Hk as [<-|[<-|Hk]]; [now contradiction Hka|now contradiction Hkr|].
        rewrite Forall_forall in Hfb; exact (Hfb k Hk).
Qed.

(** C5: [filter_pixel_group] returns [None] exactly when a date bound is
    given and no row of the group has a tBreak within the bounds; a row it
    returns under bounds has its tBreak within them. *)
Theorem filter_pixel_group_none_iff (g : list row) (s e : option Z) :
  (filter_pixel_group g s e = FNone <->
     (s <> None \/ e <> None) /\ forall r, In r g -> ~ within_bounds s e r) /\
  (forall r, filter_pixel_group g s e = FRow r ->
     (s <> None \/ e <> None) -> within_bounds s e r).
Proof.
  assert (Hunf : (s <> None \/ e <> None) ->
            filter_pixel_group g s e =
            match filter_end e (filter_start s g) with
            | [] => FNone | _ => select_break (filter_end e (filter_start s g)) end).
  { intros Hse; unfold filter_pixel_group.
    destruct s, e; try reflexivity. destruct Hse as [H|H]; now contradiction H. }
  split.
  - split.
    + intros H.
      assert (Hse : s <> None \/ e <> None).
      { destruct s, e; try (left; discriminate); try (right; discriminate).
        simpl in H; now apply select_break_not_none in H. }
      split; [exact Hse|]; intros r Hr Hw; rewrite (Hunf Hse) in H.
      destruct (filter_end e (filter_start s g)) as [|f fs] eqn:Hf;
        [|now apply select_break_not_none in H].
      assert (Hin : In r (filter_end e (filter_start s g)))
        by (apply in_filtered; auto).
      rewrite Hf in Hin; contradiction.
    + intros [Hse Hno]; rewrite (Hunf Hse).
      destruct (filter_end e (filter_start s g)) as [|f fs] eqn:Hf; [reflexivity|].
      exfalso; assert (Hin : In f (filter_end e (filter_start s g))) by (rewrite Hf; now left).
      apply (in_filtered s e g f Hse) in Hin as [Hg Hw]; exact (Hno f Hg Hw).
  - intros r H Hse; rewrite (Hunf Hse) in H.
    destruct (filter_end e (filter_start s g)) as [|f fs] eqn:Hf; [discriminate|].
    apply select_break_in in H; rewrite <- Hf in H.
    now apply (in_filtered s e g r Hse) in H as [_ Hw].
Qed.

(** ** Raster parameters and raster cells *)

Lemma fold_min_le l a : forall x, In x (a :: l) -> fold_left Z.min l a <= x.
Proof.
  revert a; induction l as [|b l IH]; simpl; intros a x Hx.
  - destruct Hx as [<-|[]]; lia.
  - assert (Hle : forall y, In y (Z.min a b :: l) -> fold_left Z.min l (Z.min a b) <= y)
      by (intros; apply IH; assumption).
    destruct Hx as [Hx|[Hx|Hx]]; [subst x..|apply Hle; now right];
      specialize (Hle _ (or_introl eq_refl)); lia.
Qed.

Lemma fold_max_ge l a : forall x, In x (a :: l) -> x <= fold_left Z.max l a.
Proof.
  revert a; induction l as [|b l IH]; simpl; intros a x Hx.
  - destruct Hx as [<-|[]]; lia.
  - assert (Hle : forall y, In y (Z.max a b :: l) -> y <= fold_left Z.max l (Z.max a b))
      by (intros; apply IH; assumption).
    destruct Hx as [Hx|[Hx|Hx]]; [subst x..|apply Hle; now right];
      specialize (Hle _ (or_introl eq_refl)); lia.
Qed.

Lemma list_min_le l m x : list_min l = Some m -> In x l -> m <= x.
Proof.
  destruct l as [|a l]; simpl; intros H Hx; [discriminate|].
  injection H as <-; now apply fold_min_le.
Qed.

Lemma list_max_ge l m x : list_max l = Some m -> In x l -> x <= m.
Proof.
  destruct l as [|a l]; simpl; intros H Hx; [discriminate|].
  injection H as <-; now apply fold_max_ge.
Qed.

Lemma np_round_div_nonneg n d : 0 < d -> 0 <= n -> 0 <= np_round_div n d.
Proof.
  intros Hd Hn; unfold np_round_div.
  assert (0 <= n / d) by (apply Z.div_pos; lia).
  destruct (2 * (n mod d) <? d), (d <? 2 * (n mod d)), (Z.even (n / d)); lia.
Qed.

Lemma np_round_div_upper n d : 0 < d -> 2 * d * np_round_div n d <= 2 * n + d.
Proof.
  intros Hd; unfold np_round_div.
  pose proof (Z.div_mod n d ltac:(lia)); pose proof (Z.mod_pos_bound n d Hd).
  destruct (2 * (n mod d) <? d) eqn:E1; [rewrite Z.ltb_lt in E1; nia|].
  rewrite Z.ltb_ge in E1.
  destruct (d <? 2 * (n mod d)) eqn:E2; [rewrite Z.ltb_lt in E2; nia|].
  rewrite Z.ltb_ge in E2.
  destruct (Z.even (n / d)); nia.
Qed.

Lemma ceil_div_ge n d : 0 < d -> n <= d * ceil_div n d.
Proof.
  intros Hd; unfold ceil_div.
  pose proof (Z.div_mod (- n) d ltac:(lia)); pose proof (Z.mod_pos_bound (- n) d Hd).
  nia.
Qed.

(** The cell indices of a point lying between the extreme coordinates of
    the dataset are within the raster. *)
Lemma cell_indices_bounded gdf prm p mnx mxx mny mxy :
  calculate_raster_parameters_utm gdf = Some prm ->
  list_min (map x_coord gdf) = Some mnx -> list_max (map x_coord gdf) = Some mxx ->
  list_min (map y_coord gdf) = Some mny -> list_max (map y_coord gdf) = Some mxy ->
  mnx <= x_coord p <= mxx -> mny <= y_coord p <= mxy ->
  0 <= x_idx prm p < width prm /\ 0 <= y_idx prm p < height prm.
Proof.
  unfold calculate_raster_parameters_utm, x_idx, y_idx.
  intros Hp H1 H2 H3 H4 Hx Hy; rewrite H1, H2, H3, H4 in Hp.
  injection Hp as <-; cbn [width height min_x_corner max_y_corner res_x res_y].
  change (10 / 2) with 5; change (2 * 10) with 20.
  pose proof (np_round_div_nonneg (2 * (x_coord p - (mnx - 5)) - 10) 20 ltac:(lia) ltac:(lia)).
  pose proof (np_round_div_upper (2 * (x_coord p - (mnx - 5)) - 10) 20 ltac:(lia)).
  pose proof (np_round_div_nonneg (2 * (mxy + 5 - y_coord p) - 10) 20 ltac:(lia) ltac:(lia)).
  pose proof (np_round_div_upper (2 * (mxy + 5 - y_coord p) - 10) 20 ltac:(lia)).
  pose proof (ceil_div_ge (mxx + 5 - (mnx - 5)) 10 ltac:(lia)).
  pose proof (ceil_div_ge (mxy + 5 - (mny - 5)) 10 ltac:(lia)).
  lia.
Qed.

Lemma point_cell_in_raster gdf prm p :
  calculate_raster_parameters_utm gdf = Some prm -> In p gdf ->
  in_raster prm (cell_of prm p) = true.
Proof.
  intros Hp Hin.
  destruct (list_min (map x_coord gdf)) as [mnx|] eqn:H1;
    [|unfold calculate_raster_parameters_utm in Hp; rewrite H1 in Hp; discriminate].
  destruct (list_max (map x_coord gdf)) as [mxx|] eqn:H2;
    [|unfold calculate_raster_parameters_utm in Hp; rewrite H1, H2 in Hp;
      destruct (list_min (map y_coord gdf)); discriminate].
  destruct (list_min (map y_coord gdf)) as [mny|] eqn:H3;
    [|unfold calculate_raster_parameters_utm in Hp; rewrite H1, H3 in Hp; discriminate].
  destruct (list_max (map y_coord gdf)) as [mxy|] eqn:H4;
    [|unfold calculate_raster_parameters_utm in Hp; rewrite H1, H2, H3, H4 in Hp; discriminate].
  pose proof (list_min_le _ _ _ H1 (in_map x_coord _ _ Hin)).
  pose proof (list_max_ge _ _ _ H2 (in_map x_coord _ _ Hin)).
  pose proof (list_min_le _ _ _ H3 (in_map y_coord _ _ Hin)).
  pose proof (list_max_ge _ _ _ H4 (in_map y_coord _ _ Hin)).
  destruct (cell_indices_bounded gdf prm p mnx mxx mny mxy Hp H1 H2 H3 H4
              ltac:(lia) ltac:(lia)) as [Hx Hy].
  unfold in_raster, cell_of; simpl.
  rewrite andb_true_iff, andb_true_iff, andb_true_iff, Z.leb_le, Z.leb_le, Z.ltb_lt, Z.ltb_lt.
  lia.
Qed.

(** C6: for a point whose coordinates lie between the minimum and maximum
    coordinates of the dataset, the indices computed with the parameters
    of [calculate_raster_parameters_utm] satisfy [0 <= x_idx < width] and
    [0 <= y_idx < height]. *)
Theorem raster_indices_within_bounds gdf prm p mnx mxx mny mxy
  (Hp : calculate_raster_parameters_utm gdf = Some prm)
  (Hmnx : list_min (map x_coord gdf) = Some mnx)
  (Hmxx : list_max (map x_coord gdf) = Some mxx)
  (Hmny : list_min (map y_coord gdf) = Some mny)
  (Hmxy : list_max (map y_coord gdf) = Some mxy)
  (Hx : mnx <= x_coord p <= mxx) (Hy : mny <= y_coord p <= mxy) :
  0 <= x_idx prm p < width prm /\ 0 <= y_idx prm p < height prm.
Proof.
  exact (cell_indices_bounded gdf prm p mnx mxx mny mxy Hp Hmnx Hmxx Hmny Hmxy Hx Hy).
Qed.

Lemma length_set_nth {A} n (v : A) l : length (set_nth n v l) = length l.
Proof.
  revert n; induction l as [|a l IH]; intros [|n]; simpl; auto.
Qed.

Lemma nth_set_nth_eq {A} n (v d : A) l : (n < length l)%nat -> nth n (set_nth n v l) d = v.
Proof.
  revert n; induction l as [|a l IH]; intros [|n] Hn; simpl in *; try lia; auto.
  apply IH; lia.
Qed.

Lemma nth_set_nth_neq {A} i n (v d : A) l : i <> n -> nth i (set_nth n v l) d = nth i l d.
Proof.
  revert i n; induction l as [|a l IH]; intros [|i] [|n] Hin; simpl; auto;
    try contradiction; apply IH; lia.
Qed.

Lemma Forall_set_nth {A} (P : A -> Prop) n v l :
  Forall P l -> ((n < length l)%nat -> P v) -> Forall P (set_nth n v l).
Proof.
  revert n; induction l as [|a l IH]; intros [|n] Hl Hv; simpl in *; auto.
  - inversion Hl; subst; constructor; [apply Hv; lia|assumption].
  - inversion Hl; subst; constructor; [assumption|apply IH; [assumption|intros; apply Hv; lia]].
Qed.

Lemma grid_dims_set_cell arr h w c v :
  grid_dims arr h w -> grid_dims (set_cell arr c v) h w.
Proof.
  intros [Hh Hw]; unfold set_cell; split.
  - now rewrite length_set_nth.
  - apply Forall_set_nth; [exact Hw|intros Hlt].
    rewrite length_set_nth.
    rewrite Forall_forall in Hw; apply Hw, nth_In, Hlt.
Qed.

Lemma in_raster_bounds prm c :
  in_raster prm c = true ->
  0 <= snd c < width prm /\ 0 <= fst c < height prm.
Proof.
  unfold in_raster; rewrite !andb_true_iff, !Z.leb_le, !Z.ltb_lt; lia.
Qed.

Lemma cell_set_cell_eq prm arr c v :
  grid_dims arr (Z.to_nat (height prm)) (Z.to_nat (width prm)) ->
  in_raster prm c = true -> cell (set_cell arr c v) c = v.
Proof.
  intros [Hh Hw] Hc; apply in_raster_bounds in Hc.
  unfold cell, set_cell.
  assert (Hy : (Z.to_nat (fst c) < length arr)%nat) by (rewrite Hh; lia).
  rewrite nth_set_nth_eq by exact Hy.
  apply nth_set_nth_eq.
  rewrite Forall_forall in Hw; rewrite (Hw _ (nth_In _ _ Hy)); lia.
Qed.

Lemma cell_set_cell_neq prm arr c c' v :
  in_raster prm c = true -> in_raster prm c' = true -> c <> c' ->
  cell (set_cell arr c v) c' = cell arr c'.
Proof.
  intros Hc Hc' Hne; apply in_raster_bounds in Hc, Hc'.
  unfold cell, set_cell.
  destruct (Nat.eq_dec (Z.to_nat (fst c')) (Z.to_nat (fst c))) as [Heq|Hneq].
  - rewrite Heq.
    destruct (Nat.lt_ge_cases (Z.to_nat (fst c)) (length arr)) as [Hlt|Hge].
    + rewrite nth_set_nth_eq by exact Hlt.
      apply nth_set_nth_neq.
      destruct c as [y x], c' as [y' x']; simpl in *.
      intros Hx; apply Hne; f_equal; lia.
    + rewrite (nth_overflow (set_nth _ _ arr)) by (rewrite length_set_nth; exact Hge).
      rewrite (nth_overflow arr) by exact Hge; reflexivity.
  - now rewrite nth_set_nth_neq by exact Hneq.
Qed.

Lemma raster_step_some prm arr r arr' :
  raster_step prm (Some arr) r = Some arr' ->
  arr' = arr \/
  exists t v, tBreak r = Some t /\ break_date_int t = Some v /\
    in_raster prm (cell_of prm r) = true /\ arr' = set_cell arr (cell_of prm r) v.
Proof.
  simpl; destruct (in_raster prm (cell_of prm r)) eqn:Hin; [|intros [= <-]; now left].
  destruct (tBreak r) as [t|]; [|intros [= <-]; now left].
  destruct (break_date_int t) as [v|] eqn:Hv; [|discriminate].
  intros [= <-]; right; now exists t, v.
Qed.

Lemma fold_raster_none prm l : fold_left (raster_step prm) l None = None.
Proof. induction l as [|r l IH]; simpl; auto. Qed.

Lemma fold_raster_dims prm l arr arr' :
  grid_dims arr (Z.to_nat (height prm)) (Z.to_nat (width prm)) ->
  fold_left (raster_step prm) l (Some arr) = Some arr' ->
  grid_dims arr' (Z.to_nat (height prm)) (Z.to_nat (width prm)).
Proof.
  revert arr; induction l as [|q l IH]; cbn [fold_left]; intros arr Hd Hf.
  - now injection Hf as <-.
  - destruct (raster_step prm (Some arr) q) as [a1|] eqn:Hs;
      [|rewrite fold_raster_none in Hf; discriminate].
    apply (IH a1); [|exact Hf].
    destruct (raster_step_some _ _ _ _ Hs) as [->|[t [v [_ [_ [_ ->]]]]]];
      [exact Hd|now apply grid_dims_set_cell].
Qed.

Lemma fold_raster_keep prm l arr arr' c :
  in_raster prm c = true ->
  fold_left (raster_step prm) l (Some arr) = Some arr' ->
  (forall q, In q l -> tBreak q <> None -> cell_of prm q <> c) ->
  cell arr' c = cell arr c.
Proof.
  revert arr; induction l as [|q l IH]; cbn [fold_left]; intros arr Hc Hf Hno.
  - now injection Hf as <-.
  - destruct (raster_step prm (Some arr) q) as [a1|] eqn:Hs;
      [|rewrite fold_raster_none in Hf; discriminate].
    rewrite (IH a1 Hc Hf (fun q' Hq' => Hno q' (or_intror Hq'))).
    destruct (raster_step_some _ _ _ _ Hs) as [->|[t [v [Ht [_ [Hq ->]]]]]]; [reflexivity|].
    apply (cell_set_cell_neq prm); [exact Hq|exact Hc|].
    apply (Hno q (or_introl eq_refl)); rewrite Ht; discriminate.
Qed.

Lemma initial_grid_dims prm :
  grid_dims (repeat (repeat (-9999) (Z.to_nat (width prm))) (Z.to_nat (height prm)))
            (Z.to_nat (height prm)) (Z.to_nat (width prm)).
Proof.
  split; [apply repeat_length|].
  apply Forall_forall; intros rw Hrw; apply repeat_spec in Hrw as ->; apply repeat_length.
Qed.

Lemma initial_grid_cell prm c :
  in_raster prm c = true ->
  cell (repeat (repeat (-9999) (Z.to_nat (width prm))) (Z.to_nat (height prm))) c = -9999.
Proof.
  intros Hc; apply in_raster_bounds in Hc; unfold cell.
  rewrite nth_repeat_lt by lia; apply nth_repeat_lt; lia.
Qed.

(** C3 (as amended): in the raster built by [create_raster_array_utm] with
    the parameters of [calculate_raster_parameters_utm], the cell of a point
    with a non-null tBreak holds that point's break date as YYYYMMDD when no
    later point with a non-null tBreak falls in the same cell (a later one
    overwrites it); every cell in which no point with a non-null tBreak
    falls holds -9999. *)
Theorem create_raster_array_utm_cells gdf prm arr
  (Hp : calculate_raster_parameters_utm gdf = Some prm)
  (Ha : create_raster_array_utm gdf prm = Some arr) :
  (forall l1 r l2 t v, gdf = l1 ++ r :: l2 -> tBreak r = Some t ->
     break_date_int t = Some v ->
     (forall q, In q l2 -> tBreak q <> None -> cell_of prm q <> cell_of prm r) ->
     cell arr (cell_of prm r) = v) /\
  (forall c, in_raster prm c = true ->
     (forall q, In q gdf -> tBreak q <> None -> cell_of prm q <> c) ->
     cell arr c = -9999).
Proof.
  unfold create_raster_array_utm in Ha; split.
  - intros l1 r l2 t v Hg Ht Hv Hlater.
    assert (Hr : in_raster prm (cell_of prm r) = true)
      by (apply (point_cell_in_raster gdf); [exact Hp|rewrite Hg; apply in_elt]).
    rewrite Hg, fold_left_app in Ha; cbn [fold_left] in Ha.
    destruct (fold_left (raster_step prm) l1 _) as [a1|] eqn:H1;
      [|rewrite fold_raster_none in Ha; discriminate].
    pose proof (fold_raster_dims prm l1 _ a1 (initial_grid_dims prm) H1) as Hd1.
    assert (Hs : raster_step prm (Some a1) r = Some (set_cell a1 (cell_of prm r) v))
      by (simpl; rewrite Hr, Ht, Hv; reflexivity).
    rewrite Hs in Ha.
    rewrite (fold_raster_keep prm l2 _ arr (cell_of prm r) Hr Ha Hlater).
    exact (cell_set_cell_eq prm a1 (cell_of prm r) v Hd1 Hr).
  - intros c Hc Hno.
    rewrite (fold_raster_keep prm gdf _ arr c Hc Ha Hno).
    now apply initial_grid_cell.
Qed.

(** C3 as stated fails: two selected points with the same coordinates (the
    same pixel selected in two parquet files) fall in one cell, which keeps
    only the later date. *)
Lemma create_raster_array_utm_overwrite_cex :
  ~ (forall prm arr,
       let gdf := [mkRow 0 500005 4000005 (Some 0); mkRow 0 500005 4000005 (Some 86400000)] in
       calculate_raster_parameters_utm gdf = Some prm ->
       create_raster_array_utm gdf prm = Some arr ->
       forall r t v, In r gdf -> tBreak r = Some t -> break_date_int t = Some v ->
         cell arr (cell_of prm r) = v).
Proof.
  intros H.
  specialize (H _ _ eq_refl eq_refl (mkRow 0 500005 4000005 (Some 0)) 0 19700101
                (or_introl eq_refl) eq_refl eq_refl).
  vm_compute in H; discriminate.
Qed.

(** ** Dates and the QGIS palette *)

Lemma doy_bounds doe : 0 <= doe < 146097 ->
  0 <= doe - (365 * ((doe - doe / 1460 + doe / 36524 - doe / 146096) / 365)
              + (doe - doe / 1460 + doe / 36524 - doe / 146096) / 365 / 4
              - (doe - doe / 1460 + doe / 36524 - doe / 146096) / 365 / 100) <= 365.
Proof.
  intros H.
  pose proof (Z.div_mod doe 1460 ltac:(lia)); pose proof (Z.mod_pos_bound doe 1460 ltac:(lia)).
  pose proof (Z.div_mod doe 36524 ltac:(lia)); pose proof (Z.mod_pos_bound doe 36524 ltac:(lia)).
  pose proof (Z.div_mod doe 146096 ltac:(lia)); pose proof (Z.mod_pos_bound doe 146096 ltac:(lia)).
  set (a := doe / 1460) in *; set (b := doe / 36524) in *; set (c := doe / 146096) in *.
  set (w := doe - a + b - c).
  pose proof (Z.div_mod w 365 ltac:(lia)); pose proof (Z.mod_pos_bound w 365 ltac:(lia)).
  set (yoe := w / 365) in *.
  pose proof (Z.div_mod yoe 4 ltac:(lia)); pose proof (Z.mod_pos_bound yoe 4 ltac:(lia)).
  pose proof (Z.div_mod yoe 100 ltac:(lia)); pose proof (Z.mod_pos_bound yoe 100 ltac:(lia)).
  set (e := yoe / 4) in *; set (f := yoe / 100) in *.
  lia.
Qed.

Lemma month_day_bounds doy : 0 <= doy <= 365 ->
  1 <= (if (5 * doy + 2) / 153 <? 10 then (5 * doy + 2) / 153 + 3
        else (5 * doy + 2) / 153 - 9) <= 12 /\
  1 <= doy - (153 * ((5 * doy + 2) / 153) + 2) / 5 + 1 <= 31.
Proof.
  intros H.
  pose proof (Z.div_mod (5 * doy + 2) 153 ltac:(lia));
    pose proof (Z.mod_pos_bound (5 * doy + 2) 153 ltac:(lia)).
  set (mp := (5 * doy + 2) / 153) in *.
  pose proof (Z.div_mod (153 * mp + 2) 5 ltac:(lia));
    pose proof (Z.mod_pos_bound (153 * mp + 2) 5 ltac:(lia)).
  set (q := (153 * mp + 2) / 5) in *.
  destruct (mp <? 10) eqn:E; [apply Z.ltb_lt in E|apply Z.ltb_ge in E]; lia.
Qed.

Lemma civil_from_days_bounds days y m d :
  civil_from_days days = (y, m, d) -> 1 <= m <= 12 /\ 1 <= d <= 31.
Proof.
  unfold civil_from_days; intros Hc.
  set (z := days + 719468) in Hc.
  pose proof (Z.div_mod z 146097 ltac:(lia)); pose proof (Z.mod_pos_bound z 146097 ltac:(lia)).
  set (doe := z - z / 146097 * 146097) in Hc.
  assert (Hdoe : 0 <= doe < 146097) by (unfold doe; lia).
  pose proof (doy_bounds doe Hdoe) as Hdoy.
  set (doy := doe - (365 * ((doe - doe / 1460 + doe / 36524 - doe / 146096) / 365)
              + (doe - doe / 1460 + doe / 36524 - doe / 146096) / 365 / 4
              - (doe - doe / 1460 + doe / 36524 - doe / 146096) / 365 / 100)) in Hc, Hdoy.
  pose proof (month_day_bounds doy Hdoy) as Hmd.
  injection Hc as _ <- <-; exact Hmd.
Qed.

Lemma yyyymmdd_year y m d :
  1 <= m <= 12 -> 1 <= d <= 31 -> yyyymmdd (y, m, d) / 10000 = y.
Proof.
  intros Hm Hd; unfold yyyymmdd.
  symmetry; apply Z.div_unique with (m * 100 + d); lia.
Qed.

Lemma to_datetime_ms_year t y m d :
  to_datetime_ms t = Some (y, m, d) -> yyyymmdd (y, m, d) / 10000 = y.
Proof.
  unfold to_datetime_ms; destruct (_ && _); [|discriminate].
  intros H; assert (Hc : civil_from_days (t / ms_per_day) = (y, m, d)) by congruence.
  destruct (civil_from_days_bounds _ _ _ _ Hc); now apply yyyymmdd_year.
Qed.

Lemma dict_get_append k v d k' x :
  In x (dict_get k' (dict_append k v d)) <-> In x (dict_get k' d) \/ (k' = k /\ x = v).
Proof.
  unfold dict_get; induction d as [|[k0 vs] d IH]; simpl.
  - destruct (Z.eqb_spec k' k) as [->|Hne]; simpl; intuition congruence.
  - destruct (Z.eqb_spec k k0) as [->|Hne]; simpl.
    + destruct (Z.eqb_spec k' k0) as [->|Hne']; simpl.
      * rewrite in_app_iff; simpl; intuition congruence.
      * intuition congruence.
    + destruct (Z.eqb_spec k' k0) as [->|Hne']; simpl.
      * intuition congruence.
      * exact IH.
Qed.

Lemma keys_append k v d k' :
  In k' (map fst (dict_append k v d)) <-> In k' (map fst d) \/ k' = k.
Proof.
  induction d as [|[k0 vs] d IH]; simpl; [intuition congruence|].
  destruct (Z.eqb_spec k k0) as [->|Hne]; simpl; [intuition congruence|].
  rewrite IH; intuition congruence.
Qed.

Lemma keys_append_nodup k v d : NoDup (map fst d) -> NoDup (map fst (dict_append k v d)).
Proof.
  induction d as [|[k0 vs] d IH]; simpl; intros Hnd.
  - constructor; [intros []|constructor].
  - inversion Hnd as [|? ? Hn Hnd']; subst.
    destruct (Z.eqb_spec k k0) as [->|Hne]; simpl; constructor; auto.
    rewrite keys_append; intuition congruence.
Qed.

Lemma group_get dates d0 k x :
  In x (dict_get k (fold_left add_date dates d0)) <->
  In x (dict_get k d0) \/
  exists y m dd, In (y, m, dd) dates /\ y = k /\ yyyymmdd (y, m, dd) = x.
Proof.
  revert d0; induction dates as [|[[y m] dd] dates IH]; intros d0; cbn [fold_left In].
  - split; [now left|intros [H|[? [? [? [[] _]]]]]; exact H].
  - rewrite IH; unfold add_date; rewrite dict_get_append.
    split.
    + intros [[H|[Hk Hx]]|[y' [m' [d' [Hin [Hk Hx]]]]]]; [now left| |].
      * right; exists y, m, dd; subst; auto.
      * right; exists y', m', d'; subst; auto.
    + intros [H|[y' [m' [d' [[Heq|Hin] [Hk Hx]]]]]]; [now left; left| |].
      * injection Heq as <- <- <-; left; right; subst; intuition.
      * right; exists y', m', d'; subst; auto.
Qed.

Lemma group_keys dates d0 k :
  In k (map fst (fold_left add_date dates d0)) <->
  In k (map fst d0) \/ exists y m dd, In (y, m, dd) dates /\ y = k.
Proof.
  revert d0; induction dates as [|[[y m] dd] dates IH]; intros d0; cbn [fold_left In].
  - split; [now left|intros [H|[? [? [? [[] _]]]]]; exact H].
  - rewrite IH; unfold add_date; rewrite keys_append.
    split.
    + intros [[H|Hk]|[y' [m' [d' [Hin Hk]]]]]; [now left| |].
      * right; exists y, m, dd; subst; auto.
      * right; exists y', m', d'; subst; auto.
    + intros [H|[y' [m' [d' [[Heq|Hin] Hk]]]]]; [now left; left| |].
      * injection Heq as <- <- <-; left; right; subst; intuition.
      * right; exists y', m', d'; subst; auto.
Qed.

Lemma group_keys_nodup dates d0 :
  NoDup (map fst d0) -> NoDup (map fst (fold_left add_date dates d0)).
Proof.
  revert d0; induction dates as [|[[y m] dd] dates IH]; intros d0 Hnd; simpl; auto.
  apply IH; unfold add_date; now apply keys_append_nodup.
Qed.

Lemma apply_opt_in {A B} (f : A -> option B) l bs b :
  apply_opt f l = Some bs -> In b bs <-> exists a, In a l /\ f a = Some b.
Proof.
  revert bs; induction l as [|a l IH]; simpl; intros bs H.
  - injection H as <-; simpl; split; [intros []|intros [? [[] _]]].
  - destruct (f a) as [b'|] eqn:Hf, (apply_opt f l) as [bs'|]; try discriminate.
    injection H as <-; simpl; rewrite (IH bs' eq_refl); split.
    + intros [<-|[a' [Hin Ha']]]; [exists a; auto|exists a'; auto].
    + intros [a' [[<-|Hin] Ha']]; [left; congruence|right; exists a'; auto].
Qed.

Lemma StronglySorted_app {A} (R : A -> A -> Prop) l1 l2 :
  StronglySorted R l1 -> StronglySorted R l2 ->
  (forall a b, In a l1 -> In b l2 -> R a b) -> StronglySorted R (l1 ++ l2).
Proof.
  induction l1 as [|a l1 IH]; simpl; intros H1 H2 H12; auto.
  inversion H1 as [|? ? Hs Hf]; subst; constructor.
  - apply IH; auto.
  - apply Forall_app; split; [exact Hf|].
    apply Forall_forall; intros b Hb; apply H12; auto.
Qed.

Lemma StronglySorted_weaken {A} (R S : A -> A -> Prop) l :
  (forall a b, In a l -> In b l -> R a b -> S a b) ->
  StronglySorted R l -> StronglySorted S l.
Proof.
  induction l as [|a l IH]; intros HRS H; constructor; inversion H as [|? ? Hs Hf]; subst.
  - apply IH; auto. intros x y Hx Hy; apply HRS; now right.
  - rewrite Forall_forall in *; intros b Hb; apply HRS; [now left|now right|auto].
Qed.

Lemma zsort_strict l : NoDup l -> StronglySorted Z.lt (ZSort.sort l).
Proof.
  intros Hnd.
  assert (Htr : Transitive (fun a b => is_true (ZAsc.leb a b)))
    by (intros a b c; unfold ZAsc.leb, is_true; rewrite !Z.leb_le; lia).
  pose proof (ZSort.StronglySorted_sort l Htr) as Hs.
  pose proof (Permutation_NoDup (ZSort.Permuted_sort l) Hnd) as Hnd'.
  clear Hnd; induction (ZSort.sort l) as [|a l' IH]; constructor;
    inversion Hs as [|? ? Hs' Hf]; inversion Hnd' as [|? ? Hn Hnd'']; subst; auto.
  rewrite Forall_forall in *; intros b Hb.
  specialize (Hf b Hb); unfold ZAsc.leb, is_true in Hf; apply Z.leb_le in Hf.
  destruct (Z.eq_dec a b) as [->|]; [contradiction|lia].
Qed.

Lemma flat_map_blocks_sorted (f : Z -> list Z) ys :
  StronglySorted Z.lt ys ->
  (forall y, In y ys -> StronglySorted Z.lt (f y)) ->
  (forall y v, In y ys -> In v (f y) -> v / 10000 = y) ->
  StronglySorted Z.lt (flat_map f ys).
Proof.
  induction ys as [|y ys IH]; simpl; intros Hs Hf Hk; [constructor|].
  inversion Hs as [|? ? Hs' Hlt]; subst.
  apply StronglySorted_app.
  - apply Hf; now left.
  - apply IH; auto.
  - intros a b Ha Hb; apply in_flat_map in Hb as [y' [Hy' Hb]].
    rewrite Forall_forall in Hlt; specialize (Hlt y' Hy').
    pose proof (Hk y a (or_introl eq_refl) Ha).
    pose proof (Hk y' b (or_intror Hy') Hb).
    destruct (Z.lt_ge_cases a b) as [|Hge]; [assumption|].
    apply (Z.div_le_mono _ _ 10000) in Hge; lia.
Qed.

Lemma valid_dates_in gdf dates date :
  valid_dates gdf = Some dates ->
  In date dates <-> exists r t, In r gdf /\ tBreak r = Some t /\ to_datetime_ms t = Some date.
Proof.
  unfold valid_dates; intros Hv; rewrite (apply_opt_in _ _ _ _ Hv); split.
  - intros [t [Ht Hd]]; apply in_flat_map in Ht as [r [Hr Ht]].
    destruct (tBreak r) as [t'|] eqn:Hb; [|contradiction].
    destruct Ht as [<-|[]]; exists r, t'; auto.
  - intros [r [t [Hr [Ht Hd]]]]; exists t; split; [|exact Hd].
    apply in_flat_map; exists r; rewrite Ht; split; [exact Hr|now left].
Qed.

(** C7: when the data has at least one non-null tBreak (and every date
    converts), the palette is one entry per distinct break date, its value
    the date as YYYYMMDD, ordered by year (the value's leading digits) and
    within a year by date, followed by the nodata entry -9999. *)
Theorem create_qgis_style_entries_palette gdf es
  (Hnn : exists r t, In r gdf /\ tBreak r = Some t)
  (Hes : create_qgis_style_entries gdf = Some es) :
  exists l, es = l ++ [-9999] /\
    StronglySorted (fun a b => a / 10000 < b / 10000 \/ (a / 10000 = b / 10000 /\ a < b)) l /\
    (forall v, In v l <->
       exists r t y m d, In r gdf /\ tBreak r = Some t /\
         to_datetime_ms t = Some (y, m, d) /\ v = yyyymmdd (y, m, d) /\ v / 10000 = y).
Proof.
  unfold create_qgis_style_entries in Hes.
  destruct (valid_dates gdf) as [dates|] eqn:Hv; [|discriminate].
  injection Hes as <-.
  set (D := group_dates_by_year dates).
  set (f := fun year => ZSort.sort (nodup Z.eq_dec (dict_get year D))).
  assert (Hmem : forall year v, In v (f year) <->
            exists y m dd, In (y, m, dd) dates /\ y = year /\ yyyymmdd (y, m, dd) = v).
  { intros year v; unfold f.
    split; intros H.
    - apply (Permutation_in _ (Permutation_sym (ZSort.Permuted_sort _))), nodup_In in H.
      unfold D, group_dates_by_year in H; apply group_get in H as [[]|H]; exact H.
    - apply (Permutation_in _ (ZSort.Permuted_sort _)), nodup_In.
      unfold D, group_dates_by_year; apply group_get; now right. }
  assert (Hblock : forall year v, In v (f year) -> v / 10000 = year).
  { intros year v Hv'; apply Hmem in Hv' as [y [m [dd [Hin [<- <-]]]]].
    apply (valid_dates_in _ _ _ Hv) in Hin as [r [t [_ [_ Ht]]]].
    exact (to_datetime_ms_year _ _ _ _ Ht). }
  exists (flat_map f (ZSort.sort (map fst D))); split; [reflexivity|split].
  - apply (StronglySorted_weaken Z.lt).
    + intros a b _ _ Hab.
      pose proof (Z.div_le_mono a b 10000 ltac:(lia) ltac:(lia)); lia.
    + apply flat_map_blocks_sorted.
      * apply zsort_strict, group_keys_nodup; constructor.
      * intros y _; apply zsort_strict, NoDup_nodup.
      * intros y v _ Hv'; exact (Hblock y v Hv').
  - intros v; rewrite in_flat_map; split.
    + intros [year [_ Hin]].
      pose proof (Hblock year v Hin) as Hyr.
      apply Hmem in Hin as [y [m [dd [Hin [<- <-]]]]].
      apply (valid_dates_in _ _ _ Hv) in Hin as [r [t [Hr [Ht Hd]]]].
      exists r, t, y, m, dd; repeat split; auto.
    + intros [r [t [y [m [dd [Hr [Ht [Hd [-> Hyr]]]]]]]]].
      assert (Hin : In (y, m, dd) dates)
        by (apply (valid_dates_in _ _ _ Hv); exists r, t; auto).
      exists y; split.
      * apply (Permutation_in _ (ZSort.Permuted_sort _)).
        unfold D, group_dates_by_year; apply group_keys; right; exists y, m, dd; auto.
      * apply Hmem; exists y, m, dd; auto.
Qed.

(** ** Mosaic nodata *)

Lemma assign_nodata_pixel img i j :
  pixel (assign_nodata img (mask_nodata_of img)) i j =
  option_map (fun pv => if all_true_eq 0 pv
                        then map (fun _ => mkElem NODATA false) pv else pv)
             (pixel img i j).
Proof.
  unfold assign_nodata, mask_nodata_of, pixel.
  revert i; induction img as [|rw img IH]; intros [|i]; simpl; auto.
  clear IH; revert j; induction rw as [|pv rw IHr]; intros [|j]; simpl; auto.
Qed.

(** C2: in the clipped mosaic that is written, every pixel whose bands all
    hold 0 is set to NODATA (65535) in every band, and every pixel with at
    least one nonzero band keeps its clipped values. A band element "holds"
    a value when it is not masked. *)
Theorem write_clipped_nodata clipped w
  (Hw : write_clipped clipped = Some w) :
  exists out_image, clipped = Some out_image /\
    forall i j pv, pixel out_image i j = Some pv ->
      (Forall (fun e => masked e = false /\ data e = 0) pv ->
         pixel w i j = Some (map (fun _ => mkElem NODATA false) pv)) /\
      (Exists (fun e => masked e = false /\ data e <> 0) pv ->
         pixel w i j = Some pv).
Proof.
  unfold write_clipped in Hw.
  destruct clipped as [out_image|]; [|discriminate].
  destruct (all_nodata_truthy out_image); [discriminate|].
  injection Hw as <-.
  exists out_image; split; [reflexivity|].
  intros i j pv Hp; rewrite assign_nodata_pixel, Hp; simpl; split.
  - intros Hz.
    assert (Hall : all_true_eq 0 pv = true).
    { unfold all_true_eq; apply forallb_forall; intros e He.
      rewrite Forall_forall in Hz; destruct (Hz e He) as [-> ->]; reflexivity. }
    now rewrite Hall.
  - intros Hnz.
    assert (Hall : all_true_eq 0 pv = false).
    { apply Exists_exists in Hnz as [e [He [Hm Hd]]].
      destruct (all_true_eq 0 pv) eqn:Ha; [|reflexivity].
      unfold all_true_eq in Ha; rewrite forallb_forall in Ha.
      specialize (Ha e He); rewrite Hm, Z.eqb_eq in Ha; contradiction. }
    now rewrite Hall.
Qed.

(** ** Observation window *)

Lemma permutation_filter {A} (f : A -> bool) l l' :
  Permutation l l' -> Permutation (filter f l) (filter f l').
Proof.
  induction 1; simpl; auto.
  - destruct (f x); auto.
  - destruct (f x), (f y); auto; apply perm_swap.
  - eapply perm_trans; eauto.
Qed.

Lemma StronglySorted_app_inv {A} (R : A -> A -> Prop) l1 l2 :
  StronglySorted R (l1 ++ l2) -> forall a b, In a l1 -> In b l2 -> R a b.
Proof.
  induction l1 as [|x l1 IH]; simpl; intros Hs a b Ha Hb; [contradiction|].
  inversion Hs as [|? ? Hs' Hf]; subst.
  destruct Ha as [<-|Ha].
  - rewrite Forall_forall in Hf; apply Hf, in_or_app; auto.
  - eapply IH; eauto.
Qed.

Lemma StronglySorted_map {A B} (R : A -> A -> Prop) (S : B -> B -> Prop) (f : A -> B) l :
  (forall a b, R a b -> S (f a) (f b)) -> StronglySorted R l -> StronglySorted S (map f l).
Proof.
  intros HRS; induction 1 as [|a l Hs IH Hf]; simpl; constructor; auto.
  apply Forall_map; eapply Forall_impl; [|exact Hf]; auto.
Qed.

Lemma in_firstn {A} (x : A) n l : In x (firstn n l) -> In x l.
Proof. intros H; rewrite <- (firstn_skipn n l); apply in_or_app; auto. Qed.

Lemma StronglySorted_firstn {A} (R : A -> A -> Prop) n l :
  StronglySorted R l -> StronglySorted R (firstn n l).
Proof.
  revert l; induction n as [|n IH]; intros [|a l] Hs; simpl; [constructor ..|].
  inversion Hs as [|? ? Hs' Hf]; subst; constructor; auto.
  rewrite Forall_forall in *; intros b Hb; apply Hf; eapply in_firstn; eauto.
Qed.

Lemma obs_asc_transitive : Transitive (fun a b => is_true (ObsAsc.leb a b)).
Proof. intros a b c; unfold ObsAsc.leb, is_true; rewrite !Z.leb_le; lia. Qed.

Lemma obs_desc_transitive : Transitive (fun a b => is_true (ObsDesc.leb a b)).
Proof. intros a b c; unfold ObsDesc.leb, is_true; rewrite !Z.leb_le; lia. Qed.

Lemma zsort_sorted l : Sorted Z.le (ZSort.sort l).
Proof.
  assert (Htr : Transitive (fun a b => is_true (ZAsc.leb a b)))
    by (intros a b c; unfold ZAsc.leb, is_true; rewrite !Z.leb_le; lia).
  apply StronglySorted_Sorted.
  pose proof (ZSort.StronglySorted_sort l Htr) as Hs.
  induction Hs as [|a l' Hs IH Hf]; constructor; auto.
  eapply Forall_impl; [|exact Hf]; intros b; unfold ZAsc.leb, is_true; apply Z.leb_le.
Qed.

Lemma apply_opt_length {A B} (f : A -> option B) l bs :
  apply_opt f l = Some bs -> length bs = length l.
Proof.
  revert bs; induction l as [|a l IH]; simpl; intros bs H.
  - now injection H as <-.
  - destruct (f a), (apply_opt f l) as [bs'|] eqn:E; try discriminate.
    injection H as <-; simpl; f_equal; auto.
Qed.

(** The nearest [n] entries at or before [t] of a frame, as computed with
    a descending sort and [head]. *)
Lemma window_before (vs : list obs) (t : Z) (n : nat) :
  let antes := firstn n (ObsSortDesc.sort
                 (filter (fun o => fst o <=? t) (ObsSortAsc.sort vs))) in
  let before := map fst (filter (fun o => fst o <=? t) vs) in
  Sorted Z.le (ZSort.sort (map fst antes)) /\
  length (ZSort.sort (map fst antes)) = Nat.min n (length before) /\
  (exists rest, Permutation before (ZSort.sort (map fst antes) ++ rest) /\
     forall a b, In a rest -> In b (ZSort.sort (map fst antes)) -> a <= b).
Proof.
  intros antes before.
  set (P := filter (fun o => fst o <=? t) (ObsSortAsc.sort vs)).
  set (S := ObsSortDesc.sort P).
  assert (HPb : Permutation before (map fst S)).
  { unfold before, S; apply Permutation_map.
    eapply perm_trans; [|apply ObsSortDesc.Permuted_sort].
    unfold P; apply permutation_filter, ObsSortAsc.Permuted_sort. }
  pose proof (ZSort.Permuted_sort (map fst antes)) as Hz.
  split; [apply zsort_sorted|split].
  - rewrite <- (Permutation_length Hz), length_map; unfold antes.
    fold P; fold S; rewrite length_firstn, (Permutation_length HPb), length_map; reflexivity.
  - exists (map fst (skipn n S)); split.
    + eapply perm_trans; [exact HPb|].
      replace (map fst S) with (map fst antes ++ map fst (skipn n S))
        by (rewrite <- map_app; unfold antes; fold P; fold S; apply f_equal, firstn_skipn).
      apply Permutation_app_tail; exact Hz.
    + intros a b Ha Hb.
      apply (Permutation_in _ (Permutation_sym Hz)) in Hb.
      apply in_map_iff in Ha as [oa [<- Ha]]; apply in_map_iff in Hb as [ob [<- Hb]].
      pose proof (ObsSortDesc.StronglySorted_sort P obs_desc_transitive) as Hs.
      fold S in Hs; rewrite <- (firstn_skipn n S) in Hs.
      pose proof (StronglySorted_app_inv _ _ _ Hs ob oa Hb Ha) as Hr.
      unfold ObsDesc.leb, is_true in Hr; apply Z.leb_le in Hr; exact Hr.
Qed.

(** The nearest [n] entries strictly after [t], as computed with an
    ascending sort and [head]. *)
Lemma window_after (vs : list obs) (t : Z) (n : nat) :
  let depois := firstn n (ObsSortAsc.sort
                  (filter (fun o => t <? fst o) (ObsSortAsc.sort vs))) in
  let after := map fst (filter (fun o => t <? fst o) vs) in
  Sorted Z.le (map fst depois) /\
  length (map fst depois) = Nat.min n (length after) /\
  (exists rest, Permutation after (map fst depois ++ rest) /\
     forall a b, In a rest -> In b (map fst depois) -> b <= a).
Proof.
  intros depois after.
  set (P := filter (fun o => t <? fst o) (ObsSortAsc.sort vs)).
  set (S := ObsSortAsc.sort P).
  assert (HPb : Permutation after (map fst S)).
  { unfold after, S; apply Permutation_map.
    eapply perm_trans; [|apply ObsSortAsc.Permuted_sort].
    unfold P; apply permutation_filter, ObsSortAsc.Permuted_sort. }
  pose proof (ObsSortAsc.StronglySorted_sort P obs_asc_transitive) as Hs.
  fold S in Hs.
  split; [|split].
  - apply StronglySorted_Sorted; unfold depois; fold P; fold S.
    apply (StronglySorted_map (fun a b => is_true (ObsAsc.leb a b))).
    + intros a b; unfold ObsAsc.leb, is_true; apply Z.leb_le.
    + apply StronglySorted_firstn; exact Hs.
  - rewrite length_map; unfold depois; fold P; fold S.
    rewrite length_firstn, (Permutation_length HPb), length_map; reflexivity.
  - exists (map fst (skipn n S)); split.
    + unfold depois; fold P; fold S; rewrite <- map_app, firstn_skipn; exact HPb.
    + intros a b Ha Hb.
      apply in_map_iff in Ha as [oa [<- Ha]]; apply in_map_iff in Hb as [ob [<- Hb]].
      rewrite <- (firstn_skipn n S) in Hs.
      pose proof (StronglySorted_app_inv _ _ _ Hs ob oa Hb Ha) as Hr.
      unfold ObsAsc.leb, is_true in Hr; apply Z.leb_le in Hr; exact Hr.
Qed.

Lemma in_query_valid v (l : list obs) : In v (map snd (query_valid l)) -> v <> 65535.
Proof.
  intros Hv; apply in_map_iff in Hv as [o [<- Ho]].
  unfold query_valid in Ho; apply filter_In in Ho as [_ Ho].
  intros Heq; rewrite Heq in Ho; discriminate.
Qed.

Lemma band_lists_bounds datas pixel_vals t n b la ld :
  band_lists datas pixel_vals t n b = Some (la, ld) ->
  (length la <= n)%nat /\ ~ In 65535 la /\ (length ld <= n)%nat /\ ~ In 65535 ld.
Proof.
  unfold band_lists; destruct (make_frame _ _) as [df|]; [|discriminate].
  intros H; injection H as <- <-.
  set (V := ObsSortAsc.sort (query_valid df)).
  assert (HV : forall o, In o V -> In o (query_valid df)).
  { intros o Ho; apply (Permutation_in _ (Permutation_sym (ObsSortAsc.Permuted_sort _))); exact Ho. }
  assert (Hval : forall l, (forall o, In o l -> In o V) -> ~ In 65535 (map snd l)).
  { intros l Hl Hin; apply in_map_iff in Hin as [o [Ho Hin]].
    apply (in_query_valid 65535 df); [|reflexivity].
    apply in_map_iff; exists o; auto. }
  repeat split.
  - rewrite length_map, <- (Permutation_length (ObsSortAsc.Permuted_sort _)), length_firstn; lia.
  - apply Hval; intros o Ho.
    apply (Permutation_in _ (Permutation_sym (ObsSortAsc.Permuted_sort _))) in Ho.
    apply in_firstn in Ho.
    apply (Permutation_in _ (Permutation_sym (ObsSortDesc.Permuted_sort _))) in Ho.
    apply filter_In in Ho; tauto.
  - rewrite length_map, length_firstn; lia.
  - apply Hval; intros o Ho.
    apply in_firstn in Ho.
    apply (Permutation_in _ (Permutation_sym (ObsSortAsc.Permuted_sort _))) in Ho.
    apply filter_In in Ho; tauto.
Qed.

Lemma sort_query_valid_nil (df : list obs) :
  ObsSortAsc.sort (query_valid df) = [] -> query_valid df = [].
Proof.
  intros H; pose proof (ObsSortAsc.Permuted_sort (query_valid df)) as Hp.
  rewrite H in Hp; apply Permutation_nil, Permutation_sym; exact Hp.
Qed.

(** C4: [processar_pixel] returns [data_mid] equal to [data_0] when
    [data_1] is absent or equal to [data_0] and to [data_0] plus half (floor
    division) of the days from [data_0] to [data_1] otherwise; [dts_a] is in
    ascending order and holds the [min N_OBS k] latest of the [k] valid
    (band 0 different from 65535) observation dates at or before the target
    date, every one left out being no later than the ones kept; [dts_d] is
    in ascending order and holds the [min N_OBS k] earliest of the [k]
    valid dates strictly after it, every one left out being no earlier than
    the ones kept; every band list holds at most [N_OBS] values, none of
    them 65535. *)
Theorem processar_pixel_window {A} pixel_vals datas_pixel data_0 (band_names : list A)
  data_1 N_OBS rw
  (H : processar_pixel pixel_vals datas_pixel data_0 band_names data_1 N_OBS = Some rw) :
  data_mid rw = match data_1 with
                | Some d1 => if d1 =? data_0 then data_0 else data_0 + (d1 - data_0) / 2
                | None => data_0
                end /\
  exists vals0, column pixel_vals 0 = Some vals0 /\ length vals0 = length datas_pixel /\
    let valid := filter (fun o => negb (snd o =? 65535)) (combine datas_pixel vals0) in
    let before := map fst (filter (fun o => fst o <=? data_mid rw) valid) in
    let after := map fst (filter (fun o => data_mid rw <? fst o) valid) in
    (Sorted Z.le (dts_a rw) /\ length (dts_a rw) = Nat.min N_OBS (length before) /\
     exists rest, Permutation before (dts_a rw ++ rest) /\
       forall a b, In a rest -> In b (dts_a rw) -> a <= b) /\
    (Sorted Z.le (dts_d rw) /\ length (dts_d rw) = Nat.min N_OBS (length after) /\
     exists rest, Permutation after (dts_d rw ++ rest) /\
       forall a b, In a rest -> In b (dts_d rw) -> b <= a) /\
    length (band_a rw) = length band_names /\ length (band_d rw) = length band_names /\
    Forall (fun l => (length l <= N_OBS)%nat /\ ~ In 65535 l) (band_a rw ++ band_d rw).
Proof.
  unfold processar_pixel in H.
  destruct (column pixel_vals 0) as [vals0|] eqn:Hc; [|discriminate].
  unfold make_frame in H at 1.
  destruct (Nat.eqb (length datas_pixel) (length vals0)) eqn:Hl; [|discriminate].
  apply Nat.eqb_eq in Hl.
  set (t := data_target data_0 data_1) in H.
  assert (Ht : t = match data_1 with
                   | Some d1 => if d1 =? data_0 then data_0 else data_0 + (d1 - data_0) / 2
                   | None => data_0
                   end).
  { unfold t, data_target; destruct data_1 as [d1|]; auto; destruct (d1 =? data_0); auto. }
  set (vs := query_valid (combine datas_pixel vals0)) in *.
  destruct (ObsSortAsc.sort vs) as [|o os] eqn:Hs.
  - injection H as <-; simpl; split; [exact Ht|].
    exists vals0; split; [reflexivity|split; [auto|]].
    apply sort_query_valid_nil in Hs; fold vs in Hs.
    change (filter (fun o : Z * Z => negb (snd o =? 65535)) (combine datas_pixel vals0))
      with vs; rewrite Hs; simpl.
    split; [|split];
      [split; [constructor|split; [lia|exists []; split; [constructor|simpl; tauto]]] ..|].
    rewrite !length_map; split; [reflexivity|split; [reflexivity|]].
    apply Forall_forall; intros l Hl'; apply in_app_or in Hl' as [Hl'|Hl'];
      apply in_map_iff in Hl' as [? [<- _]]; simpl; split; [lia|auto|lia|auto].
  - rewrite <- Hs in H.
    destruct (apply_opt _ _) as [bl|] eqn:Hbl; [|discriminate].
    injection H as <-; cbn [data_mid dts_a dts_d band_a band_d]; split; [exact Ht|].
    exists vals0; split; [reflexivity|split; [auto|]].
    split; [apply (window_before vs t N_OBS)|split; [apply (window_after vs t N_OBS)|]].
    rewrite !length_map, (apply_opt_length _ _ _ Hbl), length_seq.
    split; [reflexivity|split; [reflexivity|]].
    apply Forall_forall; intros l Hl'.
    apply in_app_or in Hl' as [Hl'|Hl']; apply in_map_iff in Hl' as [[la ld] [<- Hp]];
      apply (apply_opt_in _ _ _ _ Hbl) in Hp as [b [_ Hb]];
      apply band_lists_bounds in Hb; simpl; tauto.
Qed.

(** ** Process pool and mosaics *)

Lemma snoc_eq_middle {A} (tr pre post : list A) e x :
  tr ++ [e] = pre ++ x :: post ->
  (post = [] /\ e = x /\ tr = pre) \/
  (exists post', post = post' ++ [e] /\ tr = pre ++ x :: post').
Proof.
  intros H; destruct post as [|z post0] using rev_ind.
  - left; apply app_inj_tail in H as [-> ->]; auto.
  - right; exists post0.
    rewrite app_comm_cons, app_assoc in H; apply app_inj_tail in H as [-> ->]; auto.
Qed.

Lemma mosaics_after_tasks_app tr e :
  mosaics_after_tasks tr ->
  (forall i, e = MosaicBegin i -> forall k, In (Submitted k) tr -> In (Completed k) tr) ->
  (forall k, e = Submitted k -> no_mosaic tr) ->
  mosaics_after_tasks (tr ++ [e]).
Proof.
  intros Hm Hmos Hsub pre i post Heq k Hk.
  apply in_app_or in Hk.
  apply snoc_eq_middle in Heq as [[-> [-> ->]]|[post' [-> Htr]]].
  - destruct Hk as [Hk|[Hk|[]]]; [exact (Hmos i eq_refl k Hk)|discriminate].
  - destruct Hk as [Hk|[Hk|[]]].
    + exact (Hm pre i post' Htr k Hk).
    + exfalso; apply (Hsub k Hk i); rewrite Htr; apply in_or_app; simpl; auto.
Qed.

Lemma nth_error_set_nth_eq {A} k (v : A) l :
  (k < length l)%nat -> nth_error (set_nth k v l) k = Some v.
Proof.
  revert k; induction l as [|a l IH]; intros [|k] Hk; simpl in *; try lia; auto.
  apply IH; lia.
Qed.

Lemma nth_error_set_nth_neq {A} i k (v : A) l :
  i <> k -> nth_error (set_nth k v l) i = nth_error l i.
Proof.
  revert i k; induction l as [|a l IH]; intros [|i] [|k] Hik; simpl; auto;
    try contradiction; apply IH; lia.
Qed.

Lemma Forall_not_pending l :
  forallb not_pending l = true -> Forall (fun st => st <> Pending) l.
Proof.
  intros H; apply Forall_forall; intros st Hst.
  rewrite forallb_forall in H; specialize (H st Hst).
  destruct st; simpl in H; congruence.
Qed.

Lemma no_mosaic_app tr e : no_mosaic tr -> (forall i, e <> MosaicBegin i) -> no_mosaic (tr ++ [e]).
Proof.
  intros H He i Hi; apply in_app_or in Hi as [Hi|[Hi|[]]]; [exact (H i Hi)|exact (He i Hi)].
Qed.

Lemma main_step_inv n raises s s' :
  pool_inv s -> main_step n raises s = Some s' -> pool_inv s'.
Proof.
  destruct s as [p fs tr]; intros [Hsub [Hcomp [Hph Hm]]] Hst.
  unfold main_step in Hst; cbn [ph futures trace] in *.
  destruct p as [i|k|exc|i| |]; try discriminate.
  - destruct Hph as [Hlen Hno].
    destruct (Nat.ltb i n) eqn:Hi; [destruct raises|].
    + injection Hst as <-; repeat split; cbn [ph futures trace]; auto.
    + injection Hst as <-; cbn [ph futures trace]; repeat split; cbn [ph futures trace].
      * intros k Hk; rewrite length_app; simpl.
        apply in_app_or in Hk as [Hk|[Hk|[]]]; [specialize (Hsub k Hk); lia|].
        injection Hk as ->; lia.
      * intros k st Hk Hnp; apply in_or_app; left.
        destruct (Nat.lt_ge_cases k (length fs)) as [Hlt|Hge].
        -- rewrite nth_error_app1 in Hk by exact Hlt; exact (Hcomp k st Hk Hnp).
        -- rewrite nth_error_app2 in Hk by exact Hge.
           destruct (k - length fs)%nat as [|j]; simpl in Hk; [congruence|].
           destruct j; discriminate.
      * rewrite length_app, Hlen; simpl; lia.
      * apply no_mosaic_app; [exact Hno|discriminate].
      * apply mosaics_after_tasks_app; [exact Hm|discriminate|intros; exact Hno].
    + injection Hst as <-; repeat split; cbn [ph futures trace]; auto.
  - destruct (nth_error fs k) as [[| |]|]; try discriminate;
      injection Hst as <-; repeat split; cbn [ph futures trace]; auto.
  - destruct (forallb not_pending fs) eqn:Hall; [|discriminate].
    injection Hst as <-; repeat split; cbn [ph futures trace]; auto.
    destruct exc; apply Forall_not_pending; exact Hall.
  - destruct (Nat.ltb i n).
    + injection Hst as <-; cbn [ph futures trace]; repeat split; cbn [ph futures trace].
      * intros k Hk; apply in_app_or in Hk as [Hk|[Hk|[]]]; [auto|discriminate].
      * intros k st Hk Hnp; apply in_or_app; left; exact (Hcomp k st Hk Hnp).
      * destruct raises; exact Hph.
      * apply mosaics_after_tasks_app; [exact Hm| |discriminate].
        intros j _ k Hk.
        specialize (Hsub k Hk).
        destruct (nth_error fs k) as [st|] eqn:Hn.
        -- apply (Hcomp k st Hn).
           rewrite Forall_forall in Hph; apply Hph; eapply nth_error_In; eauto.
        -- apply nth_error_None in Hn; lia.
    + injection Hst as <-; repeat split; cbn [ph futures trace]; auto.
Qed.

Lemma worker_step_inv k raises s s' :
  pool_inv s -> worker_step k raises s = Some s' -> pool_inv s'.
Proof.
  destruct s as [p fs tr]; intros [Hsub [Hcomp [Hph Hm]]] Hst.
  unfold worker_step in Hst; cbn [ph futures trace] in *.
  destruct (nth_error fs k) as [[| |]|] eqn:Hk; try discriminate.
  injection Hst as <-; cbn [ph futures trace].
  assert (Hlt : (k < length fs)%nat) by (apply nth_error_Some; congruence).
  repeat split; cbn [ph futures trace].
  - intros j Hj; rewrite length_set_nth.
    apply in_app_or in Hj as [Hj|[Hj|[]]]; [auto|discriminate].
  - intros j st Hj Hnp; apply in_or_app.
    destruct (Nat.eq_dec j k) as [->|Hne]; [right; left; reflexivity|left].
    rewrite nth_error_set_nth_neq in Hj by exact Hne; exact (Hcomp j st Hj Hnp).
  - destruct p; try (apply no_mosaic_app; [apply Hph|discriminate]).
    + destruct Hph as [Hlen Hno]; split;
        [rewrite length_set_nth; exact Hlen|apply no_mosaic_app; [exact Hno|discriminate]].
    + rewrite Forall_forall in Hph; exfalso; apply (Hph Pending); [eapply nth_error_In; eauto|auto].
    + rewrite Forall_forall in Hph; exfalso; apply (Hph Pending); [eapply nth_error_In; eauto|auto].
    + rewrite Forall_forall in Hph; exfalso; apply (Hph Pending); [eapply nth_error_In; eauto|auto].
  - apply mosaics_after_tasks_app; [exact Hm|discriminate|discriminate].
Qed.

Lemma exec_inv n sched s s' :
  pool_inv s -> exec n sched s = Some s' -> pool_inv s'.
Proof.
  revert s; induction sched as [|c sched IH]; simpl; intros s Hi He.
  - injection He as <-; exact Hi.
  - destruct (step n c s) as [s1|] eqn:Hs; [|discriminate].
    apply (IH s1); [|exact He].
    destruct c; [eapply main_step_inv|eapply worker_step_inv]; eauto.
Qed.

Lemma init_state_inv : pool_inv init_state.
Proof.
  repeat split; simpl; try contradiction.
  - intros k st Hk; destruct k; discriminate.
  - intros i [].
  - intros pre i post Heq; destruct pre; discriminate.
Qed.

(** C8: in every execution of [process_and_mosaic_images], under any
    interleaving of the main process with the workers of the pool and any
    outcome (normal or exception) of each operation, every mosaic
    combination begins after the completion of every download task
    submitted to the pool. *)
Theorem mosaic_after_all_tasks num_images sched s
  (Hs : exec num_images sched init_state = Some s) :
  forall pre i post, trace s = pre ++ MosaicBegin i :: post ->
    forall k, In (Submitted k) (trace s) -> In (Completed k) pre.
Proof.
  pose proof (exec_inv num_images sched init_state s init_state_inv Hs) as [_ [_ [_ Hm]]].
  exact Hm.
Qed.

(** ** Expansion of list columns *)

Lemma nodup_app_disjoint {A} (l1 l2 : list A) x :
  NoDup (l1 ++ l2) -> In x l1 -> ~ In x l2.
Proof.
  induction l1 as [|a l1 IH]; simpl; intros Hnd Hx; [contradiction|].
  inversion Hnd as [|? ? Hn Hnd']; subst.
  destruct Hx as [<-|Hx]; [intros H; apply Hn, in_or_app; auto|auto].
Qed.

Lemma df_col_in df c :
  NoDup (map fst df) -> In c df -> df_col df (fst c) = Some (snd c).
Proof.
  unfold df_col; induction df as [|[n v] df IH]; simpl; intros Hnd Hc; [contradiction|].
  inversion Hnd as [|? ? Hn Hnd']; subst.
  destruct Hc as [<-|Hc]; simpl; [rewrite String.eqb_refl; reflexivity|].
  destruct (String.eqb n (fst c)) eqn:He.
  - apply String.eqb_eq in He; subst n; exfalso; apply Hn, in_map; exact Hc.
  - apply IH; auto.
Qed.

Lemma assign_col_fresh name v df :
  ~ In name (map fst df) -> assign_col name v df = df ++ [(name, v)].
Proof.
  induction df as [|[n w] df IH]; simpl; intros Hn; auto.
  destruct (String.eqb n name) eqn:He.
  - apply String.eqb_eq in He; subst; exfalso; apply Hn; auto.
  - f_equal; apply IH; auto.
Qed.

Lemma fold_assign_fresh (nm : nat -> String.string) (cl : nat -> list pyobj) is d :
  NoDup (map nm is) -> (forall i, In i is -> ~ In (nm i) (map fst d)) ->
  fold_left (fun d i => assign_col (nm i) (cl i) d) is d = d ++ map (fun i => (nm i, cl i)) is.
Proof.
  revert d; induction is as [|i is IH]; simpl; intros d Hnd Hfr; [now rewrite app_nil_r|].
  inversion Hnd as [|? ? Hn Hnd']; subst.
  rewrite assign_col_fresh by auto.
  rewrite IH; [now rewrite <- app_assoc|exact Hnd'|].
  intros j Hj; rewrite map_app; simpl; intros Hin.
  apply in_app_or in Hin as [Hin|[Hin|[]]].
  - exact (Hfr j (or_intror Hj) Hin).
  - apply Hn; rewrite Hin; apply in_map; exact Hj.
Qed.

Lemma filter_not_name_id name (l : frame) :
  ~ In name (map fst l) -> filter (fun c => negb (String.eqb (fst c) name)) l = l.
Proof.
  induction l as [|[n v] l IH]; simpl; intros Hn; auto.
  destruct (String.eqb n name) eqn:He.
  - apply String.eqb_eq in He; subst; exfalso; apply Hn; auto.
  - simpl; f_equal; apply IH; auto.
Qed.

Lemma one_match (f : String.string -> bool) ps :
  existsb f ps = true -> (length (filter f ps) <= 1)%nat ->
  exists ps1 p ps2, ps = ps1 ++ p :: ps2 /\ f p = true /\
    (forall q, In q ps1 \/ In q ps2 -> f q = false).
Proof.
  induction ps as [|a ps IH]; simpl; intros Hex Hlen; [discriminate|].
  destruct (f a) eqn:Ha.
  - exists [], a, ps; split; [reflexivity|split; [exact Ha|]].
    intros q [[]|Hq]; simpl in Hlen.
    destruct (f q) eqn:Hfq; [|reflexivity].
    assert (In q (filter f ps)) by (apply filter_In; auto).
    destruct (filter f ps); simpl in *; [contradiction|lia].
  - destruct (IH Hex Hlen) as [ps1 [p [ps2 [-> [Hp Hq]]]]].
    exists (a :: ps1), p, ps2; split; [reflexivity|split; [exact Hp|]].
    intros q [[<-|Hq1]|Hq2]; auto.
Qed.

Lemma fold_expand_keep df m col series ps d :
  df_col df col = Some series ->
  (forall q, In q ps -> String.prefix q col && existsb is_list series = false) ->
  fold_left (expand_step df m col) ps (Some d) = Some d.
Proof.
  intros Hcol; induction ps as [|q ps IH]; cbn [fold_left]; intros Hq; auto.
  replace (expand_step df m col (Some d) q) with (Some d); [apply IH; intros q' Hq'; apply Hq; simpl; auto|].
  unfold expand_step; rewrite Hcol, (Hq q (or_introl eq_refl)); reflexivity.
Qed.

(** One column of the outer loop. *)
Lemma expand_column_step df prefixos m l1 c l2
  (Hdf : df = l1 ++ c :: l2)
  (Hpre : forall c, In c df -> existsb is_list (snd c) = true ->
            (length (filter (fun p => String.prefix p (fst c)) prefixos) <= 1)%nat)
  (Hnd : NoDup (map fst df ++
                map fst (flat_map (fun c => if replaced prefixos c then new_columns m c else []) df))) :
  let gen l := flat_map (fun c => if replaced prefixos c then new_columns m c else []) l in
  fold_left (expand_step df m (fst c)) prefixos
    (Some (filter (fun c => negb (replaced prefixos c)) l1 ++ c :: l2 ++ gen l1)) =
  Some (filter (fun c => negb (replaced prefixos c)) (l1 ++ [c]) ++ l2 ++ gen (l1 ++ [c])).
Proof.
  intros gen.
  assert (Hc : In c df) by (rewrite Hdf; apply in_or_app; simpl; auto).
  assert (Hnd0 : NoDup (map fst df)) by (eapply NoDup_app_remove_r; eauto).
  pose proof (df_col_in df c Hnd0 Hc) as Hcol.
  unfold gen; rewrite filter_app, flat_map_app; simpl.
  destruct (replaced prefixos c) eqn:Hr; simpl.
  - (* the column is replaced by its new columns *)
    unfold replaced in Hr; apply andb_prop in Hr as [Hp Hl].
    destruct (one_match _ _ Hp (Hpre c Hc Hl)) as [ps1 [p [ps2 [Hps [Hpp Hq]]]]].
    set (F := filter (fun c => negb (replaced prefixos c)) l1).
    set (G := flat_map (fun c => if replaced prefixos c then new_columns m c else []) l1).
    set (G2 := flat_map (fun c => if replaced prefixos c then new_columns m c else []) l2).
    assert (Hrc : replaced prefixos c = true) by (unfold replaced; rewrite Hp, Hl; reflexivity).
    assert (Hgen : flat_map (fun c => if replaced prefixos c then new_columns m c else []) df
                   = G ++ new_columns m c ++ G2)
      by (rewrite Hdf, flat_map_app; simpl; rewrite Hrc; reflexivity).
    rewrite Hgen, !map_app in Hnd.
    (* names of the frame before the new columns *)
    assert (HD : forall x, In x (map fst (F ++ c :: l2 ++ G)) ->
                   In x (map fst df) \/ In x (map fst G)).
    { intros x Hx; rewrite !map_app in Hx; simpl in Hx; rewrite map_app in Hx.
      rewrite Hdf, map_app; simpl.
      apply in_app_or in Hx as [Hx|[Hx|Hx]].
      - left; apply in_or_app; left.
        apply in_map_iff in Hx as [y [<- Hy]]; apply in_map.
        unfold F in Hy; apply filter_In in Hy; tauto.
      - left; apply in_or_app; right; left; exact Hx.
      - apply in_app_or in Hx as [Hx|Hx]; [left; apply in_or_app; right; right; exact Hx|right; exact Hx]. }
    assert (Hnew_nd : NoDup (map fst (new_columns m c))).
    { apply NoDup_app_remove_l in Hnd; apply NoDup_app_remove_l in Hnd.
      eapply NoDup_app_remove_r; eauto. }
    assert (Hnew_fr : forall x, In x (map fst (new_columns m c)) ->
                        ~ In x (map fst df) /\ ~ In x (map fst G)).
    { intros x Hx; split; intros Hin.
      - apply (nodup_app_disjoint _ _ x Hnd Hin); apply in_or_app; right; apply in_or_app; left; exact Hx.
      - apply NoDup_app_remove_l in Hnd.
        apply (nodup_app_disjoint _ _ x Hnd Hin); apply in_or_app; left; exact Hx. }
    assert (Hcn : ~ In (fst c) (map fst (F ++ l2 ++ G ++ new_columns m c))).
    { assert (Hndl : NoDup (map fst l1 ++ fst c :: map fst l2))
        by (rewrite Hdf, map_app in Hnd0; exact Hnd0).
      apply NoDup_remove_2 in Hndl.
      assert (Hcdf : In (fst c) (map fst df)) by (apply in_map; exact Hc).
      rewrite !map_app; intros Hin.
      apply in_app_or in Hin as [Hin|Hin].
      - apply Hndl, in_or_app; left.
        apply in_map_iff in Hin as [y [Hy Hy']]; rewrite <- Hy; apply in_map.
        unfold F in Hy'; apply filter_In in Hy'; tauto.
      - apply in_app_or in Hin as [Hin|Hin]; [apply Hndl, in_or_app; right; exact Hin|].
        apply in_app_or in Hin as [Hin|Hin].
        + apply (nodup_app_disjoint _ _ _ Hnd Hcdf); apply in_or_app; left; exact Hin.
        + destruct (Hnew_fr _ Hin) as [H _]; contradiction. }
    rewrite Hps, fold_left_app; simpl.
    rewrite (fold_expand_keep df m (fst c) (snd c) ps1) by
      (exact Hcol || (intros q Hq'; rewrite (Hq q (or_introl Hq')); reflexivity)).
    unfold expand_step at 2; rewrite Hcol, Hpp, Hl; simpl.
    rewrite (fold_assign_fresh (fun i => String.append (fst c) (str_of_nat (i + 1)))
                               (fun i => map (item_or_none i) (snd c))).
    + fold (new_columns m c).
      unfold drop_col.
      replace (existsb _ _) with true.
      2:{ symmetry; apply existsb_exists; exists c; split; [|apply String.eqb_refl].
          apply in_or_app; left; apply in_or_app; right; left; reflexivity. }
      rewrite <- app_assoc; simpl.
      rewrite filter_app; simpl; rewrite String.eqb_refl; simpl.
      rewrite <- filter_app.
      rewrite filter_not_name_id.
      * rewrite (fold_expand_keep df m (fst c) (snd c) ps2);
          [now rewrite !app_assoc, !app_nil_r|exact Hcol|].
        intros q Hq'; rewrite (Hq q (or_intror Hq')); reflexivity.
      * rewrite <- !app_assoc; exact Hcn.
    + unfold new_columns in Hnew_nd; rewrite map_map in Hnew_nd; exact Hnew_nd.
    + intros i Hi Hin.
      assert (Hx : In (String.append (fst c) (str_of_nat (i + 1))) (map fst (new_columns m c)))
        by (unfold new_columns; rewrite map_map;
            exact (in_map (fun i => String.append (fst c) (str_of_nat (i + 1))) _ _ Hi)).
      destruct (Hnew_fr _ Hx) as [H1 H2].
      destruct (HD _ Hin); contradiction.
  - (* the column is kept *)
    rewrite (fold_expand_keep df m (fst c) (snd c)); [|exact Hcol|].
    + now rewrite <- !app_assoc, app_nil_r.
    + intros q Hq.
      destruct (String.prefix q (fst c)) eqn:Hqc; [|reflexivity]; simpl.
      unfold replaced in Hr; destruct (existsb is_list (snd c)) eqn:Hl; [|reflexivity].
      rewrite andb_true_r in Hr.
      assert (existsb (fun p => String.prefix p (fst c)) prefixos = true)
        by (apply existsb_exists; exists q; auto).
      congruence.
Qed.

Lemma expand_columns df prefixos m l1 l2
  (Hdf : df = l1 ++ l2)
  (Hpre : forall c, In c df -> existsb is_list (snd c) = true ->
            (length (filter (fun p => String.prefix p (fst c)) prefixos) <= 1)%nat)
  (Hnd : NoDup (map fst df ++
                map fst (flat_map (fun c => if replaced prefixos c then new_columns m c else []) df))) :
  fold_left (fun acc col => fold_left (expand_step df m col) prefixos acc) (map fst l2)
    (Some (filter (fun c => negb (replaced prefixos c)) l1 ++ l2 ++
           flat_map (fun c => if replaced prefixos c then new_columns m c else []) l1)) =
  Some (expanded_as_specified df prefixos m).
Proof.
  revert l1 Hdf; induction l2 as [|c l2 IH]; intros l1 Hdf; simpl.
  - rewrite app_nil_r in Hdf; subst; reflexivity.
  - rewrite (expand_column_step df prefixos m l1 c l2 Hdf Hpre Hnd).
    apply (IH (l1 ++ [c])); rewrite <- app_assoc; exact Hdf.
Qed.

(** [expandir_listas_em_colunas]: if no column holding a list has a name
    that starts with two entries of the prefix list (counting repeated
    entries), and the names of the columns of the DataFrame and of all the
    new columns are pairwise distinct, the result is the DataFrame in which
    each column whose name starts with a prefix and that holds a list is
    replaced by the columns [<name>1 ... <name>max_itens], column
    [<name>i] holding the [i]-th element of the row's list when it has one
    and [None] otherwise; the kept columns come first, unchanged and in
    their order, then the new columns, column by column. *)
Theorem expandir_listas_em_colunas_spec df prefixos max_itens
  (Hpre : forall c, In c df -> existsb is_list (snd c) = true ->
            (length (filter (fun p => String.prefix p (fst c)) prefixos) <= 1)%nat)
  (Hnd : NoDup (map fst df ++
                map fst (flat_map (fun c => if replaced prefixos c then new_columns max_itens c else [])
                                  df))) :
  expandir_listas_em_colunas df prefixos max_itens =
  Some (expanded_as_specified df prefixos max_itens).
Proof.
  unfold expandir_listas_em_colunas.
  pose proof (expand_columns df prefixos max_itens [] df eq_refl Hpre Hnd) as H.
  simpl in H; rewrite app_nil_r in H; exact H.
Qed.

(** C9 (code bug): a list column whose name starts with two of the
    prefixes, here ["abc"] with the prefixes ["a"] and ["ab"], is expanded
    and dropped at the first prefix; with no [break] after the drop, the
    second prefix expands it again and drops it a second time, which
    raises [KeyError] ([None]), where the claim has the column ["abc"]
    replaced by ["abc1"]. *)
Lemma expandir_listas_em_colunas_double_drop :
  expandir_listas_em_colunas [("abc", [CList [CInt 1]])]%string ["a"; "ab"]%string 1 = None /\
  expanded_as_specified [("abc", [CList [CInt 1]])]%string ["a"; "ab"]%string 1 =
    [("abc1", [CInt 1])]%string.
Proof. split; vm_compute; reflexivity. Qed.

(* ================================================================== *)
(** * Witnesses: the hypotheses of the theorems hold on concrete inputs *)

Lemma filter_pixel_group_second_highest_witness :
  NoDup (map label [mkRow 0 0 0 (Some 5); mkRow 1 0 0 (Some 9); mkRow 2 0 0 (Some 7)]) /\
  exists r,
    filter_pixel_group [mkRow 0 0 0 (Some 5); mkRow 1 0 0 (Some 9); mkRow 2 0 0 (Some 7)]
      None None = FRow r /\
    second_highest_in [mkRow 0 0 0 (Some 5); mkRow 1 0 0 (Some 9); mkRow 2 0 0 (Some 7)] r.
Proof.
  assert (Hnd : NoDup (map label [mkRow 0 0 0 (Some 5); mkRow 1 0 0 (Some 9);
                                  mkRow 2 0 0 (Some 7)]))
    by (simpl; repeat constructor; simpl; intuition discriminate).
  split; [exact Hnd|].
  apply (proj2 (filter_pixel_group_second_highest _ Hnd)); simpl; lia.
Defined.

Lemma write_clipped_nodata_witness :
  write_clipped (Some [[[mkElem 0 false; mkElem 0 false]; [mkElem 5 false; mkElem 0 false]]]) =
    Some [[[mkElem 65535 false; mkElem 65535 false]; [mkElem 5 false; mkElem 0 false]]] /\
  exists out_image,
    Some [[[mkElem 0 false; mkElem 0 false]; [mkElem 5 false; mkElem 0 false]]] = Some out_image /\
    forall i j pv, pixel out_image i j = Some pv ->
      (Forall (fun e => masked e = false /\ data e = 0) pv ->
         pixel [[[mkElem 65535 false; mkElem 65535 false]; [mkElem 5 false; mkElem 0 false]]] i j
         = Some (map (fun _ => mkElem NODATA false) pv)) /\
      (Exists (fun e => masked e = false /\ data e <> 0) pv ->
         pixel [[[mkElem 65535 false; mkElem 65535 false]; [mkElem 5 false; mkElem 0 false]]] i j
         = Some pv).
Proof.
  assert (Hw : write_clipped
                 (Some [[[mkElem 0 false; mkElem 0 false]; [mkElem 5 false; mkElem 0 false]]]) =
               Some [[[mkElem 65535 false; mkElem 65535 false]; [mkElem 5 false; mkElem 0 false]]])
    by (vm_compute; reflexivity).
  split; [exact Hw|exact (write_clipped_nodata _ _ Hw)].
Defined.

Lemma create_raster_array_utm_cells_witness :
  calculate_raster_parameters_utm [mkRow 0 500005 4000005 (Some 0); mkRow 1 500025 4000015 None]
    = Some (mkParams 3 2 500000 4000000 500030 4000020 10 10) /\
  create_raster_array_utm [mkRow 0 500005 4000005 (Some 0); mkRow 1 500025 4000015 None]
    (mkParams 3 2 500000 4000000 500030 4000020 10 10)
    = Some [[-9999; -9999; -9999]; [19700101; -9999; -9999]] /\
  cell [[-9999; -9999; -9999]; [19700101; -9999; -9999]] (1, 0) = 19700101.
Proof.
  assert (Hp : calculate_raster_parameters_utm
                 [mkRow 0 500005 4000005 (Some 0); mkRow 1 500025 4000015 None]
               = Some (mkParams 3 2 500000 4000000 500030 4000020 10 10))
    by (vm_compute; reflexivity).
  assert (Ha : create_raster_array_utm
                 [mkRow 0 500005 4000005 (Some 0); mkRow 1 500025 4000015 None]
                 (mkParams 3 2 500000 4000000 500030 4000020 10 10)
               = Some [[-9999; -9999; -9999]; [19700101; -9999; -9999]])
    by (vm_compute; reflexivity).
  split; [exact Hp|split; [exact Ha|]].
  change (1, 0) with (cell_of (mkParams 3 2 500000 4000000 500030 4000020 10 10)
                              (mkRow 0 500005 4000005 (Some 0))).
  apply (proj1 (create_raster_array_utm_cells _ _ _ Hp Ha) []
           (mkRow 0 500005 4000005 (Some 0)) [mkRow 1 500025 4000015 None] 0);
    [reflexivity|reflexivity|vm_compute; reflexivity|].
  intros q [<-|[]] Hq; contradiction Hq; reflexivity.
Defined.

Lemma processar_pixel_window_witness :
  processar_pixel [[3; 4]; [65535; 1]; [7; 2]; [8; 3]] [10; 11; 12; 13] 11 [tt; tt] (Some 13) 1
    = Some (mkPixelRow 12 [12] [13] [[7]; [2]] [[8]; [3]]) /\
  data_mid (mkPixelRow 12 [12] [13] [[7]; [2]] [[8]; [3]]) =
    (if 13 =? 11 then 11 else 11 + (13 - 11) / 2) /\
  exists vals0, column [[3; 4]; [65535; 1]; [7; 2]; [8; 3]] 0 = Some vals0 /\
    length vals0 = length [10; 11; 12; 13] /\
    let rw := mkPixelRow 12 [12] [13] [[7]; [2]] [[8]; [3]] in
    let valid := filter (fun o => negb (snd o =? 65535)) (combine [10; 11; 12; 13] vals0) in
    let before := map fst (filter (fun o => fst o <=? data_mid rw) valid) in
    let after := map fst (filter (fun o => data_mid rw <? fst o) valid) in
    (Sorted Z.le (dts_a rw) /\ length (dts_a rw) = Nat.min 1 (length before) /\
     exists rest, Permutation before (dts_a rw ++ rest) /\
       forall a b, In a rest -> In b (dts_a rw) -> a <= b) /\
    (Sorted Z.le (dts_d rw) /\ length (dts_d rw) = Nat.min 1 (length after) /\
     exists rest, Permutation after (dts_d rw ++ rest) /\
       forall a b, In a rest -> In b (dts_d rw) -> b <= a) /\
    length (band_a rw) = length [tt; tt] /\ length (band_d rw) = length [tt; tt] /\
    Forall (fun l => (length l <= 1)%nat /\ ~ In 65535 l) (band_a rw ++ band_d rw).
Proof.
  assert (H : processar_pixel [[3; 4]; [65535; 1]; [7; 2]; [8; 3]] [10; 11; 12; 13] 11
                [tt; tt] (Some 13) 1
              = Some (mkPixelRow 12 [12] [13] [[7]; [2]] [[8]; [3]]))
    by (vm_compute; reflexivity).
  split; [exact H|exact (processar_pixel_window _ _ _ _ _ _ _ H)].
Defined.

Lemma raster_indices_within_bounds_witness :
  calculate_raster_parameters_utm [mkRow 0 500005 4000005 (Some 0); mkRow 1 500025 4000015 None]
    = Some (mkParams 3 2 500000 4000000 500030 4000020 10 10) /\
  list_min (map x_coord [mkRow 0 500005 4000005 (Some 0); mkRow 1 500025 4000015 None])
    = Some 500005 /\
  list_max (map x_coord [mkRow 0 500005 4000005 (Some 0); mkRow 1 500025 4000015 None])
    = Some 500025 /\
  list_min (map y_coord [mkRow 0 500005 4000005 (Some 0); mkRow 1 500025 4000015 None])
    = Some 4000005 /\
  list_max (map y_coord [mkRow 0 500005 4000005 (Some 0); mkRow 1 500025 4000015 None])
    = Some 4000015 /\
  500005 <= 500025 <= 500025 /\ 4000005 <= 4000015 <= 4000015 /\
  0 <= x_idx (mkParams 3 2 500000 4000000 500030 4000020 10 10) (mkRow 1 500025 4000015 None)
    < width (mkParams 3 2 500000 4000000 500030 4000020 10 10) /\
  0 <= y_idx (mkParams 3 2 500000 4000000 500030 4000020 10 10) (mkRow 1 500025 4000015 None)
    < height (mkParams 3 2 500000 4000000 500030 4000020 10 10).
Proof.
  assert (Hp : calculate_raster_parameters_utm
                 [mkRow 0 500005 4000005 (Some 0); mkRow 1 500025 4000015 None]
               = Some (mkParams 3 2 500000 4000000 500030 4000020 10 10))
    by (vm_compute; reflexivity).
  do 5 (split; [vm_compute; reflexivity|]).
  do 2 (split; [lia|]).
  apply (raster_indices_within_bounds _ _ _ 500005 500025 4000005 4000015 Hp);
    (vm_compute; reflexivity) || (simpl; lia).
Defined.

Lemma create_qgis_style_entries_palette_witness :
  (exists r t, In r [mkRow 0 0 0 (Some 0); mkRow 1 0 0 (Some 86400000)] /\ tBreak r = Some t) /\
  create_qgis_style_entries [mkRow 0 0 0 (Some 0); mkRow 1 0 0 (Some 86400000)]
    = Some [19700101; 19700102; -9999] /\
  exists l, [19700101; 19700102; -9999] = l ++ [-9999] /\
    StronglySorted (fun a b => a / 10000 < b / 10000 \/ (a / 10000 = b / 10000 /\ a < b)) l /\
    (forall v, In v l <->
       exists r t y m d, In r [mkRow 0 0 0 (Some 0); mkRow 1 0 0 (Some 86400000)] /\
         tBreak r = Some t /\ to_datetime_ms t = Some (y, m, d) /\
         v = yyyymmdd (y, m, d) /\ v / 10000 = y).
Proof.
  assert (Hnn : exists r t, In r [mkRow 0 0 0 (Some 0); mkRow 1 0 0 (Some 86400000)] /\
                            tBreak r = Some t)
    by (exists (mkRow 0 0 0 (Some 0)), 0; split; [left; reflexivity|reflexivity]).
  assert (Hes : create_qgis_style_entries [mkRow 0 0 0 (Some 0); mkRow 1 0 0 (Some 86400000)]
                = Some [19700101; 19700102; -9999])
    by (vm_compute; reflexivity).
  split; [exact Hnn|split; [exact Hes|exact (create_qgis_style_entries_palette _ _ Hnn Hes)]].
Defined.

Lemma mosaic_after_all_tasks_witness :
  exec 1 [MainStep false; MainStep false; WorkerStep 0 false; MainStep false;
          MainStep false; MainStep false; MainStep false] init_state
    = Some (mkState (Mosaicking 1) [Finished_ok] [Submitted 0; Completed 0; MosaicBegin 0]) /\
  forall pre i post,
    [Submitted 0; Completed 0; MosaicBegin 0] = pre ++ MosaicBegin i :: post ->
    forall k, In (Submitted k) [Submitted 0; Completed 0; MosaicBegin 0] -> In (Completed k) pre.
Proof.
  assert (Hs : exec 1 [MainStep false; MainStep false; WorkerStep 0 false; MainStep false;
                       MainStep false; MainStep false; MainStep false] init_state
               = Some (mkState (Mosaicking 1) [Finished_ok]
                               [Submitted 0; Completed 0; MosaicBegin 0]))
    by (vm_compute; reflexivity).
  split; [exact Hs|exact (mosaic_after_all_tasks _ _ _ Hs)].
Defined.

Lemma expandir_listas_em_colunas_spec_witness :
  (forall c, In c [("x", [CInt 3; CInt 4]); ("abc", [CList [CInt 1]; CNone])]%string ->
     existsb is_list (snd c) = true ->
     (length (filter (fun p => String.prefix p (fst c)) ["a"; "b"]%string) <= 1)%nat) /\
  NoDup (map fst [("x", [CInt 3; CInt 4]); ("abc", [CList [CInt 1]; CNone])]%string ++
         map fst (flat_map (fun c => if replaced ["a"; "b"]%string c then new_columns 2 c else [])
                           [("x", [CInt 3; CInt 4]); ("abc", [CList [CInt 1]; CNone])]%string)) /\
  expandir_listas_em_colunas [("x", [CInt 3; CInt 4]); ("abc", [CList [CInt 1]; CNone])]%string
    ["a"; "b"]%string 2 =
  Some (expanded_as_specified [("x", [CInt 3; CInt 4]); ("abc", [CList [CInt 1]; CNone])]%string
          ["a"; "b"]%string 2).
Proof.
  assert (Hpre : forall c, In c [("x", [CInt 3; CInt 4]); ("abc", [CList [CInt 1]; CNone])]%string ->
            existsb is_list (snd c) = true ->
            (length (filter (fun p => String.prefix p (fst c)) ["a"; "b"]%string) <= 1)%nat).
  { intros c Hc _; destruct Hc as [<-|[<-|[]]]; vm_compute; lia. }
  assert (Hnd : NoDup (map fst [("x", [CInt 3; CInt 4]); ("abc", [CList [CInt 1]; CNone])]%string ++
         map fst (flat_map (fun c => if replaced ["a"; "b"]%string c then new_columns 2 c else [])
                           [("x", [CInt 3; CInt 4]); ("abc", [CList [CInt 1]; CNone])]%string)))
    by (vm_compute; repeat constructor; simpl; intuition discriminate).
  split; [exact Hpre|split; [exact Hnd|exact (expandir_listas_em_colunas_spec _ _ _ Hpre Hnd)]].
Defined.

(* ================================================================== *)
(** * Further properties of the scripts *)

(** ** process_parquet_file *)

Lemma fpg_unfold g s e :
  (s <> None \/ e <> None) ->
  filter_pixel_group g s e =
  match filter_end e (filter_start s g) with
  | [] => FNone | _ => select_break (filter_end e (filter_start s g)) end.
Proof.
  intros Hse; unfold filter_pixel_group.
  destruct s, e; try reflexivity. destruct Hse as [H|H]; now contradiction H.
Qed.

Lemma fpg_row g s e r :
  filter_pixel_group g s e = FRow r ->
  In r g /\ ((s <> None \/ e <> None) -> within_bounds s e r).
Proof.
  intros H.
  assert (Hcase : (s = None /\ e = None) \/ (s <> None \/ e <> None))
    by (destruct s, e; [right; left| right; left| right; right|left]; easy).
  destruct Hcase as [[-> ->]|Hse].
  - split; [now apply select_break_in|]. intros [H'|H']; now contradiction H'.
  - rewrite (fpg_unfold g s e Hse) in H.
    destruct (filter_end e (filter_start s g)) as [|f fs] eqn:Hf; [discriminate|].
    apply select_break_in in H; rewrite <- Hf in H.
    apply (in_filtered s e g r Hse) in H as [Hg Hw]; auto.
Qed.

Lemma last_opt_in {A} (l : list A) x : last_opt l = Some x -> In x l.
Proof.
  induction l as [|a [|b l] IH]; simpl; intros H; try discriminate.
  - injection H as ->; now left.
  - right; apply IH, H.
Qed.

Lemma loc_found g r : In r g -> exists r', loc g (label r) = Some r'.
Proof.
  intros Hin; unfold loc.
  destruct (find (fun r' => Nat.eqb (label r') (label r)) g) as [r'|] eqn:Hf; [now exists r'|].
  pose proof (find_none _ _ Hf r Hin) as H; simpl in H; now rewrite Nat.eqb_refl in H.
Qed.

(** [select_break] raises only on an empty selection. *)
Lemma select_break_nonempty g : g <> [] -> select_break g <> FError.
Proof.
  intros Hne.
  unfold select_break.
  destruct g as [|r0 [|r1 g']]; [contradiction|discriminate|].
  cbv beta iota.
  set (g := r0 :: r1 :: g').
  pose proof (Permuted_sort_desc g) as Hperm.
  assert (Hlen : (2 <= length (sort_desc g))%nat)
    by (rewrite <- (Permutation_length Hperm); simpl; lia).
  unfold nlargest.
  destruct (sort_desc g) as [|a [|b rest]] eqn:Hs; simpl in Hlen; try lia.
  cbn [firstn last_opt].
  assert (Hb : In b g) by (apply (Permutation_in _ (Permutation_sym Hperm)); right; now left).
  destruct (loc_found g b Hb) as [r' ->]; discriminate.
Qed.

Lemma fpg_not_error g s e : g <> [] -> filter_pixel_group g s e <> FError.
Proof.
  intros Hne.
  assert (Hcase : (s = None /\ e = None) \/ (s <> None \/ e <> None))
    by (destruct s, e; [right; left| right; left| right; right|left]; easy).
  destruct Hcase as [[-> ->]|Hse]; [now apply select_break_nonempty|].
  rewrite (fpg_unfold g s e Hse).
  destruct (filter_end e (filter_start s g)) as [|f fs] eqn:Hf; [discriminate|].
  apply select_break_nonempty; discriminate.
Qed.

Lemma filter_groups_ok gs s e :
  Forall (fun g => g <> []) gs -> exists out, filter_groups gs s e = Some out.
Proof.
  induction gs as [|g gs IH]; simpl; intros Hne; [now exists []|].
  inversion Hne as [|? ? Hg Hgs]; subst.
  destruct (IH Hgs) as [out Hout]; rewrite Hout.
  destruct (filter_pixel_group g s e) as [r| |] eqn:Hf.
  - now exists (r :: out).
  - now exists out.
  - exfalso; exact (fpg_not_error g s e Hg Hf).
Qed.

Lemma filter_groups_in gs s e out :
  filter_groups gs s e = Some out ->
  forall r, In r out <-> exists g, In g gs /\ filter_pixel_group g s e = FRow r.
Proof.
  revert out; induction gs as [|g gs IH]; simpl; intros out H r.
  - injection H as <-; split; [intros []|intros [g [[] _]]].
  - destruct (filter_pixel_group g s e) as [r0| |] eqn:Hf; [|rewrite (IH out H)|discriminate].
    + destruct (filter_groups gs s e) as [out'|] eqn:Ho; [|discriminate].
      injection H as <-; simpl; rewrite (IH out' eq_refl); split.
      * intros [<-|[g' [Hg' Hr]]]; [now exists g; auto|now exists g'; auto].
      * intros [g' [[<-|Hg'] Hr]]; [left; congruence|right; now exists g'].
    + split.
      * intros [g' [Hg' Hr]]; now exists g'; auto.
      * intros [g' [[<-|Hg'] Hr]]; [congruence|now exists g'].
Qed.

Lemma in_group_of df k r : In r (group_of df k) <-> In r df /\ xy r = k.
Proof.
  unfold group_of; rewrite filter_In.
  destruct (xy_eq_dec (xy r) k); split; intros [H1 H2]; auto; discriminate.
Qed.

Lemma in_groupby_keys df k : In k (groupby_keys df) <-> exists r, In r df /\ xy r = k.
Proof.
  unfold groupby_keys; split.
  - intros H; apply (Permutation_in _ (Permutation_sym (XYSort.Permuted_sort _))) in H.
    apply nodup_In, in_map_iff in H as [r [Hr Hin]]; now exists r.
  - intros [r [Hin Hr]]; apply (Permutation_in _ (XYSort.Permuted_sort _)).
    apply nodup_In, in_map_iff; now exists r.
Qed.


Lemma groupby_keys_sorted df : StronglySorted xy_lt (groupby_keys df).
Proof.
  assert (Htr : Transitive (fun a b => is_true (XYAsc.leb a b))).
  { intros a b c; unfold XYAsc.leb, xy_leb, is_true.
    rewrite !orb_true_iff, !andb_true_iff, !Z.ltb_lt, !Z.eqb_eq, !Z.leb_le; lia. }
  pose proof (XYSort.StronglySorted_sort (nodup xy_eq_dec (map xy df)) Htr) as Hs.
  pose proof (Permutation_NoDup (XYSort.Permuted_sort _) (NoDup_nodup xy_eq_dec (map xy df))) as Hnd.
  unfold groupby_keys.
  induction (XYSort.sort (nodup xy_eq_dec (map xy df))) as [|a l IH]; constructor;
    inversion Hs as [|? ? Hs' Hf]; inversion Hnd as [|? ? Hn Hnd']; subst; auto.
  rewrite Forall_forall in *; intros b Hb.
  specialize (Hf b Hb); unfold XYAsc.leb, xy_leb, is_true in Hf.
  rewrite orb_true_iff, andb_true_iff, Z.ltb_lt, Z.eqb_eq, Z.leb_le in Hf.
  destruct (xy_eq_dec a b) as [->|Hab]; [contradiction|].
  destruct a as [a1 a2], b as [b1 b2]; unfold xy_lt; simpl in *.
  assert (a1 <> b1 \/ a2 <> b2) by (destruct (Z.eq_dec a1 b1); [right; intros ->; congruence|now left]).
  lia.
Qed.

Lemma filter_groups_keys_sorted df ks s e out :
  StronglySorted xy_lt ks ->
  filter_groups (map (group_of df) ks) s e = Some out ->
  StronglySorted xy_lt (map xy out) /\ forall r, In r out -> In (xy r) ks.
Proof.
  revert out; induction ks as [|k ks IH]; simpl; intros out Hs H.
  - injection H as <-; split; [constructor|intros _ []].
  - inversion Hs as [|? ? Hs' Hlt]; subst; rewrite Forall_forall in Hlt.
    destruct (filter_pixel_group (group_of df k) s e) as [r0| |] eqn:Hf; [|destruct (IH out Hs' H) as [IH1 IH2]|discriminate].
    + destruct (filter_groups (map (group_of df) ks) s e) as [out'|] eqn:Ho; [|discriminate].
      injection H as <-.
      destruct (IH out' Hs' eq_refl) as [IH1 IH2].
      apply fpg_row in Hf as [Hr _]; apply in_group_of in Hr as [_ Hk].
      split.
      * simpl; constructor; [exact IH1|].
        apply Forall_forall; intros k' Hk'; apply in_map_iff in Hk' as [r' [<- Hr']].
        rewrite Hk; apply Hlt, IH2, Hr'.
      * intros r [<-|Hr]; [left; symmetry; exact Hk|right; apply IH2, Hr].
    + split; [exact IH1|intros r Hr; right; apply IH2, Hr].
Qed.

Lemma reset_index_labels n l : map label (reset_index n l) = seq n (length l).
Proof. revert n; induction l as [|r l IH]; intros n; simpl; [reflexivity|now rewrite IH]. Qed.

Lemma in_reset_index n l q :
  In q (reset_index n l) -> exists r, In r l /\ xy q = xy r /\ tBreak q = tBreak r.
Proof.
  revert n; induction l as [|r l IH]; simpl; intros n H; [contradiction|].
  destruct H as [<-|H]; [now exists r; auto|].
  destruct (IH (S n) H) as [r' [? ?]]; now exists r'; auto.
Qed.

Lemma reset_index_in n l r :
  In r l -> exists q, In q (reset_index n l) /\ xy q = xy r /\ tBreak q = tBreak r.
Proof.
  revert n; induction l as [|r0 l IH]; simpl; intros n H; [contradiction|].
  destruct H as [<-|H]; [eexists; split; [now left|auto]|].
  destruct (IH (S n) H) as [q [? ?]]; now exists q; auto.
Qed.

(** The frame [process_parquet_file] groups: the file's frame, filtered by
    the boundary if one is given. *)
Lemma process_parquet_file_groups df s e b :
  let df' := match b with Some w => filter_points_by_boundary df w | None => df end in
  filter_groups (map (group_of df') (groupby_keys df')) s e =
    Some (process_parquet_file (Some df) s e b).
Proof.
  intros df'.
  assert (Hne : Forall (fun g => g <> []) (map (group_of df') (groupby_keys df'))).
  { apply Forall_forall; intros g Hg; apply in_map_iff in Hg as [k [<- Hk]].
    apply in_groupby_keys in Hk as [r [Hr Hrk]].
    intros Hnil; assert (Hin : In r (group_of df' k)) by (now apply in_group_of).
    rewrite Hnil in Hin; contradiction. }
  destruct (filter_groups_ok _ s e Hne) as [out Hout].
  rewrite Hout; f_equal; unfold process_parquet_file.
  destruct b as [w|]; [|fold df'; now rewrite Hout].
  fold df'.
  destruct (length df' =? 0)%nat eqn:Hl; [|now rewrite Hout].
  apply Nat.eqb_eq, length_zero_iff_nil in Hl.
  rewrite Hl in Hout; now injection Hout as <-.
Qed.

Lemma fpg_none g s e :
  filter_pixel_group g s e = FNone ->
  (s <> None \/ e <> None) /\ forall r, In r g -> ~ within_bounds s e r.
Proof.
  intros H.
  assert (Hcase : (s = None /\ e = None) \/ (s <> None \/ e <> None))
    by (destruct s, e; [right; left| right; left| right; right|left]; easy).
  destruct Hcase as [[-> ->]|Hse]; [now apply select_break_not_none in H|].
  split; [exact Hse|]; intros r Hr Hw; rewrite (fpg_unfold g s e Hse) in H.
  destruct (filter_end e (filter_start s g)) as [|f fs] eqn:Hf;
    [|now apply select_break_not_none in H].
  assert (Hin : In r (filter_end e (filter_start s g))) by (apply in_filtered; auto).
  rewrite Hf in Hin; contradiction.
Qed.

Lemma within_bounds_tBreak s e q r :
  tBreak q = tBreak r -> within_bounds s e q -> within_bounds s e r.
Proof. unfold within_bounds; intros ->; auto. Qed.

Lemma ppf_row_origin df s e b r :
  In r (process_parquet_file (Some df) s e b) ->
  exists q, In q df /\ xy q = xy r /\ tBreak q = tBreak r /\
    (forall w, b = Some w -> w (x_coord r) (y_coord r) = true) /\
    ((s <> None \/ e <> None) -> within_bounds s e r).
Proof.
  pose proof (process_parquet_file_groups df s e b) as Hg; cbv zeta in Hg.
  intros Hr; rewrite (filter_groups_in _ _ _ _ Hg) in Hr.
  destruct Hr as [g [Hg' Hf]]; apply in_map_iff in Hg' as [k [<- _]].
  apply fpg_row in Hf as [Hr Hw]; apply in_group_of in Hr as [Hr _].
  destruct b as [w|].
  - unfold filter_points_by_boundary in Hr.
    destruct (in_reset_index _ _ _ Hr) as [q [Hq [Hxy Ht]]].
    apply filter_In in Hq as [Hq Hqw].
    exists q; repeat split; auto.
    intros w' [= <-]; injection Hxy as -> ->; exact Hqw.
  - exists r; repeat split; auto; discriminate.
Qed.

Lemma ppf_sorted df s e b :
  StronglySorted xy_lt (map xy (process_parquet_file (Some df) s e b)).
Proof.
  pose proof (process_parquet_file_groups df s e b) as Hg; cbv zeta in Hg.
  exact (proj1 (filter_groups_keys_sorted _ _ _ _ _ (groupby_keys_sorted _) Hg)).
Qed.

(** [process_parquet_file] returns at most one row per pixel, in ascending
    order of [(x_coord, y_coord)]; each returned row carries the
    coordinates and tBreak of a row of the file, lies within the boundary
    when one is given, and has its tBreak within the date bounds when
    bounds are given. *)
Theorem process_parquet_file_rows df s e b (Hlab : NoDup (map label df)) :
  StronglySorted xy_lt (map xy (process_parquet_file (Some df) s e b)) /\
  forall r, In r (process_parquet_file (Some df) s e b) ->
    exists q, In q df /\ xy q = xy r /\ tBreak q = tBreak r /\
      (forall w, b = Some w -> w (x_coord r) (y_coord r) = true) /\
      ((s <> None \/ e <> None) -> within_bounds s e r).
Proof.
  split; [apply ppf_sorted|intros r; apply ppf_row_origin].
Qed.

(** The pixels for which [process_parquet_file] returns a row are exactly
    the pixels of the file that lie within the boundary (when given) and,
    when date bounds are given, have a row whose tBreak is within them. *)
Theorem process_parquet_file_pixels df s e b k (Hlab : NoDup (map label df)) :
  In k (map xy (process_parquet_file (Some df) s e b)) <->
  exists q, In q df /\ xy q = k /\
    (forall w, b = Some w -> w (x_coord q) (y_coord q) = true) /\
    ((s <> None \/ e <> None) -> within_bounds s e q).
Proof.
  split.
  - intros Hk; apply in_map_iff in Hk as [r [<- Hr]].
    destruct (ppf_row_origin df s e b r Hr) as [q [Hq [Hxy [Ht [Hw Hb]]]]].
    exists q; split; [exact Hq|split; [exact Hxy|split]].
    + intros w Hbw; specialize (Hw w Hbw).
      unfold xy in Hxy; injection Hxy as -> ->; exact Hw.
    + intros Hse; apply (within_bounds_tBreak s e r q); auto.
  - intros [q [Hq [Hk [Hw Hb]]]].
    pose proof (process_parquet_file_groups df s e b) as Hg; cbv zeta in Hg.
    set (df' := match b with Some w => filter_points_by_boundary df w | None => df end) in Hg.
    assert (Hq' : exists q', In q' df' /\ xy q' = xy q /\ tBreak q' = tBreak q).
    { unfold df'; destruct b as [w|]; [|now exists q].
      apply reset_index_in, filter_In; split; [exact Hq|apply Hw; reflexivity]. }
    destruct Hq' as [q' [Hq'in [Hxy Ht]]].
    assert (Hkeys : In k (groupby_keys df')) by (apply in_groupby_keys; exists q'; split; [exact Hq'in|congruence]).
    assert (Hgq : In q' (group_of df' k)) by (apply in_group_of; split; [exact Hq'in|congruence]).
    destruct (filter_pixel_group (group_of df' k) s e) as [r| |] eqn:Hf.
    + assert (Hr : In r (process_parquet_file (Some df) s e b)).
      { rewrite (filter_groups_in _ _ _ _ Hg).
        exists (group_of df' k); split; [now apply in_map|exact Hf]. }
      apply fpg_row in Hf as [Hrg _]; apply in_group_of in Hrg as [_ Hrk].
      apply in_map_iff; now exists r.
    + apply fpg_none in Hf as [Hse Hno].
      exfalso; apply (Hno q' Hgq), (within_bounds_tBreak s e q q'); auto.
    + exfalso; apply (fpg_not_error (group_of df' k) s e); [|exact Hf].
      intros Hnil; rewrite Hnil in Hgq; contradiction.
Qed.

(** [collect_data_from_directory] returns [None] exactly when every file
    (possibly none) yields no row; otherwise the rows of all files, file
    after file. *)
Theorem collect_data_from_directory_rows files s e b :
  (collect_data_from_directory files s e b = None <->
     forall f, In f files -> process_parquet_file f s e b = []) /\
  (forall gdf, collect_data_from_directory files s e b = Some gdf ->
     gdf = flat_map (fun f => process_parquet_file f s e b) files).
Proof.
  unfold collect_data_from_directory.
  destruct files as [|f0 fs]; [split; [split; [intros _ f []|reflexivity]|discriminate]|].
  set (fs0 := f0 :: fs).
  destruct (flat_map (fun f => process_parquet_file f s e b) fs0) as [|r rs] eqn:Hall; split.
  - split; [intros _ f Hf|reflexivity].
    destruct (process_parquet_file f s e b) as [|r rs] eqn:Hp; [reflexivity|].
    assert (Hin : In r (flat_map (fun f => process_parquet_file f s e b) fs0))
      by (apply in_flat_map; exists f; rewrite Hp; auto with datatypes).
    rewrite Hall in Hin; contradiction.
  - discriminate.
  - split; [discriminate|intros Hno].
    assert (Hin : In r (flat_map (fun f => process_parquet_file f s e b) fs0)) by (rewrite Hall; now left).
    apply in_flat_map in Hin as [f [Hf Hr]]; rewrite (Hno f Hf) in Hr; contradiction.
  - now intros gdf [= <-].
Qed.

(** ** Raster parameters, raster cells and [process_directory_to_geotiff] *)

Lemma fold_min_in l a : In (fold_left Z.min l a) (a :: l).
Proof.
  revert a; induction l as [|b l IH]; simpl; intros a; [now left|].
  destruct (IH (Z.min a b)) as [H|H]; [|auto].
  rewrite <- H; destruct (Z.min_spec a b) as [[_ ->]|[_ ->]]; auto.
Qed.

Lemma fold_max_in l a : In (fold_left Z.max l a) (a :: l).
Proof.
  revert a; induction l as [|b l IH]; simpl; intros a; [now left|].
  destruct (IH (Z.max a b)) as [H|H]; [|auto].
  rewrite <- H; destruct (Z.max_spec a b) as [[_ ->]|[_ ->]]; auto.
Qed.

Lemma list_min_in l m : list_min l = Some m -> In m l.
Proof. destruct l as [|a l]; simpl; [discriminate|intros [= <-]; apply fold_min_in]. Qed.

Lemma list_max_in l m : list_max l = Some m -> In m l.
Proof. destruct l as [|a l]; simpl; [discriminate|intros [= <-]; apply fold_max_in]. Qed.

Lemma ceil_div_10_plus n : ceil_div (n + 10) 10 = ceil_div n 10 + 1.
Proof.
  unfold ceil_div.
  replace (- (n + 10)) with (- n + (-1) * 10) by lia.
  rewrite Z.div_add by lia; lia.
Qed.

(** Inversion of [calculate_raster_parameters_utm]. *)
Lemma calc_params_inv gdf prm :
  calculate_raster_parameters_utm gdf = Some prm ->
  exists mnx mxx mny mxy,
    list_min (map x_coord gdf) = Some mnx /\ list_max (map x_coord gdf) = Some mxx /\
    list_min (map y_coord gdf) = Some mny /\ list_max (map y_coord gdf) = Some mxy /\
    prm = {| width := ceil_div (mxx + 10 / 2 - (mnx - 10 / 2)) 10;
             height := ceil_div (mxy + 10 / 2 - (mny - 10 / 2)) 10;
             min_x_corner := mnx - 10 / 2; min_y_corner := mny - 10 / 2;
             max_x_corner := mxx + 10 / 2; max_y_corner := mxy + 10 / 2;
             res_x := 10; res_y := 10 |}.
Proof.
  unfold calculate_raster_parameters_utm.
  destruct (list_min (map x_coord gdf)) as [mnx|], (list_min (map y_coord gdf)) as [mny|],
    (list_max (map x_coord gdf)) as [mxx|], (list_max (map y_coord gdf)) as [mxy|];
    try discriminate.
  intros [= <-]; exists mnx, mxx, mny, mxy; auto.
Qed.

(** [calculate_raster_parameters_utm] fails (the NaN of an empty [min])
    exactly on an empty frame; otherwise the raster spans
    [ceil((max - min) / 10) + 1] cells in each direction, its corners half
    a cell beyond the extreme pixel centres. *)
Theorem calculate_raster_parameters_utm_extent gdf :
  (calculate_raster_parameters_utm gdf = None <-> gdf = []) /\
  forall prm mnx mxx mny mxy,
    calculate_raster_parameters_utm gdf = Some prm ->
    list_min (map x_coord gdf) = Some mnx -> list_max (map x_coord gdf) = Some mxx ->
    list_min (map y_coord gdf) = Some mny -> list_max (map y_coord gdf) = Some mxy ->
    width prm = ceil_div (mxx - mnx) 10 + 1 /\ height prm = ceil_div (mxy - mny) 10 + 1 /\
    min_x_corner prm = mnx - 5 /\ max_x_corner prm = mxx + 5 /\
    min_y_corner prm = mny - 5 /\ max_y_corner prm = mxy + 5.
Proof.
  split.
  - split; [|intros ->; reflexivity].
    destruct gdf as [|r gdf]; [reflexivity|discriminate].
  - intros prm mnx mxx mny mxy Hp H1 H2 H3 H4.
    destruct (calc_params_inv gdf prm Hp) as [a [b [c [d [E1 [E2 [E3 [E4 ->]]]]]]]].
    rewrite H1 in E1; rewrite H2 in E2; rewrite H3 in E3; rewrite H4 in E4.
    injection E1 as <-; injection E2 as <-; injection E3 as <-; injection E4 as <-.
    cbn [width height min_x_corner max_x_corner min_y_corner max_y_corner].
    change (10 / 2) with 5.
    replace (mxx + 5 - (mnx - 5)) with ((mxx - mnx) + 10) by lia.
    replace (mxy + 5 - (mny - 5)) with ((mxy - mny) + 10) by lia.
    rewrite !ceil_div_10_plus; lia.
Qed.

Lemma fold_raster_values prm l a0 arr :
  grid_dims a0 (Z.to_nat (height prm)) (Z.to_nat (width prm)) ->
  fold_left (raster_step prm) l (Some a0) = Some arr ->
  forall c, in_raster prm c = true ->
    cell arr c = cell a0 c \/
    exists r t, In r l /\ tBreak r = Some t /\ cell_of prm r = c /\
      break_date_int t = Some (cell arr c).
Proof.
  revert a0; induction l as [|q l IH]; cbn [fold_left]; intros a0 Hd Hf c Hc.
  - injection Hf as <-; now left.
  - destruct (raster_step prm (Some a0) q) as [a1|] eqn:Hs;
      [|rewrite fold_raster_none in Hf; discriminate].
    destruct (raster_step_some _ _ _ _ Hs) as [->|[t [v [Ht [Hv [Hq ->]]]]]].
    + destruct (IH a0 Hd Hf c Hc) as [H|[r [t [Hr H]]]]; [now left|right; exists r, t; split; [now right|exact H]].
    + assert (Hd1 := grid_dims_set_cell a0 _ _ (cell_of prm q) v Hd).
      destruct (IH _ Hd1 Hf c Hc) as [H|[r [t' [Hr H]]]]; [|right; exists r, t'; split; [now right|exact H]].
      destruct (xy_eq_dec (cell_of prm q) c) as [<-|Hne].
      * right; exists q, t; repeat split; [now left|exact Ht|].
        rewrite H, (cell_set_cell_eq prm a0 _ v Hd Hq); exact Hv.
      * left; rewrite H; exact (cell_set_cell_neq prm a0 _ _ v Hq Hc Hne).
Qed.

(** The array of [create_raster_array_utm] has [height] rows of [width]
    cells, and each cell within the raster holds -9999 or the YYYYMMDD
    date of a point with a non-null tBreak falling in that cell. *)
Theorem create_raster_array_utm_values gdf prm arr
  (Ha : create_raster_array_utm gdf prm = Some arr) :
  grid_dims arr (Z.to_nat (height prm)) (Z.to_nat (width prm)) /\
  forall c, in_raster prm c = true ->
    cell arr c = -9999 \/
    exists r t, In r gdf /\ tBreak r = Some t /\ cell_of prm r = c /\
      break_date_int t = Some (cell arr c).
Proof.
  unfold create_raster_array_utm in Ha; split.
  - exact (fold_raster_dims prm gdf _ arr (initial_grid_dims prm) Ha).
  - intros c Hc.
    destruct (fold_raster_values prm gdf _ arr (initial_grid_dims prm) Ha c Hc) as [H|H];
      [left; rewrite H; now apply initial_grid_cell|right; exact H].
Qed.

Lemma np_round_div_exact d k : 0 < d -> np_round_div (d * k) d = k.
Proof.
  intros Hd; unfold np_round_div.
  rewrite (Z.mul_comm d k), Z.div_mul, Z.mod_mul by lia.
  replace (2 * 0 <? d) with true by (symmetry; apply Z.ltb_lt; lia); reflexivity.
Qed.

Lemma mod10_sub a b c : (a - c) mod 10 = 0 -> (b - c) mod 10 = 0 -> (a - b) mod 10 = 0.
Proof.
  intros Ha Hb; apply Z.mod_divide in Ha, Hb; try lia; apply Z.mod_divide; [lia|].
  replace (a - b) with ((a - c) - (b - c)) by lia; now apply Z.divide_sub_r.
Qed.

(** On a 10 m lattice the cell of a point is exact. *)
Lemma lattice_cell gdf prm x0 y0 p :
  calculate_raster_parameters_utm gdf = Some prm ->
  (forall q, In q gdf -> (x_coord q - x0) mod 10 = 0 /\ (y_coord q - y0) mod 10 = 0) ->
  In p gdf ->
  exists mnx mxy,
    min_x_corner prm = mnx - 5 /\ max_y_corner prm = mxy + 5 /\
    (x_coord p - mnx) mod 10 = 0 /\ (mxy - y_coord p) mod 10 = 0 /\
    cell_of prm p = ((mxy - y_coord p) / 10, (x_coord p - mnx) / 10).
Proof.
  intros Hp Hlat Hin.
  destruct (calc_params_inv gdf prm Hp) as [mnx [mxx [mny [mxy [E1 [E2 [E3 [E4 ->]]]]]]]].
  apply list_min_in, in_map_iff in E1 as [qx [Hqx Hqxin]].
  apply list_max_in, in_map_iff in E4 as [qy [Hqy Hqyin]].
  destruct (Hlat p Hin) as [Hpx Hpy].
  destruct (Hlat qx Hqxin) as [Hqxx _]; destruct (Hlat qy Hqyin) as [_ Hqyy].
  rewrite Hqx in Hqxx; rewrite Hqy in Hqyy.
  pose proof (mod10_sub _ _ _ Hpx Hqxx) as Hx.
  pose proof (mod10_sub _ _ _ Hqyy Hpy) as Hy.
  exists mnx, mxy; cbn [min_x_corner max_y_corner]; change (10 / 2) with 5.
  split; [reflexivity|split; [reflexivity|split; [exact Hx|split; [exact Hy|]]]].
  unfold cell_of, x_idx, y_idx; cbn [min_x_corner max_y_corner res_x res_y].
  change (10 / 2) with 5.
  pose proof (Z.div_mod (x_coord p - mnx) 10 ltac:(lia)) as Dx.
  pose proof (Z.div_mod (mxy - y_coord p) 10 ltac:(lia)) as Dy.
  rewrite Hx in Dx; rewrite Hy in Dy.
  replace (2 * (x_coord p - (mnx - 5)) - 10) with (2 * 10 * ((x_coord p - mnx) / 10)) by lia.
  replace (2 * (mxy + 5 - y_coord p) - 10) with (2 * 10 * ((mxy - y_coord p) / 10)) by lia.
  rewrite !np_round_div_exact by lia; reflexivity.
Qed.

Lemma lattice_cell_inj gdf prm x0 y0 p q :
  calculate_raster_parameters_utm gdf = Some prm ->
  (forall q, In q gdf -> (x_coord q - x0) mod 10 = 0 /\ (y_coord q - y0) mod 10 = 0) ->
  In p gdf -> In q gdf -> cell_of prm p = cell_of prm q -> xy p = xy q.
Proof.
  intros Hp Hlat Hpin Hqin Hc.
  destruct (lattice_cell gdf prm x0 y0 p Hp Hlat Hpin) as [a [b [Ha [Hb [Hpx [Hpy Hcp]]]]]].
  destruct (lattice_cell gdf prm x0 y0 q Hp Hlat Hqin) as [a' [b' [Ha' [Hb' [Hqx [Hqy Hcq]]]]]].
  assert (a' = a) as -> by lia; assert (b' = b) as -> by lia.
  rewrite Hcp, Hcq in Hc; injection Hc as Hy Hx.
  pose proof (Z.div_mod (x_coord p - a) 10 ltac:(lia)).
  pose proof (Z.div_mod (b - y_coord p) 10 ltac:(lia)).
  pose proof (Z.div_mod (x_coord q - a) 10 ltac:(lia)).
  pose proof (Z.div_mod (b - y_coord q) 10 ltac:(lia)).
  unfold xy; f_equal; lia.
Qed.

(** When the pixel centres lie on a 10 m lattice (the Sentinel-2 grid),
    the cell of a point is [((max_y - y) / 10, (x - min_x) / 10)] with
    exact divisions, and two points share a cell only when they have the
    same coordinates. *)
Theorem raster_lattice_cells gdf prm x0 y0
  (Hp : calculate_raster_parameters_utm gdf = Some prm)
  (Hlat : forall q, In q gdf -> (x_coord q - x0) mod 10 = 0 /\ (y_coord q - y0) mod 10 = 0) :
  forall p q, In p gdf -> In q gdf ->
    cell_of prm p = ((max_y_corner prm - 5 - y_coord p) / 10,
                     (x_coord p - (min_x_corner prm + 5)) / 10) /\
    (cell_of prm p = cell_of prm q <-> xy p = xy q).
Proof.
  intros p q Hpin Hqin.
  destruct (lattice_cell gdf prm x0 y0 p Hp Hlat Hpin) as [a [b [Ha [Hb [_ [_ Hcp]]]]]].
  split.
  - rewrite Hcp, Ha, Hb; f_equal; f_equal; lia.
  - split; [apply (lattice_cell_inj gdf prm x0 y0 p q Hp Hlat Hpin Hqin)|].
    unfold xy, cell_of, x_idx, y_idx; intros [= -> ->]; reflexivity.
Qed.

(** The first part of the raster argument: the last write to a cell wins. *)
Lemma raster_last_write gdf prm arr l1 r l2 t v :
  calculate_raster_parameters_utm gdf = Some prm ->
  create_raster_array_utm gdf prm = Some arr ->
  gdf = l1 ++ r :: l2 -> tBreak r = Some t -> break_date_int t = Some v ->
  (forall q, In q l2 -> tBreak q <> None -> cell_of prm q <> cell_of prm r) ->
  cell arr (cell_of prm r) = v.
Proof.
  intros Hp Ha Hg Ht Hv Hlater; unfold create_raster_array_utm in Ha.
  assert (Hr : in_raster prm (cell_of prm r) = true)
    by (apply (point_cell_in_raster gdf); [exact Hp|rewrite Hg; apply in_elt]).
  rewrite Hg, fold_left_app in Ha; cbn [fold_left] in Ha.
  destruct (fold_left (raster_step prm) l1 _) as [a1|] eqn:H1;
    [|rewrite fold_raster_none in Ha; discriminate].
  pose proof (fold_raster_dims prm l1 _ a1 (initial_grid_dims prm) H1) as Hd1.
  assert (Hs : raster_step prm (Some a1) r = Some (set_cell a1 (cell_of prm r) v))
    by (simpl; rewrite Hr, Ht, Hv; reflexivity).
  rewrite Hs in Ha.
  rewrite (fold_raster_keep prm l2 _ arr (cell_of prm r) Hr Ha Hlater).
  exact (cell_set_cell_eq prm a1 (cell_of prm r) v Hd1 Hr).
Qed.

Lemma raster_distinct_pixels gdf prm arr x0 y0 :
  calculate_raster_parameters_utm gdf = Some prm ->
  create_raster_array_utm gdf prm = Some arr ->
  (forall q, In q gdf -> (x_coord q - x0) mod 10 = 0 /\ (y_coord q - y0) mod 10 = 0) ->
  NoDup (map xy gdf) ->
  forall r t v, In r gdf -> tBreak r = Some t -> break_date_int t = Some v ->
    cell arr (cell_of prm r) = v.
Proof.
  intros Hp Ha Hlat Hnd r t v Hr Ht Hv.
  destruct (in_split r gdf Hr) as [l1 [l2 Hg]].
  apply (raster_last_write gdf prm arr l1 r l2 t v Hp Ha Hg Ht Hv).
  intros q Hq _ Hc.
  assert (Hqin : In q gdf) by (rewrite Hg; apply in_or_app; right; now right).
  pose proof (lattice_cell_inj gdf prm x0 y0 q r Hp Hlat Hqin Hr Hc) as Hxy.
  rewrite Hg, map_app in Hnd; simpl in Hnd.
  apply NoDup_remove_2 in Hnd; apply Hnd, in_or_app; right.
  rewrite <- Hxy; now apply in_map.
Qed.

(** On a 10 m lattice, when no two points share coordinates, every point
    with a non-null tBreak has its YYYYMMDD date in its cell of the array
    of [create_raster_array_utm]: no date is overwritten. *)
Theorem create_raster_array_utm_lattice gdf prm arr x0 y0
  (Hp : calculate_raster_parameters_utm gdf = Some prm)
  (Ha : create_raster_array_utm gdf prm = Some arr)
  (Hlat : forall q, In q gdf -> (x_coord q - x0) mod 10 = 0 /\ (y_coord q - y0) mod 10 = 0)
  (Hnd : NoDup (map xy gdf)) :
  forall r t v, In r gdf -> tBreak r = Some t -> break_date_int t = Some v ->
    cell arr (cell_of prm r) = v.
Proof. exact (raster_distinct_pixels gdf prm arr x0 y0 Hp Ha Hlat Hnd). Qed.




Lemma process_directory_to_geotiff_inv files out s e b writes :
  process_directory_to_geotiff files out s e b = Some writes ->
  writes = [] /\ collect_data_from_directory files s e b = None \/
  exists gdf qml prm arr,
    collect_data_from_directory files s e b = Some gdf /\
    create_qgis_style_entries gdf = Some qml /\
    calculate_raster_parameters_utm gdf = Some prm /\
    create_raster_array_utm gdf prm = Some arr /\
    writes = [(replace_tif "_year_colors.qml" out, QmlFile qml); (out, TiffFile prm arr)].
Proof.
  unfold process_directory_to_geotiff.
  destruct (collect_data_from_directory files s e b) as [gdf|] eqn:E1;
    [|intros [= <-]; now left].
  destruct (create_qgis_style_entries gdf) as [qml|] eqn:E2; [|discriminate].
  destruct (calculate_raster_parameters_utm gdf) as [prm|] eqn:E3; [|discriminate].
  destruct (create_raster_array_utm gdf prm) as [arr|] eqn:E4; [|discriminate].
  intros [= <-]; right; now exists gdf, qml, prm, arr.
Qed.


(** ** The style file path *)

Lemma string_append_nil_r (s : String.string) : String.append s "" = s.
Proof. induction s as [|c s IH]; simpl; [reflexivity|now rewrite IH]. Qed.

Lemma string_append_assoc (a b c : String.string) :
  String.append a (String.append b c) = String.append (String.append a b) c.
Proof. induction a as [|ch a IH]; simpl; [reflexivity|now rewrite IH]. Qed.

Lemma string_append_inj_l (p a b : String.string) :
  String.append p a = String.append p b -> a = b.
Proof. induction p as [|c p IH]; simpl; [auto|intros [= H]; auto]. Qed.

Lemma string_length_append (a b : String.string) :
  String.length (String.append a b) = (String.length a + String.length b)%nat.
Proof. induction a as [|c a IH]; simpl; [reflexivity|now rewrite IH]. Qed.

(** A path shorter than [".tif"] does not contain it. *)
Lemma short_no_tif (s : String.string) :
  (String.length s < 4)%nat -> forall p q, s <> String.append p (String.append ".tif" q).
Proof.
  intros Hl p q ->; rewrite !string_length_append in Hl; simpl in Hl; lia.
Qed.

(** A string that does not start with [".tif"] is scanned one character on. *)
Lemma replace_tif_step new c s1 :
  (forall q, String.String c s1 <> String.append ".tif" q) ->
  replace_tif new (String.String c s1) = String.String c (replace_tif new s1).
Proof.
  intros H; destruct s1 as [|c1 [|c2 [|c3 rest]]]; try reflexivity.
  cbn [replace_tif].
  destruct (Ascii.eqb c ".") eqn:E0, (Ascii.eqb c1 "t") eqn:E1,
    (Ascii.eqb c2 "i") eqn:E2, (Ascii.eqb c3 "f") eqn:E3; try reflexivity.
  apply Ascii.eqb_eq in E0, E1, E2, E3; subst.
  exfalso; apply (H rest); reflexivity.
Qed.

Lemma no_tif_cons c s :
  (forall p q, String.String c s <> String.append p (String.append ".tif" q)) ->
  forall p q, s <> String.append p (String.append ".tif" q).
Proof. intros H p q Hs; apply (H (String.String c p) q); simpl; now rewrite Hs. Qed.

Lemma replace_tif_none new s :
  (forall p q, s <> String.append p (String.append ".tif" q)) -> replace_tif new s = s.
Proof.
  induction s as [|c s IH]; intros H; [reflexivity|].
  rewrite replace_tif_step by (intros q; exact (H ""%string q)).
  now rewrite (IH (no_tif_cons c s H)).
Qed.

Lemma replace_tif_suffix new base :
  (forall p q, base <> String.append p (String.append ".tif" q)) ->
  replace_tif new (String.append base ".tif") = String.append base new.
Proof.
  induction base as [|c base IH]; intros H.
  - simpl; apply string_append_nil_r.
  - cbn [String.append]; rewrite replace_tif_step.
    + now rewrite (IH (no_tif_cons c base H)).
    + intros q Heq; simpl in Heq; injection Heq as -> Heq.
      destruct base as [|c1 [|c2 [|c3 b4]]]; simpl in Heq; injection Heq as Heq;
        try discriminate.
      subst; exact (H ""%string b4 eq_refl).
Qed.

(** When [output_raster_file] contains no [".tif"], the style path equals
    the raster path: the QML written first is replaced by the GeoTIFF, and
    no file holds the style when [process_directory_to_geotiff] returns. *)
Theorem process_directory_to_geotiff_style_lost files out s e b writes
  (Hrun : process_directory_to_geotiff files out s e b = Some writes)
  (Hnotif : forall p q, out <> String.append p (String.append ".tif" q)) :
  forall path qml, file_at writes path <> Some (QmlFile qml).
Proof.
  intros path qml.
  destruct (process_directory_to_geotiff_inv _ _ _ _ _ _ Hrun)
    as [[-> _]|[gdf [q [prm [arr [_ [_ [_ [_ ->]]]]]]]]]; [discriminate|].
  rewrite (replace_tif_none _ out Hnotif); unfold file_at; simpl.
  destruct (String.eqb out path); discriminate.
Qed.

(** For [output_raster_file = base ++ ".tif"] with no other [".tif"] in
    [base], the style file [base ++ "_year_colors.qml"] and the GeoTIFF
    are two files, both present when [process_directory_to_geotiff]
    returns after collecting data. *)
Theorem process_directory_to_geotiff_style_file files base s e b writes gdf
  (Hrun : process_directory_to_geotiff files (String.append base ".tif") s e b = Some writes)
  (Hbase : forall p q, base <> String.append p (String.append ".tif" q))
  (Hgdf : collect_data_from_directory files s e b = Some gdf) :
  exists qml prm arr, create_qgis_style_entries gdf = Some qml /\
    file_at writes (String.append base "_year_colors.qml") = Some (QmlFile qml) /\
    file_at writes (String.append base ".tif") = Some (TiffFile prm arr).
Proof.
  destruct (process_directory_to_geotiff_inv _ _ _ _ _ _ Hrun)
    as [[_ Hn]|[gdf' [qml [prm [arr [Hc [Hq [_ [_ ->]]]]]]]]]; [congruence|].
  rewrite Hgdf in Hc; injection Hc as <-.
  exists qml, prm, arr; split; [exact Hq|].
  rewrite (replace_tif_suffix _ base Hbase).
  assert (Hne : String.eqb (String.append base ".tif") (String.append base "_year_colors.qml") = false).
  { apply String.eqb_neq; intros Heq; apply string_append_inj_l in Heq; discriminate. }
  unfold file_at; simpl; rewrite !String.eqb_refl, Hne.
  split; reflexivity.
Qed.

(* ------------------------------------------------------------------ *)
(** ** Helper lemmas for the Extration and gee models *)

Lemma apply_opt_map {A B C} (f : A -> option B) (g : B -> C) (h : A -> C) l bs :
  (forall a b, f a = Some b -> g b = h a) -> apply_opt f l = Some bs -> map g bs = map h l.
Proof.
  intros Hgh; revert bs; induction l as [|a l IH]; simpl; intros bs H.
  - now injection H as <-.
  - destruct (f a) as [b|] eqn:Hf, (apply_opt f l) as [bs'|]; try discriminate.
    injection H as <-; simpl; rewrite (Hgh a b Hf), (IH bs' eq_refl); reflexivity.
Qed.

Lemma apply_opt_some_in {A B} (f : A -> option B) l bs a :
  apply_opt f l = Some bs -> In a l -> exists b, f a = Some b.
Proof.
  revert bs; induction l as [|a' l IH]; simpl; intros bs H Ha; [contradiction|].
  destruct (f a') as [b|] eqn:Hf, (apply_opt f l) as [bs'|]; try discriminate.
  destruct Ha as [<-|Ha]; [now exists b|exact (IH bs' eq_refl Ha)].
Qed.

Lemma apply_opt_all_none {A B} (f : A -> option B) l bs :
  (forall a, f a = None) -> apply_opt f l = Some bs -> bs = [].
Proof.
  intros Hf; destruct l as [|a l]; simpl; [now injection 1|].
  rewrite Hf; discriminate.
Qed.

Lemma filter_length_lt {A} (f : A -> bool) l a :
  In a l -> f a = false -> (length (filter f l) < length l)%nat.
Proof.
  induction l as [|b l IH]; simpl; intros Ha Hfa; [contradiction|].
  pose proof (filter_length_le f l) as Hle.
  destruct Ha as [->|Ha]; [rewrite Hfa; lia|].
  destruct (f b); simpl; specialize (IH Ha Hfa); lia.
Qed.

Lemma carregar_datas_length datas_ndvi datas :
  carregar_datas datas_ndvi = Some datas -> In 65535 datas_ndvi ->
  (length datas < length datas_ndvi)%nat.
Proof.
  unfold carregar_datas; intros H Hin; apply apply_opt_length in H; rewrite H.
  apply (filter_length_lt _ _ 65535 Hin); reflexivity.
Qed.

Lemma processar_pixel_length {A} pixel_vals datas_pixel d0 (band_names : list A) d1 n :
  length pixel_vals <> length datas_pixel ->
  processar_pixel pixel_vals datas_pixel d0 band_names d1 n = None.
Proof.
  intros Hne; unfold processar_pixel, make_frame.
  destruct (column pixel_vals 0) as [c|] eqn:Ec; [|reflexivity].
  unfold column in Ec; apply apply_opt_length in Ec.
  replace (Nat.eqb (length datas_pixel) (length c)) with false; [reflexivity|].
  symmetry; apply Nat.eqb_neq; lia.
Qed.

Lemma pixel_values_length valores p pv :
  pixel_values valores p = Some pv -> length pv = length valores.
Proof. apply apply_opt_length. Qed.

Lemma in_join_ids join k : In k (join_ids join) <-> In k (map snd join).
Proof.
  unfold join_ids; split; intros H.
  - apply (Permutation_in _ (Permutation_sym (ZSort.Permuted_sort _))), nodup_In in H; exact H.
  - apply (Permutation_in _ (ZSort.Permuted_sort _)), nodup_In; exact H.
Qed.

Lemma in_join_group join k p : In p (join_group join k) <-> In (p, k) join.
Proof.
  unfold join_group; rewrite in_map_iff; split.
  - intros [[p' k'] [Hp Hin]]; apply filter_In in Hin as [Hin Hk]; simpl in *.
    apply Z.eqb_eq in Hk; subst; exact Hin.
  - intros Hin; exists (p, k); split; [reflexivity|apply filter_In; split; [exact Hin|apply Z.eqb_refl]].
Qed.

(** The rows a group gives, for the pixels of the group in order. *)
Lemma process_group_pairs {A} gdf datas xs ys valores (band_names : list A) n join k l :
  process_group gdf datas xs ys valores band_names n join k = Some l ->
  map (fun r => (idx_h5 r, ID r)) l =
  match first_feature gdf k with
  | Some f => match data_0_dt f with
              | Some _ => map (fun p => (p, k)) (join_group join k)
              | None => []
              end
  | None => []
  end.
Proof.
  unfold process_group; destruct (first_feature gdf k) as [f|]; [|discriminate].
  destruct (id_gleba f) as [g|]; [|discriminate].
  destruct (data_0_dt f) as [d0|]; [|now injection 1 as <-].
  apply apply_opt_map; intros p r.
  destruct (nth_error xs p), (nth_error ys p), (pixel_values valores p); try discriminate.
  destruct processar_pixel; simpl; [|discriminate].
  now injection 1 as <-.
Qed.

Lemma process_group_rows {A} gdf datas xs ys valores (band_names : list A) n join k l r :
  process_group gdf datas xs ys valores band_names n join k = Some l -> In r l ->
  ID r = k /\ In (idx_h5 r, k) join /\
  exists f d0 pv, first_feature gdf k = Some f /\ data_0_dt f = Some d0 /\
    id_gleba f = Some (buffer_ID r) /\
    nth_error xs (idx_h5 r) = Some (linha_x r) /\ nth_error ys (idx_h5 r) = Some (linha_y r) /\
    pixel_values valores (idx_h5 r) = Some pv /\
    processar_pixel pv datas d0 band_names (data_1_dt f) n = Some (linha_row r).
Proof.
  unfold process_group; destruct (first_feature gdf k) as [f|] eqn:Hf; [|discriminate].
  destruct (id_gleba f) as [g|] eqn:Hg; [|discriminate].
  destruct (data_0_dt f) as [d0|] eqn:Hd0; [|now injection 1 as <-].
  intros Hl Hr; apply (apply_opt_in _ _ _ r Hl) in Hr as [p [Hp Hpr]].
  apply in_join_group in Hp.
  destruct (nth_error xs p) as [x|] eqn:Hx, (nth_error ys p) as [y|] eqn:Hy,
           (pixel_values valores p) as [pv|] eqn:Hpv; try discriminate.
  destruct processar_pixel as [rw|] eqn:Hrw; simpl in Hpr; [|discriminate].
  injection Hpr as <-; simpl.
  split; [reflexivity|split; [exact Hp|]].
  exists f, d0, pv; repeat split; auto.
Qed.

Lemma concat_all_nil {A} (ls : list (list A)) : (forall l, In l ls -> l = []) -> concat ls = [].
Proof.
  induction ls as [|l ls IH]; simpl; intros H; auto.
  rewrite (H l (or_introl eq_refl)), IH; auto.
Qed.

(** [processar_geometrias_otimizado]: one row per pixel of the join, the
    ids ascending, for the ids whose first polygon has a parsable
    ['data_0']. *)
Theorem processar_geometrias_otimizado_pixels {A} gdf_poligonos datas_pixel x_coords y_coords
    valores (band_names : list A) N_OBS join rs
    (Hrun : processar_geometrias_otimizado gdf_poligonos datas_pixel x_coords y_coords valores
              band_names N_OBS join = Some rs) :
  map (fun r => (idx_h5 r, ID r)) rs =
  flat_map (fun k => match first_feature gdf_poligonos k with
                     | Some f => match data_0_dt f with
                                 | Some _ => map (fun p => (p, k)) (join_group join k)
                                 | None => []
                                 end
                     | None => []
                     end) (join_ids join).
Proof.
  unfold processar_geometrias_otimizado in Hrun.
  destruct apply_opt as [ls|] eqn:Hls; simpl in Hrun; [|discriminate].
  injection Hrun as <-.
  rewrite concat_map, flat_map_concat_map; f_equal.
  eapply apply_opt_map; [|exact Hls].
  intros k l Hk; exact (process_group_pairs _ _ _ _ _ _ _ _ _ _ Hk).
Qed.

(** Each row comes from a pixel of the join lying in a polygon of its id,
    with the dates of the first polygon of that id. *)
Theorem processar_geometrias_otimizado_rows {A} gdf_poligonos datas_pixel x_coords y_coords
    valores (band_names : list A) N_OBS join rs r
    (Hrun : processar_geometrias_otimizado gdf_poligonos datas_pixel x_coords y_coords valores
              band_names N_OBS join = Some rs)
    (Hr : In r rs) :
  In (idx_h5 r, ID r) join /\
  exists f d0 pv, first_feature gdf_poligonos (ID r) = Some f /\ data_0_dt f = Some d0 /\
    id_gleba f = Some (buffer_ID r) /\
    nth_error x_coords (idx_h5 r) = Some (linha_x r) /\
    nth_error y_coords (idx_h5 r) = Some (linha_y r) /\
    pixel_values valores (idx_h5 r) = Some pv /\
    processar_pixel pv datas_pixel d0 band_names (data_1_dt f) N_OBS = Some (linha_row r) /\
    data_mid (linha_row r) = data_target d0 (data_1_dt f).
Proof.
  unfold processar_geometrias_otimizado in Hrun.
  destruct apply_opt as [ls|] eqn:Hls; simpl in Hrun; [|discriminate].
  injection Hrun as <-.
  apply in_concat in Hr as [l [Hl Hr]].
  apply (apply_opt_in _ _ _ l Hls) in Hl as [k [_ Hk]].
  destruct (process_group_rows _ _ _ _ _ _ _ _ _ _ _ Hk Hr)
    as [HID [Hj [f [d0 [pv [Hf [Hd0 [Hb [Hx [Hy [Hpv Hrow]]]]]]]]]]].
  subst k; split; [exact Hj|].
  exists f, d0, pv; repeat split; auto.
  revert Hrow; unfold processar_pixel.
  destruct make_frame as [df|]; [|discriminate].
  destruct ObsSortAsc.sort; [intros H; injection H; intros <-; reflexivity|].
  destruct (apply_opt (band_lists _ _ _ _) _); [intros H; injection H; intros <-; reflexivity|discriminate].
Qed.

(** A missing-date entry [65535] in the dates file, with one time step of
    [valores] per entry: no polygon gets a row; the run raises as soon as
    a polygon with a parsable ['data_0'] contains a pixel. *)
Theorem processar_geometrias_otimizado_sentinel {A} datas_ndvi gdf_poligonos datas_pixel
    x_coords y_coords valores (band_names : list A) N_OBS join
    (Hload : carregar_datas datas_ndvi = Some datas_pixel)
    (Hsent : In 65535 datas_ndvi)
    (Hlen : length valores = length datas_ndvi) :
  (processar_geometrias_otimizado gdf_poligonos datas_pixel x_coords y_coords valores
     band_names N_OBS join = None \/
   processar_geometrias_otimizado gdf_poligonos datas_pixel x_coords y_coords valores
     band_names N_OBS join = Some []) /\
  ((exists p k f d0, In (p, k) join /\ first_feature gdf_poligonos k = Some f /\
                     data_0_dt f = Some d0) ->
   processar_geometrias_otimizado gdf_poligonos datas_pixel x_coords y_coords valores
     band_names N_OBS join = None).
Proof.
  pose proof (carregar_datas_length _ _ Hload Hsent) as Hlt.
  assert (Hpix : forall f g d0 p,
            match nth_error x_coords p, nth_error y_coords p, pixel_values valores p with
            | Some x, Some y, Some pv =>
                option_map (fun rw => mkLinha x y p rw (fid f) g)
                  (processar_pixel pv datas_pixel d0 band_names (data_1_dt f) N_OBS)
            | _, _, _ => None
            end = None).
  { intros f g d0 p; destruct (nth_error x_coords p), (nth_error y_coords p),
      (pixel_values valores p) as [pv|] eqn:Hpv; auto.
    apply pixel_values_length in Hpv.
    rewrite processar_pixel_length by lia; reflexivity. }
  assert (Hgroup : forall k l, process_group gdf_poligonos datas_pixel x_coords y_coords valores
                                 band_names N_OBS join k = Some l ->
                    l = [] /\ forall f d0 p, first_feature gdf_poligonos k = Some f ->
                                        data_0_dt f = Some d0 -> ~ In (p, k) join).
  { intros k l; unfold process_group.
    destruct (first_feature gdf_poligonos k) as [f|] eqn:Hf; [|discriminate].
    assert (Hfk : fid f = k) by (apply find_some in Hf; apply Z.eqb_eq, Hf).
    destruct (id_gleba f) as [g|]; [|discriminate].
    destruct (data_0_dt f) as [d0|] eqn:Hd0.
    - intros Hl; split.
      + eapply apply_opt_all_none; [|exact Hl].
        intros p; rewrite <- Hfk; apply Hpix.
      + intros f' d0' p Hf' _ Hin; injection Hf' as <-.
        apply in_join_group in Hin.
        destruct (apply_opt_some_in _ _ _ _ Hl Hin) as [r Hr].
        rewrite <- Hfk, Hpix in Hr; discriminate.
    - intros Hl; injection Hl as <-; split; [reflexivity|].
      intros f' d0' p Hf'; injection Hf' as <-; congruence. }
  unfold processar_geometrias_otimizado.
  destruct apply_opt as [ls|] eqn:Hls; simpl.
  - assert (Hnil : concat ls = []).
    { apply concat_all_nil; intros l Hl.
      apply (apply_opt_in _ _ _ l Hls) in Hl as [k [_ Hk]].
      exact (proj1 (Hgroup k l Hk)). }
    rewrite Hnil; split; [now right|].
    intros [p [k [f [d0 [Hin [Hf Hd0]]]]]].
    assert (Hk : In k (join_ids join)) by (apply in_join_ids, in_map_iff; now exists (p, k)).
    destruct (apply_opt_some_in _ _ _ _ Hls Hk) as [l Hl].
    exfalso; exact (proj2 (Hgroup k l Hl) f d0 p Hf Hd0 Hin).
  - split; [now left|reflexivity].
Qed.

(** [feature['id_gleba']] in the progress [print]: when the first polygon
    of an id of the join has no ['id_gleba'], the run raises [KeyError]. *)
Theorem processar_geometrias_otimizado_no_id_gleba {A} gdf_poligonos datas_pixel x_coords
    y_coords valores (band_names : list A) N_OBS join p k f
    (Hin : In (p, k) join)
    (Hf : first_feature gdf_poligonos k = Some f)
    (Hg : id_gleba f = None) :
  processar_geometrias_otimizado gdf_poligonos datas_pixel x_coords y_coords valores
    band_names N_OBS join = None.
Proof.
  unfold processar_geometrias_otimizado.
  destruct apply_opt as [ls|] eqn:Hls; [|reflexivity].
  assert (Hk : In k (join_ids join)) by (apply in_join_ids, in_map_iff; now exists (p, k)).
  destruct (apply_opt_some_in _ _ _ _ Hls Hk) as [l Hl].
  revert Hl; unfold process_group; rewrite Hf, Hg; discriminate.
Qed.

Lemma filter_insert_desc (P : row -> bool) x l
  (HP : forall y, P x = true -> P y = true -> tb_ge (tBreak x) (tBreak y) = true) :
  filter P (insert_desc x l) = if P x then x :: filter P l else filter P l.
Proof.
  induction l as [|y l IH]; simpl.
  - destruct (P x); reflexivity.
  - destruct (tb_ge (tBreak x) (tBreak y)) eqn:Hxy; simpl.
    + destruct (P x); reflexivity.
    + rewrite IH; destruct (P x) eqn:Hx, (P y) eqn:Hy; auto.
      rewrite (HP y eq_refl Hy) in Hxy; discriminate.
Qed.

(** The order of [nlargest] is stable: the rows holding a given [tBreak]
    value (NaN included) keep their order in the group. On the group
    [5, 9, 9] this makes [filter_pixel_group] return the second row
    holding 9, as [nlargest(2).index[-1]] does. *)
Theorem sort_desc_stable g v :
  filter (fun r => tb_ge (tBreak r) v && tb_ge v (tBreak r)) (sort_desc g) =
  filter (fun r => tb_ge (tBreak r) v && tb_ge v (tBreak r)) g /\
  filter_pixel_group [mkRow 0 0 0 (Some 5); mkRow 1 0 0 (Some 9); mkRow 2 0 0 (Some 9)] None None =
    FRow (mkRow 2 0 0 (Some 9)).
Proof.
  split; [|reflexivity].
  induction g as [|x g IH]; simpl; [reflexivity|].
  rewrite filter_insert_desc, IH; [reflexivity|].
  intros y Hx Hy; apply andb_true_iff in Hx as [Hx1 Hx2]; apply andb_true_iff in Hy as [Hy1 Hy2].
  eapply tb_ge_trans; eauto.
Qed.

(** [data_target_dt] with a second date: the floor of the mean of the two
    days, whichever comes first, so it lies between them. *)
Theorem data_target_midpoint d0 d1 :
  data_target d0 (Some d1) = (d0 + d1) / 2 /\
  Z.min d0 d1 <= data_target d0 (Some d1) <= Z.max d0 d1.
Proof.
  assert (Hmid : data_target d0 (Some d1) = (d0 + d1) / 2).
  { unfold data_target; destruct (d1 =? d0) eqn:E; simpl.
    - apply Z.eqb_eq in E; subst d1.
      replace (d0 + d0) with (d0 * 2) by ring; rewrite Z.div_mul; lia.
    - replace (d0 + d1) with (d0 * 2 + (d1 - d0)) by ring.
      rewrite Z.div_add_l; lia. }
  split; [exact Hmid|]; rewrite Hmid.
  pose proof (Z.div_mod (d0 + d1) 2 ltac:(lia)); pose proof (Z.mod_pos_bound (d0 + d1) 2 ltac:(lia)).
  lia.
Qed.

Lemma all_masked_forall (out_image : image) :
  Forall (Forall (Forall (fun e => masked e = true))) out_image ->
  all_masked out_image = true.
Proof.
  intros H; unfold all_masked; apply forallb_forall; intros rw Hrw.
  rewrite Forall_forall in H; specialize (H rw Hrw).
  apply forallb_forall; intros pv Hpv.
  rewrite Forall_forall in H; specialize (H pv Hpv).
  apply forallb_forall; intros e He.
  rewrite Forall_forall in H; exact (H e He).
Qed.

Lemma not_all_masked_exists (out_image : image) :
  Exists (Exists (Exists (fun e => masked e = false))) out_image ->
  all_masked out_image = false.
Proof.
  intros H; unfold all_masked.
  apply Exists_exists in H as [rw [Hrw H]]; apply Exists_exists in H as [pv [Hpv H]].
  apply Exists_exists in H as [e [He Hm]].
  destruct (forallb _ out_image) eqn:Hf; [|reflexivity].
  rewrite forallb_forall in Hf; specialize (Hf rw Hrw).
  rewrite forallb_forall in Hf; specialize (Hf pv Hpv).
  rewrite forallb_forall in Hf; specialize (Hf e He); congruence.
Qed.

Lemma all_nodata_forall (out_image : image) :
  Forall (Forall (Forall (fun e => masked e = true \/ data e = NODATA))) out_image ->
  forallb (forallb (all_true_eq NODATA)) out_image = true.
Proof.
  intros Hall; apply forallb_forall; intros rw Hrw; apply forallb_forall; intros pv Hpv.
  rewrite Forall_forall in Hall; specialize (Hall rw Hrw); rewrite Forall_forall in Hall.
  specialize (Hall pv Hpv); rewrite Forall_forall in Hall.
  unfold all_true_eq; apply forallb_forall; intros e He.
  destruct (Hall e He) as [Hm|Hd]; [now rewrite Hm|].
  destruct (masked e); [reflexivity|now apply Z.eqb_eq].
Qed.

Lemma assign_nodata_all_masked (out_image : image) :
  Forall (Forall (Forall (fun e => masked e = true))) out_image ->
  assign_nodata out_image (mask_nodata_of out_image) =
  map (map (map (fun _ => mkElem NODATA false))) out_image.
Proof.
  unfold assign_nodata, mask_nodata_of.
  induction out_image as [|rw img IH]; simpl; intros H; [reflexivity|].
  inversion H as [|? ? Hrw Himg]; subst.
  rewrite (IH Himg); f_equal.
  clear IH H Himg; induction rw as [|pv rw IHr]; simpl; [reflexivity|].
  inversion Hrw as [|? ? Hpv Hrw']; subst.
  rewrite (IHr Hrw').
  replace (all_true_eq 0 pv) with true; [reflexivity|].
  symmetry; unfold all_true_eq; apply forallb_forall; intros e He.
  rewrite Forall_forall in Hpv; now rewrite (Hpv e He).
Qed.

(** [combine_tiffs_to_mosaic]: with no TIFF nothing is written or removed;
    otherwise the subtile folder is always removed, and the file left at
    [output_file] is the unclipped mosaic when [mask] raises [ValueError]
    or when the clip has an unmasked element and every unmasked element is
    [NODATA]. A clip masked in every element is not treated as outside the
    area: it is written, every element set to an unmasked [NODATA]. *)
Theorem combine_tiffs_to_mosaic_outcome {F} (tiff_files : list F) mosaic clipped :
  (tiff_files = [] -> combine_tiffs_to_mosaic tiff_files mosaic clipped = mkOutcome None false) /\
  (tiff_files <> [] ->
   input_removed (combine_tiffs_to_mosaic tiff_files mosaic clipped) = true /\
   output_content (combine_tiffs_to_mosaic tiff_files mosaic clipped) <> None /\
   ((clipped = None \/
     exists out_image, clipped = Some out_image /\
       Exists (Exists (Exists (fun e => masked e = false))) out_image /\
       Forall (Forall (Forall (fun e => masked e = true \/ data e = NODATA))) out_image) ->
    output_content (combine_tiffs_to_mosaic tiff_files mosaic clipped) = Some mosaic) /\
   (forall out_image, clipped = Some out_image ->
      Forall (Forall (Forall (fun e => masked e = true))) out_image ->
      output_content (combine_tiffs_to_mosaic tiff_files mosaic clipped) =
        Some (map (map (map (fun _ => mkElem NODATA false))) out_image))).
Proof.
  unfold combine_tiffs_to_mosaic; split; [intros ->; reflexivity|].
  intros Hne; destruct tiff_files as [|t ts]; [contradiction|].
  split; [destruct (write_clipped clipped); reflexivity|].
  split; [destruct (write_clipped clipped); discriminate|].
  split.
  - intros [->|[out_image [-> [Hex Hall]]]]; [reflexivity|].
    unfold write_clipped, all_nodata_truthy.
    rewrite (not_all_masked_exists _ Hex), (all_nodata_forall _ Hall); reflexivity.
  - intros out_image -> Hm.
    unfold write_clipped, all_nodata_truthy.
    rewrite (all_masked_forall _ Hm); simpl.
    rewrite (assign_nodata_all_masked _ Hm); reflexivity.
Qed.

Lemma has_col_in df c : has_col df c = true <-> In c (map fst df).
Proof.
  unfold has_col; rewrite existsb_exists, in_map_iff; split.
  - intros [col [Hin He]]; apply String.eqb_eq in He; exists col; auto.
  - intros [col [He Hin]]; exists col; split; [exact Hin|apply String.eqb_eq; exact He].
Qed.

Lemma filter_key_absent (df : frame) k :
  ~ In k (map fst df) -> filter (fun col => String.eqb (fst col) k) df = [].
Proof.
  induction df as [|[n v] df IH]; simpl; intros Hn; auto.
  destruct (String.eqb n k) eqn:He.
  - apply String.eqb_eq in He; subst; exfalso; apply Hn; auto.
  - apply IH; auto.
Qed.

Lemma filter_key_single (df : frame) p :
  NoDup (map fst df) -> In p df -> filter (fun col => String.eqb (fst col) (fst p)) df = [p].
Proof.
  induction df as [|q df IH]; simpl; intros Hnd Hp; [contradiction|].
  inversion Hnd as [|? ? Hn Hnd']; subst.
  destruct Hp as [<-|Hp].
  - rewrite String.eqb_refl, filter_key_absent; auto.
  - destruct (String.eqb (fst q) (fst p)) eqn:He.
    + apply String.eqb_eq in He; exfalso; apply Hn; rewrite He; apply in_map; exact Hp.
    + apply IH; auto.
Qed.

(** [df[cols]] on distinct column names, all present: for each name, its
    column. *)
Lemma select_cols_present (df : frame) cols :
  NoDup (map fst df) -> Forall (fun c => In c (map fst df)) cols ->
  select_cols df cols = Some (flat_map (fun c => filter (fun col => String.eqb (fst col) c) df) cols).
Proof.
  intros Hnd; unfold select_cols; induction cols as [|c cols IH]; simpl; intros Hall; auto.
  inversion Hall as [|? ? Hc Hall']; subst.
  apply in_map_iff in Hc as [p [<- Hp]].
  rewrite (df_col_in df p Hnd Hp), IH by exact Hall'; simpl.
  rewrite (filter_key_single df p Hnd Hp); destruct p; reflexivity.
Qed.

Lemma flat_map_keys_self (df : frame) (P : String.string -> bool) :
  NoDup (map fst df) ->
  flat_map (fun c => filter (fun col => String.eqb (fst col) c) df) (filter P (map fst df)) =
  filter (fun col => P (fst col)) df.
Proof.
  intros Hnd.
  assert (Hgen : forall l, incl l df ->
            flat_map (fun c => filter (fun col => String.eqb (fst col) c) df) (filter P (map fst l)) =
            filter (fun col => P (fst col)) l).
  { induction l as [|p l IH]; simpl; intros Hincl; auto.
    destruct (P (fst p)); simpl.
    - rewrite (filter_key_single df p Hnd (Hincl p (or_introl eq_refl))), IH; auto.
      intros q Hq; apply Hincl; now right.
    - apply IH; intros q Hq; apply Hincl; now right. }
  apply Hgen, incl_refl.
Qed.

Lemma existsb_present df c l :
  has_col df c = true ->
  existsb (String.eqb c) (filter (has_col df) l) = existsb (String.eqb c) l.
Proof.
  intros Hc; induction l as [|a l IH]; simpl; auto.
  destruct (String.eqb c a) eqn:He.
  - apply String.eqb_eq in He; subst a; rewrite Hc; simpl; now rewrite String.eqb_refl.
  - destruct (has_col df a); simpl; rewrite ?He; exact IH.
Qed.

Lemma flat_map_keys_present (df : frame) l :
  flat_map (fun c => filter (fun col => String.eqb (fst col) c) df) (filter (has_col df) l) =
  flat_map (fun c => filter (fun col => String.eqb (fst col) c) df) l.
Proof.
  induction l as [|c l IH]; simpl; auto.
  destruct (has_col df c) eqn:Hc; simpl; rewrite IH; auto.
  rewrite filter_key_absent; [reflexivity|].
  rewrite <- has_col_in; congruence.
Qed.

(** The frame [reorganizar_colunas] selects, for distinct column names. *)
Lemma reorganizar_colunas_eq (df : frame) (Hnd : NoDup (map fst df)) :
  reorganizar_colunas df =
  Some (filter (fun c => String.eqb (fst c) "x") df ++
        filter (fun c => String.eqb (fst c) "y") df ++
        filter (fun c => String.eqb (fst c) "buffer_ID") df ++
        filter (fun c => String.eqb (fst c) "ID") df ++
        filter (fun c => negb (existsb (String.eqb (fst c)) colunas_principais)) df).
Proof.
  unfold reorganizar_colunas; cbv zeta.
  rewrite select_cols_present; [f_equal|exact Hnd|].
  - rewrite flat_map_app, flat_map_keys_present.
    assert (Houtras :
      filter (fun c => negb (existsb (String.eqb c) (filter (has_col df) colunas_principais)))
             (map fst df) =
      filter (fun c => negb (existsb (String.eqb c) colunas_principais)) (map fst df)).
    { apply filter_ext_in; intros c Hc.
      rewrite existsb_present; [reflexivity|apply has_col_in; exact Hc]. }
    rewrite Houtras, (flat_map_keys_self df (fun c => negb (existsb (String.eqb c) colunas_principais)) Hnd).
    unfold colunas_principais; simpl; rewrite app_nil_r, <- !app_assoc; reflexivity.
  - apply Forall_app; split; apply Forall_forall; intros c Hc; apply filter_In in Hc as [Hc Hp].
    + apply has_col_in; exact Hp.
    + exact Hc.
Qed.

(** [reorganizar_colunas] on a frame with distinct column names: the
    columns ['x'], ['y'], ['buffer_ID'], ['ID'] that are present come first,
    in that order, then every other column in its order; each column keeps
    its values and none is lost. *)
Theorem reorganizar_colunas_order (df : frame) (Hnd : NoDup (map fst df)) :
  reorganizar_colunas df =
  Some (filter (fun c => String.eqb (fst c) "x") df ++
        filter (fun c => String.eqb (fst c) "y") df ++
        filter (fun c => String.eqb (fst c) "buffer_ID") df ++
        filter (fun c => String.eqb (fst c) "ID") df ++
        filter (fun c => negb (existsb (String.eqb (fst c)) colunas_principais)) df).
Proof. exact (reorganizar_colunas_eq df Hnd). Qed.

Lemma filter_filter_keep {A} (f g : A -> bool) l :
  (forall a, f a = true -> g a = true) -> filter g (filter f l) = filter f l.
Proof.
  intros H; induction l as [|a l IH]; simpl; auto.
  destruct (f a) eqn:Ha; simpl; [rewrite (H a Ha); f_equal|]; exact IH.
Qed.

Lemma filter_filter_drop {A} (f g : A -> bool) l :
  (forall a, f a = true -> g a = false) -> filter g (filter f l) = [].
Proof.
  intros H; induction l as [|a l IH]; simpl; auto.
  destruct (f a) eqn:Ha; simpl; [rewrite (H a Ha)|]; exact IH.
Qed.

(** [reorganizar_colunas] then [salvar_parquet], as in the main loop: the
    file holds ['x'] and ['y'] (when present) then the other columns in
    order; ['buffer_ID'] and ['ID'] are never written. *)
Theorem salvar_parquet_columns (df : frame) (Hnd : NoDup (map fst df)) :
  exists df_final, reorganizar_colunas df = Some df_final /\
  salvar_parquet df_final =
    filter (fun c => String.eqb (fst c) "x") df ++
    filter (fun c => String.eqb (fst c) "y") df ++
    filter (fun c => negb (existsb (String.eqb (fst c)) colunas_principais)) df.
Proof.
  eexists; split; [exact (reorganizar_colunas_eq df Hnd)|].
  unfold salvar_parquet; rewrite !filter_app.
  assert (Hk : forall k, k = "x"%string \/ k = "y"%string ->
            filter (fun c => negb (String.eqb (fst c) "buffer_ID" || String.eqb (fst c) "ID"))
                   (filter (fun c => String.eqb (fst c) k) df) =
            filter (fun c => String.eqb (fst c) k) df).
  { intros k Hk'; apply filter_filter_keep; intros [n v] Hn; simpl in *.
    apply String.eqb_eq in Hn; subst n; destruct Hk' as [->| ->]; reflexivity. }
  rewrite (Hk "x"%string (or_introl eq_refl)), (Hk "y"%string (or_intror eq_refl)).
  rewrite (filter_filter_drop (fun c => String.eqb (fst c) "buffer_ID")),
          (filter_filter_drop (fun c => String.eqb (fst c) "ID")).
  - cbn [app]; do 2 f_equal.
    apply filter_filter_keep; intros [n v] Hn; simpl in *.
    destruct (String.eqb n "buffer_ID") eqn:E1; [apply String.eqb_eq in E1; subst; discriminate|].
    destruct (String.eqb n "ID") eqn:E2; [apply String.eqb_eq in E2; subst; discriminate|].
    reflexivity.
  - intros [n v] Hn; simpl in *; apply String.eqb_eq in Hn; subst; reflexivity.
  - intros [n v] Hn; simpl in *; apply String.eqb_eq in Hn; subst; reflexivity.
Qed.

(* ------------------------------------------------------------------ *)
(** ** Witnesses of the further properties *)

Lemma process_parquet_file_rows_witness :
  NoDup (map label [mkRow 0 5 5 (Some 0); mkRow 1 15 5 (Some 86400000); mkRow 2 5 5 (Some 1000)]) /\
  StronglySorted xy_lt
    (map xy (process_parquet_file
               (Some [mkRow 0 5 5 (Some 0); mkRow 1 15 5 (Some 86400000); mkRow 2 5 5 (Some 1000)])
               None None None)).
Proof.
  assert (Hnd : NoDup (map label [mkRow 0 5 5 (Some 0); mkRow 1 15 5 (Some 86400000);
                                  mkRow 2 5 5 (Some 1000)]))
    by (simpl; repeat constructor; simpl; intuition discriminate).
  split; [exact Hnd|exact (proj1 (process_parquet_file_rows _ None None None Hnd))].
Defined.

Lemma process_parquet_file_pixels_witness :
  NoDup (map label [mkRow 0 5 5 (Some 0); mkRow 1 15 5 (Some 86400000); mkRow 2 5 5 (Some 1000)]) /\
  In (5, 5) (map xy (process_parquet_file
                       (Some [mkRow 0 5 5 (Some 0); mkRow 1 15 5 (Some 86400000);
                              mkRow 2 5 5 (Some 1000)])
                       None None (Some (fun x _ => x <? 10)))).
Proof.
  assert (Hnd : NoDup (map label [mkRow 0 5 5 (Some 0); mkRow 1 15 5 (Some 86400000);
                                  mkRow 2 5 5 (Some 1000)]))
    by (simpl; repeat constructor; simpl; intuition discriminate).
  split; [exact Hnd|].
  apply (proj2 (process_parquet_file_pixels _ None None (Some (fun x _ => x <? 10)) (5, 5) Hnd)).
  exists (mkRow 0 5 5 (Some 0)); split; [now left|split; [reflexivity|split]].
  - intros w Hw; injection Hw as <-; reflexivity.
  - intros [H|H]; contradiction H; reflexivity.
Defined.

Lemma create_raster_array_utm_values_witness :
  create_raster_array_utm [mkRow 0 500005 4000005 (Some 0); mkRow 1 500025 4000015 None]
    (mkParams 3 2 500000 4000000 500030 4000020 10 10)
    = Some [[-9999; -9999; -9999]; [19700101; -9999; -9999]] /\
  grid_dims [[-9999; -9999; -9999]; [19700101; -9999; -9999]] 2 3.
Proof.
  assert (Ha : create_raster_array_utm
                 [mkRow 0 500005 4000005 (Some 0); mkRow 1 500025 4000015 None]
                 (mkParams 3 2 500000 4000000 500030 4000020 10 10)
               = Some [[-9999; -9999; -9999]; [19700101; -9999; -9999]])
    by (vm_compute; reflexivity).
  split; [exact Ha|exact (proj1 (create_raster_array_utm_values _ _ _ Ha))].
Defined.

Lemma raster_lattice_cells_witness :
  calculate_raster_parameters_utm [mkRow 0 500005 4000005 (Some 0); mkRow 1 500025 4000015 None]
    = Some (mkParams 3 2 500000 4000000 500030 4000020 10 10) /\
  (forall q, In q [mkRow 0 500005 4000005 (Some 0); mkRow 1 500025 4000015 None] ->
     (x_coord q - 5) mod 10 = 0 /\ (y_coord q - 5) mod 10 = 0) /\
  (cell_of (mkParams 3 2 500000 4000000 500030 4000020 10 10) (mkRow 0 500005 4000005 (Some 0)) =
   cell_of (mkParams 3 2 500000 4000000 500030 4000020 10 10) (mkRow 1 500025 4000015 None) <->
   xy (mkRow 0 500005 4000005 (Some 0)) = xy (mkRow 1 500025 4000015 None)).
Proof.
  assert (Hp : calculate_raster_parameters_utm
                 [mkRow 0 500005 4000005 (Some 0); mkRow 1 500025 4000015 None]
               = Some (mkParams 3 2 500000 4000000 500030 4000020 10 10))
    by (vm_compute; reflexivity).
  assert (Hlat : forall q, In q [mkRow 0 500005 4000005 (Some 0); mkRow 1 500025 4000015 None] ->
                   (x_coord q - 5) mod 10 = 0 /\ (y_coord q - 5) mod 10 = 0)
    by (intros q [<-|[<-|[]]]; split; reflexivity).
  split; [exact Hp|split; [exact Hlat|]].
  exact (proj2 (raster_lattice_cells _ _ 5 5 Hp Hlat _ _ (or_introl eq_refl)
                  (or_intror (or_introl eq_refl)))).
Defined.

Lemma create_raster_array_utm_lattice_witness :
  calculate_raster_parameters_utm [mkRow 0 500005 4000005 (Some 0); mkRow 1 500025 4000015 None]
    = Some (mkParams 3 2 500000 4000000 500030 4000020 10 10) /\
  create_raster_array_utm [mkRow 0 500005 4000005 (Some 0); mkRow 1 500025 4000015 None]
    (mkParams 3 2 500000 4000000 500030 4000020 10 10)
    = Some [[-9999; -9999; -9999]; [19700101; -9999; -9999]] /\
  NoDup (map xy [mkRow 0 500005 4000005 (Some 0); mkRow 1 500025 4000015 None]) /\
  cell [[-9999; -9999; -9999]; [19700101; -9999; -9999]]
    (cell_of (mkParams 3 2 500000 4000000 500030 4000020 10 10) (mkRow 0 500005 4000005 (Some 0)))
    = 19700101.
Proof.
  assert (Hp : calculate_raster_parameters_utm
                 [mkRow 0 500005 4000005 (Some 0); mkRow 1 500025 4000015 None]
               = Some (mkParams 3 2 500000 4000000 500030 4000020 10 10))
    by (vm_compute; reflexivity).
  assert (Ha : create_raster_array_utm
                 [mkRow 0 500005 4000005 (Some 0); mkRow 1 500025 4000015 None]
                 (mkParams 3 2 500000 4000000 500030 4000020 10 10)
               = Some [[-9999; -9999; -9999]; [19700101; -9999; -9999]])
    by (vm_compute; reflexivity).
  assert (Hlat : forall q, In q [mkRow 0 500005 4000005 (Some 0); mkRow 1 500025 4000015 None] ->
                   (x_coord q - 5) mod 10 = 0 /\ (y_coord q - 5) mod 10 = 0)
    by (intros q [<-|[<-|[]]]; split; reflexivity).
  assert (Hnd : NoDup (map xy [mkRow 0 500005 4000005 (Some 0); mkRow 1 500025 4000015 None]))
    by (simpl; repeat constructor; simpl; intuition discriminate).
  split; [exact Hp|split; [exact Ha|split; [exact Hnd|]]].
  apply (create_raster_array_utm_lattice _ _ _ 5 5 Hp Ha Hlat Hnd _ 0);
    [now left|reflexivity|vm_compute; reflexivity].
Defined.


Lemma process_directory_to_geotiff_style_lost_witness :
  process_directory_to_geotiff (map Some [[mkRow 0 500005 4000005 (Some 0)]]) "out" None None None =
  Some [("out"%string, QmlFile [19700101; -9999]);
        ("out"%string, TiffFile (mkParams 1 1 500000 4000000 500010 4000010 10 10) [[19700101]])] /\
  (forall p q, "out"%string <> String.append p (String.append ".tif" q)) /\
  forall path qml,
    file_at [("out"%string, QmlFile [19700101; -9999]);
             ("out"%string, TiffFile (mkParams 1 1 500000 4000000 500010 4000010 10 10) [[19700101]])]
      path <> Some (QmlFile qml).
Proof.
  assert (Hrun : process_directory_to_geotiff (map Some [[mkRow 0 500005 4000005 (Some 0)]])
                   "out" None None None =
    Some [("out"%string, QmlFile [19700101; -9999]);
          ("out"%string, TiffFile (mkParams 1 1 500000 4000000 500010 4000010 10 10) [[19700101]])])
    by (vm_compute; reflexivity).
  assert (Hn : forall p q, "out"%string <> String.append p (String.append ".tif" q))
    by (apply short_no_tif; simpl; lia).
  split; [exact Hrun|split; [exact Hn|exact (process_directory_to_geotiff_style_lost _ _ _ _ _ _ Hrun Hn)]].
Defined.

Lemma process_directory_to_geotiff_style_file_witness :
  process_directory_to_geotiff (map Some [[mkRow 0 500005 4000005 (Some 0)]])
    (String.append "out" ".tif") None None None =
  Some [("out_year_colors.qml"%string, QmlFile [19700101; -9999]);
        ("out.tif"%string, TiffFile (mkParams 1 1 500000 4000000 500010 4000010 10 10) [[19700101]])] /\
  collect_data_from_directory (map Some [[mkRow 0 500005 4000005 (Some 0)]]) None None None
    = Some [mkRow 0 500005 4000005 (Some 0)] /\
  exists qml prm arr, create_qgis_style_entries [mkRow 0 500005 4000005 (Some 0)] = Some qml /\
    file_at [("out_year_colors.qml"%string, QmlFile [19700101; -9999]);
             ("out.tif"%string,
              TiffFile (mkParams 1 1 500000 4000000 500010 4000010 10 10) [[19700101]])]
      (String.append "out" "_year_colors.qml") = Some (QmlFile qml) /\
    file_at [("out_year_colors.qml"%string, QmlFile [19700101; -9999]);
             ("out.tif"%string,
              TiffFile (mkParams 1 1 500000 4000000 500010 4000010 10 10) [[19700101]])]
      (String.append "out" ".tif") = Some (TiffFile prm arr).
Proof.
  assert (Hrun : process_directory_to_geotiff (map Some [[mkRow 0 500005 4000005 (Some 0)]])
                   (String.append "out" ".tif") None None None =
    Some [("out_year_colors.qml"%string, QmlFile [19700101; -9999]);
          ("out.tif"%string, TiffFile (mkParams 1 1 500000 4000000 500010 4000010 10 10) [[19700101]])])
    by (vm_compute; reflexivity).
  assert (Hgdf : collect_data_from_directory (map Some [[mkRow 0 500005 4000005 (Some 0)]])
                   None None None = Some [mkRow 0 500005 4000005 (Some 0)])
    by (vm_compute; reflexivity).
  assert (Hn : forall p q, "out"%string <> String.append p (String.append ".tif" q))
    by (apply short_no_tif; simpl; lia).
  split; [exact Hrun|split; [exact Hgdf|]].
  exact (process_directory_to_geotiff_style_file _ _ _ _ _ _ _ Hrun Hn Hgdf).
Defined.

Lemma processar_geometrias_otimizado_pixels_witness :
  exists rs,
    processar_geometrias_otimizado
      [mkFeature 7 (Some 8) (Some 100) None; mkFeature 3 (Some 9) (Some 100) (Some 104);
       mkFeature 7 (Some 1) None None]
      [99; 101; 103] [10; 20; 30] [5; 6; 7] [[[1; 2; 3]]; [[4; 5; 6]]; [[7; 8; 9]]] [tt] 2
      [(0%nat, 7); (1%nat, 3); (2%nat, 7); (2%nat, 3)] = Some rs /\
    map (fun r => (idx_h5 r, ID r)) rs = [(1%nat, 3); (2%nat, 3); (0%nat, 7); (2%nat, 7)].
Proof.
  destruct (processar_geometrias_otimizado
      [mkFeature 7 (Some 8) (Some 100) None; mkFeature 3 (Some 9) (Some 100) (Some 104);
       mkFeature 7 (Some 1) None None]
      [99; 101; 103] [10; 20; 30] [5; 6; 7] [[[1; 2; 3]]; [[4; 5; 6]]; [[7; 8; 9]]] [tt] 2
      [(0%nat, 7); (1%nat, 3); (2%nat, 7); (2%nat, 3)]) as [rs|] eqn:Hrun;
    [|vm_compute in Hrun; discriminate].
  exists rs; split; [reflexivity|].
  rewrite (processar_geometrias_otimizado_pixels _ _ _ _ _ _ _ _ _ Hrun).
  vm_compute; reflexivity.
Defined.

Lemma processar_geometrias_otimizado_rows_witness :
  processar_geometrias_otimizado
    [mkFeature 7 (Some 8) (Some 100) None; mkFeature 3 (Some 9) (Some 100) (Some 104)]
    [99; 101; 103] [10; 20] [5; 6] [[[1; 2]]; [[4; 5]]; [[7; 8]]] [tt] 2 [(1%nat, 3)] =
  Some [mkLinha 20 6 1 (mkPixelRow 102 [99; 101] [103] [[2; 5]] [[8]]) 3 9] /\
  In (1%nat, 3) [(1%nat, 3)] /\
  exists f d0 pv,
    first_feature [mkFeature 7 (Some 8) (Some 100) None; mkFeature 3 (Some 9) (Some 100) (Some 104)] 3
      = Some f /\ data_0_dt f = Some d0 /\
    id_gleba f = Some 9 /\
    nth_error [10; 20] 1 = Some 20 /\ nth_error [5; 6] 1 = Some 6 /\
    pixel_values [[[1; 2]]; [[4; 5]]; [[7; 8]]] 1 = Some pv /\
    processar_pixel pv [99; 101; 103] d0 [tt] (data_1_dt f) 2 =
      Some (mkPixelRow 102 [99; 101] [103] [[2; 5]] [[8]]) /\
    102 = data_target d0 (data_1_dt f).
Proof.
  assert (Hrun : processar_geometrias_otimizado
    [mkFeature 7 (Some 8) (Some 100) None; mkFeature 3 (Some 9) (Some 100) (Some 104)]
    [99; 101; 103] [10; 20] [5; 6] [[[1; 2]]; [[4; 5]]; [[7; 8]]] [tt] 2 [(1%nat, 3)] =
    Some [mkLinha 20 6 1 (mkPixelRow 102 [99; 101] [103] [[2; 5]] [[8]]) 3 9])
    by (vm_compute; reflexivity).
  split; [exact Hrun|].
  exact (processar_geometrias_otimizado_rows _ _ _ _ _ _ _ _ _ _ Hrun (or_introl eq_refl)).
Defined.

Lemma processar_geometrias_otimizado_sentinel_witness :
  carregar_datas [719163; 65535] = Some [719163] /\ In 65535 [719163; 65535] /\
  length [[[1]]; [[2]]] = length [719163; 65535] /\
  processar_geometrias_otimizado [mkFeature 7 (Some 8) (Some 719163) None] [719163] [10] [5]
    [[[1]]; [[2]]] [tt] 10 [(0%nat, 7)] = None.
Proof.
  assert (Hl : carregar_datas [719163; 65535] = Some [719163]) by (vm_compute; reflexivity).
  assert (Hs : In 65535 [719163; 65535]) by (right; left; reflexivity).
  assert (Hn : length [[[1]]; [[2]]] = length [719163; 65535]) by reflexivity.
  split; [exact Hl|split; [exact Hs|split; [exact Hn|]]].
  apply (proj2 (processar_geometrias_otimizado_sentinel _ [mkFeature 7 (Some 8) (Some 719163) None]
                  _ [10] [5] _ [tt] 10 [(0%nat, 7)] Hl Hs Hn)).
  exists 0%nat, 7, (mkFeature 7 (Some 8) (Some 719163) None), 719163.
  split; [now left|split; reflexivity].
Defined.

Lemma reorganizar_colunas_order_witness :
  NoDup (map fst [("n", [CInt 1]); ("ID", [CInt 2]); ("x", [CInt 3])]%string) /\
  reorganizar_colunas [("n", [CInt 1]); ("ID", [CInt 2]); ("x", [CInt 3])]%string =
    Some [("x", [CInt 3]); ("ID", [CInt 2]); ("n", [CInt 1])]%string.
Proof.
  assert (Hnd : NoDup (map fst [("n", [CInt 1]); ("ID", [CInt 2]); ("x", [CInt 3])]%string))
    by (simpl; repeat constructor; simpl; intuition discriminate).
  split; [exact Hnd|].
  rewrite (reorganizar_colunas_order _ Hnd); reflexivity.
Defined.

Lemma salvar_parquet_columns_witness :
  NoDup (map fst [("n", [CInt 1]); ("ID", [CInt 2]); ("x", [CInt 3])]%string) /\
  exists df_final,
    reorganizar_colunas [("n", [CInt 1]); ("ID", [CInt 2]); ("x", [CInt 3])]%string = Some df_final /\
    salvar_parquet df_final = [("x", [CInt 3]); ("n", [CInt 1])]%string.
Proof.
  assert (Hnd : NoDup (map fst [("n", [CInt 1]); ("ID", [CInt 2]); ("x", [CInt 3])]%string))
    by (simpl; repeat constructor; simpl; intuition discriminate).
  split; [exact Hnd|].
  destruct (salvar_parquet_columns _ Hnd) as [df_final [Hr Hs]].
  exists df_final; split; [exact Hr|rewrite Hs; reflexivity].
Defined.

Lemma processar_geometrias_otimizado_no_id_gleba_witness :
  In (0%nat, 7) [(0%nat, 7)] /\
  first_feature [mkFeature 7 None (Some 100) None] 7 = Some (mkFeature 7 None (Some 100) None) /\
  id_gleba (mkFeature 7 None (Some 100) None) = None /\
  processar_geometrias_otimizado [mkFeature 7 None (Some 100) None] [99] [10] [5] [[[1]]] [tt] 2
    [(0%nat, 7)] = None.
Proof.
  assert (Hin : In (0%nat, 7) [(0%nat, 7)]) by (left; reflexivity).
  assert (Hf : first_feature [mkFeature 7 None (Some 100) None] 7 =
               Some (mkFeature 7 None (Some 100) None)) by reflexivity.
  assert (Hg : id_gleba (mkFeature 7 None (Some 100) None) = None) by reflexivity.
  split; [exact Hin|split; [exact Hf|split; [exact Hg|]]].
  exact (processar_geometrias_otimizado_no_id_gleba _ [99] [10] [5] [[[1]]] [tt] 2 _ _ _ _ Hin Hf Hg).
Defined.
